(** * mcp-virtual-fs: path utilities, storage backend and filesystem semantics

    A shallow embedding of [src/paths.ts], of the class
    [PostgresBackend] (the PostgreSQL backend of [src/storage]) and of
    the class [VirtualFS] of [src/vfs.ts], and the properties of the
    specification proved or refuted on them.

    What the model fixes:
    - strings are Rocq strings, one [ascii] per UTF-16 code unit (so the
      model covers the code units below 256); [String.length] is the
      JavaScript [length] and the SQL [length];
    - the database is the two tables as finite maps, keyed as their
      primary key and unique constraint key them; a statement is a
      function on them.  The errors of the database itself are the
      violations of the foreign key and of the unique constraint, the
      refusal of a NUL code unit in a [TEXT] parameter, of a regular
      expression and of a [LIKE] pattern that ends in its escape
      character.  The NUL is tested in the contents, the pattern and
      the path filter that a caller hands over; paths reach the
      statements validated, so without one, and session ids and store
      names are taken to be [TEXT] values (the statements that turn on
      the NUL of a content say it of the id of the namespace too);
    - what a statement leaves to the database is a parameter: the
      collation behind [ORDER BY], and the order in which a statement
      meets the rows of a table;
    - row-level security is off ([enableRls] false, as [createBackend]
      leaves it unless [VFS_ENABLE_RLS] is set), so that [query] runs
      each statement directly on the pool;
    - row identifiers and the two timestamps of a node are left out, as
      are the messages of [VfsError]: no operation reads them;
    - the comparison of the JavaScript locale, the [picomatch] matcher
      and the two regular-expression engines are parameters; [picomatch]
      and the engine of the database refuse some patterns. *)

From Stdlib Require Import ZArith Lia List Ascii String.
From stdpp Require Import base option list sorting gmap sets strings.

Local Open Scope string_scope.
Local Open Scope list_scope.
Local Open Scope Z_scope.
Local Open Scope nat_scope.

(** ** JavaScript string primitives used by the sources *)

Module Js.

(** A value reaching [validatePath]: the TypeScript signature says
    [string], the run-time [typeof] test covers everything else. *)
Inductive Value :=
| JsString (s : string)
| JsNotString.

(** [s.split(sep)] for a one-character separator. *)
Fixpoint split (sep : ascii) (s : string) : list string :=
  match s with
  | EmptyString => [EmptyString]
  | String c r =>
      if Ascii.eqb c sep then EmptyString :: split sep r
      else match split sep r with
           | h :: t => String c h :: t
           | [] => [String c EmptyString]
           end
  end.

(** [l.join(sep)]. *)
Definition join (sep : string) (l : list string) : string := String.concat sep l.
#[global] Arguments join : simpl never.

(** [s.startsWith(pre)]. *)
Definition startsWith (s pre : string) : bool := String.prefix pre s.

(** [s.lastIndexOf(c)], [-1] when [c] does not occur. *)
Fixpoint lastIndexOf (c : ascii) (s : string) : Z :=
  match s with
  | EmptyString => (-1)%Z
  | String d r =>
      let i := lastIndexOf c r in
      if (0 <=? i)%Z then (i + 1)%Z
      else if Ascii.eqb d c then 0%Z else (-1)%Z
  end.

Definition slice_index (len i : Z) : Z :=
  if (i <? 0)%Z then Z.max (len + i) 0 else Z.min i len.

(** [s.slice(b, e)]. *)
Definition slice (s : string) (b e : Z) : string :=
  let len := Z.of_nat (String.length s) in
  let from := slice_index len b in
  let to := slice_index len e in
  substring (Z.to_nat from) (Z.to_nat (to - from)) s.

(** [s.slice(b)]. *)
Definition slice_from (s : string) (b : Z) : string :=
  slice s b (Z.of_nat (String.length s)).

(** Some code unit of [s] satisfies [P]. *)
Fixpoint any_char (P : ascii -> bool) (s : string) : bool :=
  match s with
  | EmptyString => false
  | String c r => P c || any_char P r
  end.

(** [s.includes("\0")]. *)
Definition includes_nul (s : string) : bool :=
  any_char (fun c => Ascii.eqb c zero) s.

(** [/[\x00-\x1f]/.test(s)]. *)
Definition has_control (s : string) : bool :=
  any_char (fun c => (N_of_ascii c <=? 31)%N) s.

(** [s.replace(/c/g, by)] for a one-character pattern [c]. *)
Fixpoint replace_char (c : ascii) (by_ : string) (s : string) : string :=
  match s with
  | EmptyString => EmptyString
  | String d r =>
      (if Ascii.eqb d c then by_ else String d EmptyString) +:+ replace_char c by_ r
  end.

(** [s.replace(/cc/g, by)] for a doubled character [c]: matches are
    taken from the left and do not overlap. *)
Fixpoint replace_pair (c : ascii) (by_ : string) (s : string) : string :=
  match s with
  | String d1 (String d2 r as t) =>
      if Ascii.eqb d1 c && Ascii.eqb d2 c then by_ +:+ replace_pair c by_ r
      else String d1 (replace_pair c by_ t)
  | _ => s
  end.

(** [l.filter(Boolean)] on strings: the empty string is the falsy one. *)
Definition filter_truthy (l : list string) : list string :=
  List.filter (fun s => negb (String.eqb s "")) l.

(** [l.sort(cmp)].  The sort is stable; for a comparator that is a
    consistent order this fixes the result, given here by insertion.
    (For other comparators the standard leaves the order open.) *)
Fixpoint sort_insert {A} (cmp : A -> A -> Z) (x : A) (l : list A) : list A :=
  match l with
  | [] => [x]
  | y :: l' => if (cmp x y <=? 0)%Z then x :: l else y :: sort_insert cmp x l'
  end.

Definition sort {A} (cmp : A -> A -> Z) (l : list A) : list A :=
  fold_right (sort_insert cmp) [] l.

End Js.

(** ** src/paths.ts *)

Module Paths.
Import Js.

Definition MAX_PATH_LENGTH : nat := 4096.

Inductive PathError :=
| PathErr (message : string).

(** The [for] loop of [normalizePath] over the segments, [resolved]
    being the array built so far ([push] appends, [pop] drops the last
    element and does nothing on the empty array). *)
Fixpoint resolve (segments resolved : list string) : list string :=
  match segments with
  | [] => resolved
  | seg :: rest =>
      if String.eqb seg "" || String.eqb seg "." then resolve rest resolved
      else if String.eqb seg ".." then resolve rest (removelast resolved)
      else resolve rest (resolved ++ [seg])
  end.

Definition normalizePath (input : string) : string :=
  if String.eqb input "" then "/"
  else
    let p := if startsWith input "/" then input else "/" +:+ input in
    "/" +:+ join "/" (resolve (split "/" p) []).

Definition parentPath (p : string) : string :=
  let normalized := normalizePath p in
  if String.eqb normalized "/" then "/"
  else
    let lastSlash := lastIndexOf "/" normalized in
    if (lastSlash =? 0)%Z then "/" else slice normalized 0 lastSlash.

Definition basename (p : string) : string :=
  let normalized := normalizePath p in
  if String.eqb normalized "/" then "/"
  else slice_from normalized (lastIndexOf "/" normalized + 1).

Definition ancestorPaths (p : string) : list string :=
  let normalized := normalizePath p in
  if String.eqb normalized "/" then []
  else
    let segments := filter_truthy (split "/" normalized) in
    "/" :: List.map (fun i => "/" +:+ join "/" (firstn (i + 1) segments))
                    (seq 0 (length segments - 1)).

Definition validatePath (input : Value) : PathError + string :=
  match input with
  | JsNotString => inl (PathErr "Path must be a string")
  | JsString s =>
      if (MAX_PATH_LENGTH <? String.length s)%nat
      then inl (PathErr "Path exceeds maximum length of 4096")
      else if includes_nul s
      then inl (PathErr "Path must not contain null bytes")
      else
        let normalized := normalizePath s in
        if has_control s
        then inl (PathErr "Path must not contain control characters")
        else inr normalized
  end.

(** Segment depth of a path: the number of segments of its normal form. *)
Definition depth (p : string) : nat :=
  length (filter_truthy (split "/" (normalizePath p))).

End Paths.

(** ** The SQL operators used by the backend's statements *)

Module Sql.
Import Js.

(** A string that PostgreSQL takes as a [TEXT] value: it holds no NUL
    code unit. *)
Definition is_text (s : string) : bool :=
  negb (any_char (fun c => Ascii.eqb c zero) s).

(** [s LIKE pat] in PostgreSQL: [%] matches any run of characters, [_]
    any single character, and a backslash makes the next character of
    the pattern literal.  A pattern ending in a lone backslash matches
    nothing; whether its evaluation is an error is [like_raises]
    below. *)
Fixpoint like_pat (pat : string) : string -> bool :=
  match pat with
  | EmptyString =>
      fun s => match s with EmptyString => true | String _ _ => false end
  | String c pat' =>
      if Ascii.eqb c "%" then
        fix any (s : string) : bool :=
          like_pat pat' s
          || match s with EmptyString => false | String _ s' => any s' end
      else if Ascii.eqb c "_" then
        fun s => match s with
                 | EmptyString => false
                 | String _ s' => like_pat pat' s'
                 end
      else if Ascii.eqb c "\" then
        match pat' with
        | EmptyString => fun _ => false
        | String e pat'' =>
            fun s => match s with
                     | EmptyString => false
                     | String d s' => Ascii.eqb d e && like_pat pat'' s'
                     end
        end
      else
        fun s => match s with
                 | EmptyString => false
                 | String d s' => Ascii.eqb d c && like_pat pat' s'
                 end
  end.

Definition like (s pat : string) : bool := like_pat pat s.

(** The evaluation of [LIKE] by PostgreSQL's matcher, which walks the
    pattern and the text together and raises "LIKE pattern must not end
    with escape character" when it comes to a backslash that ends the
    pattern while text is left to match.  After a [%] it skips the
    wildcards that follow ([star]), then tries the rest of the pattern
    at each position of the text that starts with its first literal,
    and gives up at the first attempt that does not simply fail. *)
Inductive LikeResult := LIKE_TRUE | LIKE_FALSE | LIKE_ABORT | LIKE_ERROR.

Fixpoint only_percent (p : string) : bool :=
  match p with
  | EmptyString => true
  | String c p' => Ascii.eqb c "%" && only_percent p'
  end.

Fixpoint match_text (p : string) (star : bool) {struct p} : string -> LikeResult :=
  match p with
  | EmptyString =>
      fun t => if star then LIKE_TRUE
               else match t with EmptyString => LIKE_TRUE | String _ _ => LIKE_FALSE end
  | String c p' =>
      if star then
        if Ascii.eqb c "%" then match_text p' true
        else if Ascii.eqb c "_" then
          fun t => match t with
                   | EmptyString => LIKE_ABORT
                   | String _ t' => match_text p' true t'
                   end
        else if Ascii.eqb c "\" then
          match p' with
          | EmptyString => fun _ => LIKE_ERROR
          | String e p'' =>
              fix scan (t : string) : LikeResult :=
                match t with
                | EmptyString => LIKE_ABORT
                | String d t' =>
                    if Ascii.eqb d e then
                      match match_text p'' false t' with
                      | LIKE_FALSE => scan t'
                      | r => r
                      end
                    else scan t'
                end
          end
        else
          fix scan (t : string) : LikeResult :=
            match t with
            | EmptyString => LIKE_ABORT
            | String d t' =>
                if Ascii.eqb d c then
                  match match_text p' false t' with
                  | LIKE_FALSE => scan t'
                  | r => r
                  end
                else scan t'
            end
      else
        fun t =>
          match t with
          | EmptyString => if only_percent p then LIKE_TRUE else LIKE_ABORT
          | String d t' =>
              if Ascii.eqb c "\" then
                match p' with
                | EmptyString => LIKE_ERROR
                | String e p'' =>
                    if Ascii.eqb e d then match_text p'' false t' else LIKE_FALSE
                end
              else if Ascii.eqb c "%" then match_text p' true t
              else if Ascii.eqb c "_" then match_text p' false t'
              else if Ascii.eqb c d then match_text p' false t'
              else LIKE_FALSE
          end
  end.

(** The evaluation of [s LIKE pat] raises.  Where it does not, the
    matcher answers as [like] does ([LikeFacts.like_agrees]); and it
    never does on the patterns that the statements build from a path,
    which end in [/%] ([LikeFacts.subtree_pattern_total],
    [LikeFacts.child_patterns_total]). *)
Definition like_raises (s pat : string) : bool :=
  match match_text pat false s with
  | LIKE_ERROR => true
  | _ => false
  end.

(** The order of rows: that of [ORDER BY] under the collation, or that
    in which a scan meets them.  Either is given as a comparison, and
    the rows are put in its order by insertion; rows that it holds
    equal stay as they come. *)
Definition ordered {A} (cmp : A -> A -> Z) (l : list A) : list A := sort cmp l.

(** [substr(s, start)], positions counted from 1. *)
Definition substr (s : string) (start : nat) : string :=
  substring (start - 1) (String.length s - (start - 1)) s.

End Sql.

(** ** The class [PostgresBackend] of src/storage *)

Module Storage.
Import Sql.

Inductive NodeType := file | directory.

#[global] Instance NodeType_eq_dec : EqDecision NodeType.
Proof. solve_decision. Defined.

(** A row of [vfs_nodes] under its key [(session_id, path)]. *)
Record Row := mkRow { node_type : NodeType; content : option string }.

(** What [getNode] and [listChildren] hand back. *)
Record VfsNode := mkNode {
  path : string;
  nodeType : NodeType;
  nodeContent : option string }.

(** The database behind the pool, with the backend's cache of
    provisioned namespaces.  [vfs_sessions] maps an id to its
    [is_persistent] flag; the [UNIQUE (session_id, path)] constraint of
    [vfs_nodes] makes it a map on that pair. *)
Record Backend := mkBackend {
  vfs_sessions : gmap string bool;
  vfs_nodes : gmap (string * string) Row;
  knownNamespaces : gset string }.

Definition empty_backend : Backend := mkBackend ∅ ∅ ∅.

Definition set_sessions (f : gmap string bool -> gmap string bool) (b : Backend) :=
  mkBackend (f (vfs_sessions b)) (vfs_nodes b) (knownNamespaces b).
Definition set_nodes
    (f : gmap (string * string) Row -> gmap (string * string) Row) (b : Backend) :=
  mkBackend (vfs_sessions b) (f (vfs_nodes b)) (knownNamespaces b).
Definition set_known (f : gset string -> gset string) (b : Backend) :=
  mkBackend (vfs_sessions b) (vfs_nodes b) (f (knownNamespaces b)).

(** Errors the database raises on its own: the violations of the two
    constraints, a NUL in a [TEXT] parameter (22021), a regular
    expression that PostgreSQL refuses (2201B), and a [LIKE] pattern
    that ends in its escape character (22025). *)
Inductive DbError :=
| foreign_key_violation
| unique_violation
| character_not_in_repertoire
| invalid_regular_expression
| invalid_escape_sequence.

(** Codes of [VfsError]; the message text is left out. *)
Inductive Code := ENOENT | EISDIR | ENOTDIR | EEXIST | EINVAL.

(** What an operation can throw: a [PathError], a [VfsError], an error
    of the database, or what [picomatch] throws on a pattern it does
    not take. *)
Inductive Error :=
| EPath (e : Paths.PathError)
| EVfs (code : Code)
| EDb (e : DbError)
| EMatcher.

(** Computations over the backend that may throw: the state reached
    when an error is thrown is kept, as statements already executed
    stay executed. *)
Definition M (A : Type) : Type := Backend -> (Error + A) * Backend.

Definition ret {A} (a : A) : M A := fun b => (inr a, b).
Definition throw {A} (e : Error) : M A := fun b => (inl e, b).
Definition bind {A B} (m : M A) (k : A -> M B) : M B :=
  fun b => match m b with
           | (inl e, b') => (inl e, b')
           | (inr a, b') => k a b'
           end.

Declare Scope vfs_scope.
Delimit Scope vfs_scope with vfs.
Notation "x <- m ;; k" := (bind m (fun x => k))
  (at level 100, m at next level, right associativity) : vfs_scope.
Notation "m ;; k" := (bind m (fun _ => k))
  (at level 100, right associativity) : vfs_scope.
Local Open Scope vfs_scope.

(** [for (const x of l) await f(x)] *)
Fixpoint for_each {A} (f : A -> M unit) (l : list A) : M unit :=
  match l with
  | [] => ret tt
  | x :: rest => f x ;; for_each f rest
  end.

(** [INSERT INTO vfs_sessions (id, is_persistent) VALUES ($1, flag)
     ON CONFLICT (id) DO NOTHING] *)
Definition insert_session (id : string) (flag : bool) : M unit :=
  fun b => match vfs_sessions b !! id with
           | Some _ => (inr tt, b)
           | None => (inr tt, set_sessions (insert id flag) b)
           end.

(** Insertion of a fresh row of [vfs_nodes]: [session_id] references
    [vfs_sessions(id)]. *)
Definition insert_row (ns p : string) (r : Row) : M unit :=
  fun b => match vfs_sessions b !! ns with
           | Some _ => (inr tt, set_nodes (insert (ns, p) r) b)
           | None => (inl (EDb foreign_key_violation), b)
           end.

Definition insertDir (namespaceId p : string) : M unit :=
  fun b => match vfs_nodes b !! (namespaceId, p) with
           | Some _ => (inr tt, b)
           | None => insert_row namespaceId p (mkRow directory None) b
           end.

Definition ensureSession (id : string) : M unit :=
  fun b => if decide (id ∈ knownNamespaces b) then (inr tt, b)
           else (insert_session id false ;;
                 insertDir id "/" ;;
                 fun b' => (inr tt, set_known (union {[id]}) b')) b.

Definition ensureStore (name : string) : M unit :=
  fun b => if decide (name ∈ knownNamespaces b) then (inr tt, b)
           else (insert_session name true ;;
                 insertDir name "/" ;;
                 fun b' => (inr tt, set_known (union {[name]}) b')) b.

(** [if (store)]: an absent or empty store name is falsy. *)
Definition truthy (store : option string) : option string :=
  match store with
  | Some s => if String.eqb s "" then None else Some s
  | None => None
  end.

Definition resolveNamespace (sessionId : string) (store : option string) : M string :=
  match truthy store with
  | Some s => ensureStore s ;; ret s
  | None => ensureSession sessionId ;; ret sessionId
  end.

Definition getNode (namespaceId p : string) : M (option VfsNode) :=
  fun b => (inr (match vfs_nodes b !! (namespaceId, p) with
                 | Some r => Some (mkNode p (node_type r) (content r))
                 | None => None
                 end), b).

(** The [WHERE] clause shared by [countChildren] and [listChildren]. *)
Definition child_row (namespaceId dirPath : string) (k : string * string) : bool :=
  let prefix := if String.eqb dirPath "/" then "/" else dirPath +:+ "/" in
  String.eqb k.1 namespaceId
  && like k.2 (prefix +:+ "%")
  && negb (like k.2 (prefix +:+ "%/%"))
  && negb (String.eqb k.2 dirPath).

Definition children (namespaceId dirPath : string) (b : Backend)
  : gmap (string * string) Row :=
  filter (fun kr => child_row namespaceId dirPath kr.1) (vfs_nodes b).

Definition countChildren (namespaceId dirPath : string) : M nat :=
  fun b => (inr (size (children namespaceId dirPath b)), b).

Section Scan.

(** The order in which a statement meets two rows of [vfs_nodes], as a
    comparison of their keys: it is the database's (the place of the
    rows in the table, the plan of the statement). *)
Variable row_order : string * string -> string * string -> Z.

(** The rows of a table as a statement meets them. *)
Definition scan {V} (m : gmap (string * string) V) : list ((string * string) * V) :=
  ordered (fun x y => row_order x.1 y.1) (map_to_list m).

(** The statement has no [ORDER BY]: the rows come as the scan meets
    them. *)
Definition listChildren (namespaceId dirPath : string) : M (list VfsNode) :=
  fun b => (inr (List.map (fun kr => mkNode kr.1.2 (node_type kr.2) (content kr.2))
                          (scan (children namespaceId dirPath b))), b).

End Scan.

(** The content is a [TEXT] parameter: with a NUL in it the statement
    is refused. *)
Definition upsertFile (namespaceId p c : string) : M unit :=
  fun b =>
    if is_text c then
      match vfs_nodes b !! (namespaceId, p) with
      | Some r =>
          (inr tt, set_nodes (insert (namespaceId, p) (mkRow (node_type r) (Some c))) b)
      | None => insert_row namespaceId p (mkRow file (Some c)) b
      end
    else (inl (EDb character_not_in_repertoire), b).

Definition appendFile (namespaceId p c : string) : M unit :=
  fun b =>
    if is_text c then
      match vfs_nodes b !! (namespaceId, p) with
      | Some r =>
          (inr tt,
           set_nodes (insert (namespaceId, p)
                        (mkRow (node_type r)
                               (Some (default "" (content r) +:+ c)))) b)
      | None => insert_row namespaceId p (mkRow file (Some c)) b
      end
    else (inl (EDb character_not_in_repertoire), b).

(** [session_id = $1 AND (path = $2 OR path LIKE $2 || '/%')], the
    [WHERE] clause shared by [deleteNode] and [moveNode]. *)
Definition subtree_row (namespaceId p : string) (k : string * string) : bool :=
  String.eqb k.1 namespaceId
  && (String.eqb k.2 p || like k.2 (p +:+ "/%")).

Definition deleteNode (namespaceId p : string) : M nat :=
  fun b =>
    let hit := filter (fun kr => subtree_row namespaceId p kr.1) (vfs_nodes b) in
    (inr (size hit),
     set_nodes (filter (fun kr => ¬ subtree_row namespaceId p kr.1)) b).

(** The new key of a row rewritten by [moveNode]. *)
Definition moved_key (sourcePath destPath : string) (k : string * string)
  : string * string :=
  (k.1, destPath +:+ substr k.2 (String.length sourcePath + 1)).

(** The [UPDATE] of [moveNode] as a list of (old key, new key, row). *)
Definition move_plan (namespaceId sourcePath destPath : string) (b : Backend)
  : list ((string * string) * (string * string) * Row) :=
  List.map (fun kr => (kr.1, moved_key sourcePath destPath kr.1, kr.2))
           (map_to_list (filter (fun kr => subtree_row namespaceId sourcePath kr.1)
                                (vfs_nodes b))).

(** One row of the [UPDATE]: the unique constraint is checked as the
    row is rewritten, against the table as the rows rewritten before it
    have left it.  A row takes its new path unless another row has that
    path at that moment. *)
Definition rewrite_row (x : (string * string) * (string * string) * Row)
    (nodes : gmap (string * string) Row) : option (gmap (string * string) Row) :=
  if bool_decide (x.1.1 ≠ x.1.2 ∧ is_Some (nodes !! x.1.2)) then None
  else Some (<[x.1.2 := x.2]> (delete x.1.1 nodes)).

Fixpoint rewrite_rows (plan : list ((string * string) * (string * string) * Row))
    (nodes : gmap (string * string) Row) : option (gmap (string * string) Row) :=
  match plan with
  | [] => Some nodes
  | x :: rest =>
      match rewrite_row x nodes with
      | Some nodes' => rewrite_rows rest nodes'
      | None => None
      end
  end.

Section Update.

Variable row_order : string * string -> string * string -> Z.

(** The rows are rewritten in the order the statement meets them; a
    violation leaves the table as the statement found it. *)
Definition moveNode (namespaceId sourcePath destPath : string) : M unit :=
  fun b =>
    let plan := ordered (fun x y => row_order x.1.1 y.1.1)
                        (move_plan namespaceId sourcePath destPath b) in
    match rewrite_rows plan (vfs_nodes b) with
    | Some nodes => (inr tt, set_nodes (fun _ => nodes) b)
    | None => (inl (EDb unique_violation), b)
    end.

End Update.

Section Collation.

(** The order of two [TEXT] values in the collation of the database, as
    a comparison: the schema names none, so it is the one the database
    was created with. *)
Variable collate : string -> string -> Z.

(** [ORDER BY path]. *)
Definition allFilePaths (namespaceId : string) : M (list string) :=
  fun b =>
    (inr (ordered collate
            (List.map (fun kr => kr.1.2)
               (map_to_list
                  (filter (fun kr : (string * string) * Row =>
                             kr.1.1 = namespaceId ∧ node_type kr.2 = file)
                          (vfs_nodes b))))), b).

(** [ORDER BY id]. *)
Definition listStores : M (list string) :=
  fun b =>
    (inr (ordered collate
            (List.map fst
               (map_to_list (filter (fun kv : string * bool => kv.2 = true)
                                    (vfs_sessions b))))), b).

End Collation.

Record GrepMatch := mkMatch {
  match_path : string;
  lineNumber : nat;
  line : string }.

Section Grep.

Variable collate : string -> string -> Z.

(** The regular expressions of PostgreSQL: [regex_match pattern] is
    [None] for a pattern that PostgreSQL refuses, and otherwise the
    test [s ~ pattern]. *)
Variable regex_match : string -> option (string -> bool).

(** The tests of [matched_files] that come before the path filter. *)
Definition content_matches (namespaceId : string) (matches : string -> bool)
    (kr : (string * string) * Row) : bool :=
  String.eqb kr.1.1 namespaceId
  && bool_decide (node_type kr.2 = file)
  && match content kr.2 with
     | Some c => matches c
     | None => false
     end.

(** The [matched_files] of [grepContent]. *)
Definition matched_file (namespaceId : string) (matches : string -> bool)
    (pathFilter : option string) (kr : (string * string) * Row) : bool :=
  content_matches namespaceId matches kr
  && match truthy pathFilter with
     | Some f => like kr.1.2 f
     | None => true
     end.

(** The matching lines of one file, numbered from 1
    ([regexp_split_to_table ... WITH ORDINALITY]). *)
Definition matching_lines (matches : string -> bool) (kr : (string * string) * Row)
  : list GrepMatch :=
  List.filter (fun m => matches (line m))
    (imap (fun i l => mkMatch kr.1.2 (i + 1) l)
          (Js.split "010" (default "" (content kr.2)))).

(** The pattern and the path filter are [TEXT] parameters.  The
    pattern is compiled as the statement is planned, so that a pattern
    PostgreSQL refuses fails the statement whatever the rows.  The
    tests of a row are taken in the order written: the path filter is
    evaluated on the files whose content matches, and the statement
    fails if one of these evaluations raises.  The rows come by
    [ORDER BY f.path, t.ordinality]. *)
Definition grepContent (namespaceId pattern : string) (pathFilter : option string)
  : M (list GrepMatch) :=
  fun b =>
    if negb (is_text pattern
             && match truthy pathFilter with Some f => is_text f | None => true end)
    then (inl (EDb character_not_in_repertoire), b)
    else
      match regex_match pattern with
      | None => (inl (EDb invalid_regular_expression), b)
      | Some matches =>
          if match truthy pathFilter with
             | Some f =>
                 existsb (fun kr : (string * string) * Row => like_raises kr.1.2 f)
                   (map_to_list (filter (fun kr => content_matches namespaceId matches kr)
                                        (vfs_nodes b)))
             | None => false
             end
          then (inl (EDb invalid_escape_sequence), b)
          else
            (inr (flat_map (matching_lines matches)
                    (ordered (fun x y : (string * string) * Row => collate x.1.2 y.1.2)
                       (map_to_list
                          (filter (fun kr => matched_file namespaceId matches pathFilter kr)
                                  (vfs_nodes b))))), b)
      end.

End Grep.

End Storage.

(** ** src/vfs.ts *)

Module Vfs.
Import Js Paths Sql Storage.
Local Open Scope vfs_scope.

Record LsEntry := mkEntry { name : string; type : NodeType }.

(** The three shapes [stat] returns: [{exists: false}],
    [{exists: true, type: "file", size}] and
    [{exists: true, type: "directory", children}]. *)
Record StatResult := mkStat {
  stat_exists : bool;
  stat_type : option NodeType;
  stat_size : option nat;
  stat_children : option nat }.

Definition MAX_GLOB_PATHS : Z := 10000.

(** [validatePath(path)] inside an operation: a [PathError] is thrown
    through it. *)
Definition validated (input : string) : M string :=
  match validatePath (JsString input) with
  | inl e => throw (EPath e)
  | inr p => ret p
  end.

Definition ns (sessionId : string) (store : option string) : M string :=
  resolveNamespace sessionId store.

Definition ensureParents (namespaceId p : string) : M unit :=
  for_each (insertDir namespaceId) (ancestorPaths p).

Definition is_directory (node : option VfsNode) : bool :=
  match node with
  | Some n => bool_decide (nodeType n = directory)
  | None => false
  end.

Definition is_file (node : option VfsNode) : bool :=
  match node with
  | Some n => bool_decide (nodeType n = file)
  | None => false
  end.

Definition stat (sessionId input : string) (store : option string) : M StatResult :=
  p <- validated input ;;
  nsId <- ns sessionId store ;;
  node <- getNode nsId p ;;
  match node with
  | None => ret (mkStat false None None None)
  | Some n =>
      match nodeType n with
      | file =>
          ret (mkStat true (Some file)
                 (Some (String.length (default "" (nodeContent n)))) None)
      | directory =>
          children <- countChildren nsId p ;;
          ret (mkStat true (Some directory) None (Some children))
      end
  end.

Definition read (sessionId input : string) (store : option string) : M string :=
  p <- validated input ;;
  nsId <- ns sessionId store ;;
  node <- getNode nsId p ;;
  match node with
  | None => throw (EVfs ENOENT)
  | Some n =>
      match nodeType n with
      | directory => throw (EVfs EISDIR)
      | file => ret (default "" (nodeContent n))
      end
  end.

(** Returns [created_parents]. *)
Definition write (sessionId input c : string) (store : option string) : M bool :=
  p <- validated input ;;
  if String.eqb p "/" then throw (EVfs EINVAL)
  else
    nsId <- ns sessionId store ;;
    existing <- getNode nsId p ;;
    if is_directory existing then throw (EVfs EISDIR)
    else
      let ancestors := ancestorPaths p in
      let createdParents := (1 <? length ancestors)%nat in
      ensureParents nsId p ;;
      upsertFile nsId p c ;;
      ret createdParents.

Definition append (sessionId input c : string) (store : option string) : M unit :=
  p <- validated input ;;
  if String.eqb p "/" then throw (EVfs EINVAL)
  else
    nsId <- ns sessionId store ;;
    existing <- getNode nsId p ;;
    if is_directory existing then throw (EVfs EISDIR)
    else
      ensureParents nsId p ;;
      appendFile nsId p c.

(** Returns [already_existed]. *)
Definition mkdir (sessionId input : string) (store : option string) : M bool :=
  p <- validated input ;;
  if String.eqb p "/" then ret true
  else
    nsId <- ns sessionId store ;;
    existing <- getNode nsId p ;;
    if is_file existing then throw (EVfs EEXIST)
    else
      let alreadyExisted := is_directory existing in
      ensureParents nsId p ;;
      insertDir nsId p ;;
      ret alreadyExisted.

Definition rm (sessionId input : string) (store : option string) : M nat :=
  p <- validated input ;;
  if String.eqb p "/" then throw (EVfs EINVAL)
  else
    nsId <- ns sessionId store ;;
    node <- getNode nsId p ;;
    match node with
    | None => throw (EVfs ENOENT)
    | Some _ => deleteNode nsId p
    end.

Section External.

(** [a.localeCompare(b)], from the JavaScript runtime. *)
Variable localeCompare : string -> string -> Z.

(** [picomatch(pattern)], the matcher the [picomatch] package compiles
    from a glob pattern, [None] where it throws instead (it does on the
    empty pattern). *)
Variable picomatch : string -> option (string -> bool).

(** [new RegExp(pattern)] does not throw. *)
Variable regexp_compiles : string -> bool.

(** The regular expressions of the database: [None] for a pattern it
    refuses, otherwise the test [s ~ pattern]. *)
Variable regex_match : string -> option (string -> bool).

(** The collation of the database. *)
Variable collate : string -> string -> Z.

(** The order in which a statement meets the rows of [vfs_nodes]. *)
Variable row_order : string * string -> string * string -> Z.

(** The comparator handed to [sort] in [ls]. *)
Definition ls_compare (a b : LsEntry) : Z :=
  if bool_decide (type a = type b) then localeCompare (name a) (name b)
  else if bool_decide (type a = directory) then (-1)%Z else 1%Z.

Definition ls (sessionId input : string) (store : option string) : M (list LsEntry) :=
  p <- validated input ;;
  nsId <- ns sessionId store ;;
  node <- getNode nsId p ;;
  match node with
  | None => throw (EVfs ENOENT)
  | Some n =>
      match nodeType n with
      | file => throw (EVfs ENOTDIR)
      | directory =>
          children <- listChildren row_order nsId p ;;
          ret (sort ls_compare
                 (List.map (fun c => mkEntry (basename (path c)) (nodeType c))
                           children))
      end
  end.

Definition move (sessionId source destination : string) (store : option string)
  : M unit :=
  src <- validated source ;;
  dest <- validated destination ;;
  if String.eqb src "/" then throw (EVfs EINVAL)
  else if String.eqb dest "/" then throw (EVfs EINVAL)
  else if startsWith dest (src +:+ "/") then throw (EVfs EINVAL)
  else
    nsId <- ns sessionId store ;;
    srcNode <- getNode nsId src ;;
    match srcNode with
    | None => throw (EVfs ENOENT)
    | Some _ =>
        destNode <- getNode nsId dest ;;
        match destNode with
        | Some _ => throw (EVfs EEXIST)
        | None =>
            let destParent := parentPath dest in
            (if String.eqb destParent "/" then ret tt
             else ensureParents nsId dest) ;;
            moveNode row_order nsId src dest
        end
    end.

Definition glob (sessionId pattern : string) (store : option string)
  : M (list string) :=
  nsId <- ns sessionId store ;;
  allPaths <- allFilePaths collate nsId ;;
  if (MAX_GLOB_PATHS <? Z.of_nat (length allPaths))%Z then throw (EVfs EINVAL)
  else
    match picomatch pattern with
    | Some isMatch => ret (List.filter isMatch allPaths)
    | None => throw EMatcher
    end.

Definition grep (sessionId pattern : string) (pathFilter store : option string)
  : M (list GrepMatch) :=
  if regexp_compiles pattern then
    nsId <- ns sessionId store ;;
    let sqlPathFilter :=
      match truthy pathFilter with
      | Some f =>
          let escaped := replace_char "_" "\_" (replace_char "%" "\%" f) in
          Some (replace_char "*" "%" (replace_pair "*" "%" escaped))
      | None => None
      end in
    grepContent collate regex_match nsId pattern sqlPathFilter
  else throw (EVfs EINVAL).

(** One call of a method of [VirtualFS] that works in a namespace. *)
Inductive Call :=
| Stat (input : string)
| Read (input : string)
| Write (input c : string)
| Append (input c : string)
| Ls (input : string)
| Mkdir (input : string)
| Rm (input : string)
| Move (source destination : string)
| Glob (pattern : string)
| Grep (pattern : string) (pathFilter : option string).

(** What such a call resolves to. *)
Inductive Reply :=
| RStat (r : StatResult)
| RText (s : string)
| RFlag (f : bool)
| RUnit
| REntries (l : list LsEntry)
| RCount (n : nat)
| RPaths (l : list string)
| RMatches (l : list GrepMatch).

Definition run (call : Call) (sessionId : string) (store : option string) : M Reply :=
  match call with
  | Stat input => r <- stat sessionId input store ;; ret (RStat r)
  | Read input => r <- read sessionId input store ;; ret (RText r)
  | Write input c => r <- write sessionId input c store ;; ret (RFlag r)
  | Append input c => append sessionId input c store ;; ret RUnit
  | Ls input => r <- ls sessionId input store ;; ret (REntries r)
  | Mkdir input => r <- mkdir sessionId input store ;; ret (RFlag r)
  | Rm input => r <- rm sessionId input store ;; ret (RCount r)
  | Move source destination => move sessionId source destination store ;; ret RUnit
  | Glob pattern => r <- glob sessionId pattern store ;; ret (RPaths r)
  | Grep pattern pathFilter =>
      r <- grep sessionId pattern pathFilter store ;; ret (RMatches r)
  end.

Definition listStores : M (list string) := Storage.listStores collate.

End External.

End Vfs.

(** * Vocabulary of the properties *)

Module Spec.
Import Js Paths Sql Storage Vfs.
Local Open Scope vfs_scope.

(** ** Paths *)

(** [c] does not occur in [s]. *)
Definition free_of (c : ascii) (s : string) : Prop := any_char (Ascii.eqb c) s = false.

(** A segment as [normalizePath] keeps it. *)
Definition Seg (s : string) : Prop :=
  s ≠ "" ∧ s ≠ "." ∧ s ≠ ".." ∧ free_of "/" s.

(** The characters [LIKE] gives a meaning to. *)
Definition like_meta (c : ascii) : bool :=
  Ascii.eqb c "%" || Ascii.eqb c "_" || Ascii.eqb c "\".

(** A path without any of them. *)
Definition like_safe (p : string) : Prop := any_char like_meta p = false.

(** [s] without its prefix [p], when it has that prefix. *)
Fixpoint strip_prefix (p s : string) : option string :=
  match p, s with
  | EmptyString, _ => Some s
  | String c p', String d s' => if Ascii.eqb d c then strip_prefix p' s' else None
  | String _ _, EmptyString => None
  end.

(** The order a comparator stands for. *)
Definition cmp_le {X : Type} (cmp : X → X → Z) (x y : X) : Prop := (cmp x y ≤ 0)%Z.

(** ** Backends *)

(** The cache of provisioned namespaces only names namespaces that have
    their row in [vfs_sessions]: nothing in the sources deletes one. *)
Definition wf (b : Backend) : Prop :=
  ∀ id, id ∈ knownNamespaces b → is_Some (vfs_sessions b !! id).

#[global] Instance wf_dec b : Decision (wf b).
Proof.
  change (Decision (set_Forall (fun id => is_Some (vfs_sessions b !! id))
                               (knownNamespaces b))).
  apply _.
Defined.


(** The namespace an operation works in. *)
Definition nsOf (sessionId : string) (store : option string) : string :=
  default sessionId (truthy store).

(** Its [is_persistent] flag, should the operation be the one to
    provision it. *)
Definition flagOf (store : option string) : bool :=
  bool_decide (is_Some (truthy store)).

(** The row of a directory. *)
Definition dirRow : Row := mkRow directory None.

(** The state [ensureSession] and [ensureStore] leave. *)
Definition provision (id : string) (flag : bool) (b : Backend) : Backend :=
  if decide (id ∈ knownNamespaces b) then b
  else
    mkBackend
      (match vfs_sessions b !! id with
       | Some _ => vfs_sessions b
       | None => <[id:=flag]> (vfs_sessions b)
       end)
      (match vfs_nodes b !! (id, "/") with
       | Some _ => vfs_nodes b
       | None => <[(id, "/"):=dirRow]> (vfs_nodes b)
       end)
      ({[id]} ∪ knownNamespaces b).

(** [insertDir] on the table. *)
Definition add_dir (A : string) (m : gmap (string * string) Row) (a : string)
  : gmap (string * string) Row :=
  match m !! (A, a) with
  | Some _ => m
  | None => <[(A, a):=dirRow]> m
  end.

(** [ensureParents] on the table. *)
Definition add_dirs (A : string) (l : list string) (m : gmap (string * string) Row)
  : gmap (string * string) Row :=
  foldl (add_dir A) m l.

(** [upsertFile] on the table: the conflict branch rewrites [content]
    and keeps [node_type]. *)
Definition upsert (A p c : string) (m : gmap (string * string) Row)
  : gmap (string * string) Row :=
  <[(A, p) := mkRow (match m !! (A, p) with
                     | Some r => node_type r
                     | None => file
                     end) (Some c)]> m.

(** [appendFile] on the table. *)
Definition append_row (A p c : string) (m : gmap (string * string) Row)
  : gmap (string * string) Row :=
  <[(A, p) := match m !! (A, p) with
              | Some r => mkRow (node_type r) (Some (default "" (content r) +:+ c))
              | None => mkRow file (Some c)
              end]> m.

(** The state a successful [write] leaves. *)
Definition write_state (A p c : string) (flag : bool) (b : Backend) : Backend :=
  set_nodes (fun m => upsert A p c (add_dirs A (ancestorPaths p) m))
            (provision A flag b).

(** The state a successful [append] leaves. *)
Definition append_state (A p c : string) (flag : bool) (b : Backend) : Backend :=
  set_nodes (fun m => append_row A p c (add_dirs A (ancestorPaths p) m))
            (provision A flag b).

(** The file rows of a namespace. *)
Definition file_rows (A : string) (b : Backend) : gmap (string * string) Row :=
  filter (fun kr : (string * string) * Row => kr.1.1 = A ∧ node_type kr.2 = file)
         (vfs_nodes b).

(** What [allFilePaths] returns. *)
Definition file_paths (collate : string → string → Z) (A : string) (b : Backend)
  : list string :=
  ordered collate (List.map (fun kr => kr.1.2) (map_to_list (file_rows A b))).

(** A comparison that is a total preorder. *)
Definition total_preorder {X : Type} (cmp : X → X → Z) : Prop :=
  (∀ x y, (cmp x y ≤ 0)%Z ∨ (cmp y x ≤ 0)%Z) ∧
  (∀ x y z, (cmp x y ≤ 0)%Z → (cmp y z ≤ 0)%Z → (cmp x z ≤ 0)%Z).

(** The plan of an [UPDATE] of [moveNode] that the unique constraint
    may stop, in some order of the rows at least: two rows come to one
    new path, or a row comes to a path that is not its own and that a
    row of the table has as the statement starts. *)
Definition may_conflict (b : Backend)
    (plan : list ((string * string) * (string * string) * Row)) : bool :=
  bool_decide (¬ NoDup (List.map (fun x => x.1.2) plan))
  || existsb (fun x => negb (bool_decide (x.1.1 = x.1.2))
                       && bool_decide (is_Some (vfs_nodes b !! x.1.2))) plan.

(** The table that [moveNode] leaves when its plan is free of that:
    the rewritten rows under their new paths, and the other rows. *)
Definition moved (A src dest : string) (b : Backend) : Backend :=
  set_nodes (fun nodes =>
    list_to_map (List.map (fun x => (x.1.2, x.2)) (move_plan A src dest b))
    ∪ filter (fun kr => ¬ subtree_row A src kr.1) nodes) b.

(** [k] is the node at [p] or a strict descendant of it, in namespace [A]. *)
Definition in_subtree (A p : string) (k : string * string) : Prop :=
  k.1 = A ∧ (k.2 = p ∨ startsWith k.2 (p +:+ "/") = true).

#[global] Instance in_subtree_dec A p k : Decision (in_subtree A p k).
Proof. unfold in_subtree. apply _. Defined.

(** [k] is an immediate child of the directory [d], in namespace [A]. *)
Definition is_child (A d : string) (k : string * string) : Prop :=
  k.1 = A ∧ k.2 ≠ d ∧
  ∃ name, k.2 = (if String.eqb d "/" then "/" else d +:+ "/") +:+ name
          ∧ free_of "/" name.

(** ** Namespaces *)

(** What a backend holds for one namespace: its session row, its
    nodes and its entry in the cache. *)
Definition restrict (A : string) (b : Backend) : Backend :=
  mkBackend (filter (fun kv : string * bool => kv.1 = A) (vfs_sessions b))
            (filter (fun kr : (string * string) * Row => kr.1.1 = A) (vfs_nodes b))
            (filter (fun x => x = A) (knownNamespaces b)).




(** ** Kinds of nodes *)

(** Every row of [b] is still there in [b'], with its kind. *)
Definition keeps_rows (b b' : Backend) : Prop :=
  ∀ k r, vfs_nodes b !! k = Some r →
         ∃ r', vfs_nodes b' !! k = Some r' ∧ node_type r' = node_type r.

(** No path holds a row of one kind in [b] and of the other in [b']. *)
Definition kind_stable (b b' : Backend) : Prop :=
  ∀ k r r', vfs_nodes b !! k = Some r → vfs_nodes b' !! k = Some r' →
            node_type r' = node_type r.

(** A computation only adds rows and rewrites contents. *)
Definition Grows {X} (m : M X) : Prop := ∀ b, keeps_rows b (snd (m b)).

(** A computation changes the kind of no row in place. *)
Definition Stable {X} (m : M X) : Prop := ∀ b, kind_stable b (snd (m b)).

(** ** Values and states used as examples *)

(** A [localeCompare] and a collation for the examples: the order of
    the code units. *)
Definition by_code_unit (a b : string) : Z :=
  match String.compare a b with Lt => (-1)%Z | Eq => 0%Z | Gt => 1%Z end.

(** An order of rows for the examples: that of their keys, namespace
    first. *)
Definition by_key (k1 k2 : string * string) : Z :=
  match String.compare k1.1 k2.1 with
  | Lt => (-1)%Z
  | Gt => 1%Z
  | Eq => by_code_unit k1.2 k2.2
  end.

(** A matcher for the examples: it takes a pattern that is not empty
    for a prefix. *)
Definition by_prefix (pattern : string) : option (string → bool) :=
  if String.eqb pattern "" then None else Some (fun p => startsWith p pattern).

(** A regular-expression engine for the examples: it takes a pattern
    without parenthesis for a string to find. *)
Fixpoint occurs (pattern s : string) : bool :=
  startsWith s pattern
  || match s with EmptyString => false | String _ s' => occurs pattern s' end.

Definition by_occurrence (pattern : string) : option (string → bool) :=
  if any_char (fun c => Ascii.eqb c "(") pattern then None else Some (occurs pattern).

(** A content with a NUL code unit. *)
Definition nul_content : string := String "a" (String zero "b").

(** The path of the unit test "throws on paths exceeding max depth":
    51 segments [d0] ... [d50]. *)
Definition depth51 : string :=
  "/d0/d1/d2/d3/d4/d5/d6/d7/d8/d9/d10/d11/d12/d13/d14/d15/d16/d17/d18/d19/d20/d21/d22/d23/d24/d25/d26/d27/d28/d29/d30/d31/d32/d33/d34/d35/d36/d37/d38/d39/d40/d41/d42/d43/d44/d45/d46/d47/d48/d49/d50".

(** The namespace ["s"] after a first [write] of [/deep/nested/file.txt]. *)
Definition after_first_write : Backend :=
  snd (write "s" "/deep/nested/file.txt" "c" None empty_backend).

(** A namespace ["s"] holding the file [/a]. *)
Definition file_at_a : Backend :=
  snd (write "s" "/a" "x" None empty_backend).

(** A namespace with the directory [/my_dir] holding [f.txt] and the
    directory [/my-dir] holding [g.txt]. *)
Definition two_dirs : Backend :=
  snd ((write "s" "/my_dir/f.txt" "f" None ;;
        write "s" "/my-dir/g.txt" "g" None) empty_backend).

(** A namespace with the empty directory [/my_dir] and the directory
    [/my-dir] holding [g.txt]. *)
Definition empty_and_full : Backend :=
  snd ((mkdir "s" "/my_dir" None ;;
        write "s" "/my-dir/g.txt" "g" None) empty_backend).

(** A namespace with the directory [/a\b] (a backslash in the name)
    holding [c.txt]. *)
Definition backslash_dir : Backend :=
  snd (write "s" "/a\b/c.txt" "c" None empty_backend).

End Spec.

(** * Vocabulary of the further properties *)

Module Terms.
Import Js Paths Sql Storage Vfs Spec.
Local Open Scope vfs_scope.

(** ** Paths *)

(** The code units of the segments of a list, each counted with one
    separator. *)
Definition total_length (l : list string) : nat :=
  foldr (fun s n => String.length s + 1 + n) 0 l.

(** What may follow a path in the path of a node at or under it:
    nothing, or a separator and more. *)
Definition tail_of_path (rest : string) : Prop :=
  rest = "" ∨ ∃ r, rest = String "/" r.

(** ** Computations *)

(** A computation leaves the row under [k], when there is one. *)
Definition Keeps {X} (k : string * string) (m : M X) : Prop :=
  ∀ b r, vfs_nodes b !! k = Some r → vfs_nodes (snd (m b)) !! k = Some r.

(** A computation run once the namespace [A] has its session row: the
    errors it raises satisfy [P], and it leaves [vfs_sessions] and the
    cache of namespaces as they are. *)
Definition Inner {X} (A : string) (P : Error → Prop) (m : M X) : Prop :=
  ∀ b, is_Some (vfs_sessions b !! A) →
       (∀ e, fst (m b) = inl e → P e) ∧
       vfs_sessions (snd (m b)) = vfs_sessions b ∧
       knownNamespaces (snd (m b)) = knownNamespaces b.

(** A whole operation on the namespace [A]: the errors it raises
    satisfy [P]; and either it leaves the backend as it is, or it does
    what it does on the backend with [A] provisioned, and leaves the
    sessions and the cache of that backend. *)
Definition Whole {X} (A : string) (flag : bool) (P : Error → Prop) (m : M X) : Prop :=
  ∀ b, wf b →
       (∀ e, fst (m b) = inl e → P e) ∧
       (snd (m b) = b ∨
        (m b = m (provision A flag b) ∧
         vfs_sessions (snd (m b)) = vfs_sessions (provision A flag b) ∧
         knownNamespaces (snd (m b)) = knownNamespaces (provision A flag b))).

(** ** Errors *)

(** The codes of [VfsError] a call can fail with. *)
Definition codes (call : Call) : list Code :=
  match call with
  | Stat _ => []
  | Read _ => [ENOENT; EISDIR]
  | Write _ _ | Append _ _ => [EINVAL; EISDIR]
  | Ls _ => [ENOENT; ENOTDIR]
  | Mkdir _ => [EEXIST]
  | Rm _ => [EINVAL; ENOENT]
  | Move _ _ => [EINVAL; ENOENT; EEXIST]
  | Glob _ | Grep _ _ => [EINVAL]
  end.

(** The calls that validate a path. *)
Definition takes_path (call : Call) : bool :=
  match call with
  | Glob _ | Grep _ _ => false
  | _ => true
  end.

(** The errors a call can fail with: a [PathError] where it validates
    a path, the codes above, the violation of the unique constraint
    for [move], the refusal of a NUL where a content, a pattern or a
    path filter is handed over, the two refusals of a pattern for
    [grep], and what [picomatch] throws for [glob]. *)
Definition may_raise (call : Call) (e : Error) : Prop :=
  match e with
  | EPath _ => takes_path call = true
  | EVfs c => In c (codes call)
  | EDb unique_violation => match call with Move _ _ => True | _ => False end
  | EDb foreign_key_violation => False
  | EDb character_not_in_repertoire =>
      match call with Write _ _ | Append _ _ | Grep _ _ => True | _ => False end
  | EDb invalid_regular_expression | EDb invalid_escape_sequence =>
      match call with Grep _ _ => True | _ => False end
  | EMatcher => match call with Glob _ => True | _ => False end
  end.

(** The calls whose tools are registered as read-only. *)
Definition reads_only (call : Call) : bool :=
  match call with
  | Stat _ | Read _ | Ls _ | Glob _ | Grep _ _ => true
  | _ => false
  end.

(** ** Backends *)





Section Reach.
Context (localeCompare : string → string → Z)
        (picomatch : string → option (string → bool))
        (regexp_compiles : string → bool)
        (regex_match : string → option (string → bool))
        (collate : string → string → Z).


End Reach.

(** ** States *)

(** The state a successful [mkdir] leaves. *)
Definition mkdir_state (A p : string) (flag : bool) (b : Backend) : Backend :=
  set_nodes (fun m => add_dir A (add_dirs A (ancestorPaths p) m) p)
            (provision A flag b).

(** The content [read] finds under a path: the empty string where
    there is no row, or no content. *)
Definition content_at (A p : string) (b : Backend) : string :=
  match vfs_nodes b !! (A, p) with
  | Some r => default "" (content r)
  | None => ""
  end.

(** The backend on which [move] runs [moveNode]: the namespace is
    provisioned, and the ancestors of the destination are there unless
    its parent is the root. *)
Definition move_base (A dest : string) (flag : bool) (b : Backend) : Backend :=
  if String.eqb (parentPath dest) "/" then provision A flag b
  else set_nodes (add_dirs A (ancestorPaths dest)) (provision A flag b).

(** The stores: the ids of the sessions marked persistent, as one list
    for one set of stores (it takes them in the order of their code
    units; the order in which [listStores] returns them is that of the
    collation). *)
Definition store_names (b : Backend) : list string :=
  merge_sort String.le
    (List.map fst (map_to_list (filter (fun kv : string * bool => kv.2 = true)
                                       (vfs_sessions b)))).

(** ** Search *)

(** The two escapes that [grep] applies to a path filter. *)
Definition escaped (f : string) : string :=
  replace_char "_" "\_" (replace_char "%" "\%" f).

(** Its two replacements of the wildcards. *)
Definition starred (g : string) : string :=
  replace_char "*" "%" (replace_pair "*" "%" g).

(** The [LIKE] pattern that [grep] makes of a path filter. *)
Definition sql_path_filter (f : string) : string := starred (escaped f).

(** A path filter read as a wildcard pattern: [*] stands for any run
    of code units, the separator included, and every other code unit
    for itself. *)
Fixpoint star_match (f : string) : string → bool :=
  match f with
  | EmptyString =>
      fun s => match s with EmptyString => true | String _ _ => false end
  | String c f' =>
      if Ascii.eqb c "*" then
        fix any (s : string) : bool :=
          star_match f' s
          || match s with EmptyString => false | String _ s' => any s' end
      else
        fun s => match s with
                 | EmptyString => false
                 | String d s' => Ascii.eqb d c && star_match f' s'
                 end
  end.

(** The order of the matches of [grep]: by path under the collation,
    and by line within a file. *)
Definition match_before (collate : string → string → Z) (m1 m2 : GrepMatch) : Prop :=
  (collate (match_path m1) (match_path m2) ≤ 0)%Z ∧
  (match_path m1 = match_path m2 → lineNumber m1 < lineNumber m2).

(** A suffix of a string. *)
Definition suffix_of (v t : string) : Prop := ∃ u, t = u +:+ v.

(** What the matcher of [LIKE] answers, against [like_pat]: after a
    [%] it looks for a place of the text where the rest of the pattern
    matches, and it gives up when no later place can do. *)
Definition answers (pat : string) (star : bool) (t : string) : Prop :=
  match match_text pat star t with
  | LIKE_TRUE =>
      if star then ∃ v, suffix_of v t ∧ like_pat pat v = true else like_pat pat t = true
  | LIKE_FALSE =>
      if star then ∀ v, suffix_of v t → like_pat pat v = false else like_pat pat t = false
  | LIKE_ABORT => ∀ v, suffix_of v t → like_pat pat v = false
  | LIKE_ERROR => True
  end.

(** A [LIKE] pattern in which every backslash has a character after it
    to escape. *)
Fixpoint escapes_closed (pat : string) : bool :=
  match pat with
  | EmptyString => true
  | String c pat' =>
      if Ascii.eqb c "\" then
        match pat' with
        | EmptyString => false
        | String _ pat'' => escapes_closed pat''
        end
      else escapes_closed pat'
  end.

End Terms.

(** * Properties *)

(** ** The unit tests of the path utilities, on the model *)

Module PathsExamples.
Import Js Paths.

Example normalize_complex : normalizePath "/a/b/../c/./d/../e" = "/a/c/e".
Proof. reflexivity. Qed.

Example normalize_above_root : normalizePath "/a/../../b" = "/b".
Proof. reflexivity. Qed.

Example normalize_relative : normalizePath "a/b" = "/a/b".
Proof. reflexivity. Qed.

Example parent_nested : parentPath "/a/b/c" = "/a/b".
Proof. reflexivity. Qed.

Example parent_top : parentPath "/a" = "/".
Proof. reflexivity. Qed.

Example basename_nested : basename "/a/b/c.ts" = "c.ts".
Proof. reflexivity. Qed.

Example ancestors_deep : ancestorPaths "/a/b/c" = ["/"; "/a"; "/a/b"].
Proof. reflexivity. Qed.

Example ancestors_root : ancestorPaths "/" = [].
Proof. reflexivity. Qed.

End PathsExamples.

(** ** The integration tests of the repository, run on the model from the
    empty backend *)

Module VfsExamples.
Import Js Paths Sql Storage Vfs Spec.
Local Open Scope vfs_scope.

Example writes_and_reads_back :
  fst ((write "s" "/hello.txt" "Hello, world!" None ;;
        read "s" "/hello.txt" None) empty_backend) = inr "Hello, world!".
Proof. vm_compute. reflexivity. Qed.

Example overwrites :
  fst ((write "s" "/overwrite.txt" "v1" None ;;
        write "s" "/overwrite.txt" "v2" None ;;
        read "s" "/overwrite.txt" None) empty_backend) = inr "v2".
Proof. vm_compute. reflexivity. Qed.

Example creates_parents :
  fst ((created <- write "s" "/deep/nested/file.txt" "content" None ;;
        entries <- ls by_code_unit by_key "s" "/deep" None ;;
        ret (created, entries)) empty_backend)
  = inr (true, [mkEntry "nested" directory]).
Proof. vm_compute. reflexivity. Qed.

Example root_level_file :
  fst (write "s" "/root-file.txt" "content" None empty_backend) = inr false.
Proof. vm_compute. reflexivity. Qed.

Example read_missing :
  fst (read "s" "/nope.txt" None empty_backend) = inl (EVfs ENOENT).
Proof. vm_compute. reflexivity. Qed.

Example read_directory :
  fst ((mkdir "s" "/adir" None ;; read "s" "/adir" None) empty_backend)
  = inl (EVfs EISDIR).
Proof. vm_compute. reflexivity. Qed.

Example write_on_directory :
  fst ((mkdir "s" "/writedir" None ;;
        write "s" "/writedir" "content" None) empty_backend) = inl (EVfs EISDIR).
Proof. vm_compute. reflexivity. Qed.

Example write_on_root :
  fst (write "s" "/" "content" None empty_backend) = inl (EVfs EINVAL).
Proof. vm_compute. reflexivity. Qed.

Example appends :
  fst ((write "s" "/log.txt" "line1;" None ;;
        append "s" "/log.txt" "line2;" None ;;
        append "s" "/log.txt" "line3;" None ;;
        read "s" "/log.txt" None) empty_backend) = inr "line1;line2;line3;".
Proof. vm_compute. reflexivity. Qed.

Example stat_missing :
  fst (stat "s" "/nothing-here" None empty_backend)
  = inr (mkStat false None None None).
Proof. vm_compute. reflexivity. Qed.

Example stat_file :
  fst ((write "s" "/file.txt" "hello" None ;;
        stat "s" "/file.txt" None) empty_backend)
  = inr (mkStat true (Some file) (Some 5) None).
Proof. vm_compute. reflexivity. Qed.

Example stat_directory :
  fst ((write "s" "/dir/a.txt" "a" None ;;
        write "s" "/dir/b.txt" "b" None ;;
        mkdir "s" "/dir/sub" None ;;
        stat "s" "/dir" None) empty_backend)
  = inr (mkStat true (Some directory) None (Some 3)).
Proof. vm_compute. reflexivity. Qed.

Example ls_directories_first :
  fst ((write "s" "/src/index.ts" "code" None ;;
        write "s" "/src/util.ts" "util" None ;;
        mkdir "s" "/src/lib" None ;;
        ls by_code_unit by_key "s" "/src" None) empty_backend)
  = inr [mkEntry "lib" directory; mkEntry "index.ts" file; mkEntry "util.ts" file].
Proof. vm_compute. reflexivity. Qed.

Example ls_of_a_file :
  fst ((write "s" "/afile.txt" "content" None ;;
        ls by_code_unit by_key "s" "/afile.txt" None) empty_backend) = inl (EVfs ENOTDIR).
Proof. vm_compute. reflexivity. Qed.

Example mkdir_twice :
  fst ((first <- mkdir "s" "/idem" None ;;
        second <- mkdir "s" "/idem" None ;;
        ret (first, second)) empty_backend) = inr (false, true).
Proof. vm_compute. reflexivity. Qed.

Example mkdir_on_file :
  fst ((write "s" "/file-here" "content" None ;;
        mkdir "s" "/file-here" None) empty_backend) = inl (EVfs EEXIST).
Proof. vm_compute. reflexivity. Qed.

Example rm_recursive :
  fst ((write "s" "/dir/a.txt" "a" None ;;
        write "s" "/dir/b.txt" "b" None ;;
        write "s" "/dir/sub/c.txt" "c" None ;;
        rm "s" "/dir" None) empty_backend) = inr 5.
Proof. vm_compute. reflexivity. Qed.

Example rm_missing :
  fst (rm "s" "/ghost" None empty_backend) = inl (EVfs ENOENT).
Proof. vm_compute. reflexivity. Qed.

Example rm_root :
  fst (rm "s" "/" None empty_backend) = inl (EVfs EINVAL).
Proof. vm_compute. reflexivity. Qed.

Example move_directory :
  fst ((write "s" "/movedir/a.txt" "a" None ;;
        write "s" "/movedir/sub/b.txt" "b" None ;;
        move by_key "s" "/movedir" "/moved" None ;;
        a <- read "s" "/moved/a.txt" None ;;
        b <- read "s" "/moved/sub/b.txt" None ;;
        ret (a, b)) empty_backend) = inr ("a", "b")
  ∧ fst ((write "s" "/movedir/a.txt" "a" None ;;
          move by_key "s" "/movedir" "/moved" None ;;
          ls by_code_unit by_key "s" "/movedir" None) empty_backend) = inl (EVfs ENOENT).
Proof. split; vm_compute; reflexivity. Qed.

Example move_creates_parents :
  fst ((write "s" "/src2/file.txt" "data" None ;;
        move by_key "s" "/src2/file.txt" "/deep/nested/dir/file.txt" None ;;
        read "s" "/deep/nested/dir/file.txt" None) empty_backend) = inr "data".
Proof. vm_compute. reflexivity. Qed.

Example move_into_self :
  fst ((mkdir "s" "/selfmove" None ;;
        move by_key "s" "/selfmove" "/selfmove/inside" None) empty_backend)
  = inl (EVfs EINVAL).
Proof. vm_compute. reflexivity. Qed.

Example move_on_existing :
  fst ((write "s" "/exists-src.txt" "src" None ;;
        write "s" "/exists-dest.txt" "dest" None ;;
        move by_key "s" "/exists-src.txt" "/exists-dest.txt" None) empty_backend)
  = inl (EVfs EEXIST).
Proof. vm_compute. reflexivity. Qed.

Example store_shared_between_sessions :
  fst ((write "writer-session" "/notes/context.md" "shared data" (Some "shared-memory") ;;
        read "reader-session" "/notes/context.md" (Some "shared-memory"))
         empty_backend) = inr "shared data".
Proof. vm_compute. reflexivity. Qed.

Example list_of_stores :
  fst ((write "any-session" "/test.txt" "data" (Some "list-test-store") ;;
        write "any-session" "/test.txt" "data" None ;;
        listStores by_code_unit) empty_backend) = inr ["list-test-store"].
Proof. vm_compute. reflexivity. Qed.

End VfsExamples.

(** ** Strings, normal forms of paths and their ancestors *)

Module PathFacts.
Import Js Paths Sql Storage Vfs Spec.

Lemma string_app_cons c s t : String c s +:+ t = String c (s +:+ t).
Proof. reflexivity. Qed.

Lemma string_app_nil t : "" +:+ t = t.
Proof. reflexivity. Qed.

Lemma string_length_app s t : String.length (s +:+ t) = String.length s + String.length t.
Proof. induction s as [|c s IH]; [done|]. rewrite string_app_cons. simpl. by rewrite IH. Qed.

Lemma any_char_app P s t : any_char P (s +:+ t) = any_char P s || any_char P t.
Proof.
  induction s as [|c s IH]; [done|].
  rewrite string_app_cons. simpl. by rewrite IH, orb_assoc.
Qed.

Lemma split_nonempty sep s : split sep s ≠ [].
Proof. induction s as [|c s IH]; simpl; [done|]. destruct (Ascii.eqb c sep); [done|]. by destruct (split sep s). Qed.

Lemma split_free sep s : Forall (free_of sep) (split sep s).
Proof.
  induction s as [|c s IH]; simpl.
  - by constructor.
  - destruct (Ascii.eqb c sep) eqn:E.
    + by constructor.
    + destruct (split sep s) as [|h t] eqn:Es; [by apply split_nonempty in Es|].
      inversion IH; subst. constructor; [|done].
      unfold free_of in *. simpl. rewrite Ascii.eqb_sym, E. done.
Qed.

Lemma split_of_free sep s : free_of sep s → split sep s = [s].
Proof.
  unfold free_of. induction s as [|c s IH]; simpl; [done|].
  intros [Hc Hs]%orb_false_elim. rewrite Ascii.eqb_sym, Hc, IH; done.
Qed.

Lemma split_app_sep sep s t :
  free_of sep s → split sep (s +:+ String sep t) = s :: split sep t.
Proof.
  unfold free_of. induction s as [|c s IH]; intros H.
  - rewrite string_app_nil. simpl. by rewrite Ascii.eqb_refl.
  - simpl in H. apply orb_false_elim in H as [Hc Hs].
    rewrite string_app_cons. simpl. rewrite Ascii.eqb_sym, Hc, IH; done.
Qed.

Lemma split_join sep l :
  Forall (free_of sep) l → l ≠ [] → split sep (join (String sep "") l) = l.
Proof.
  induction 1 as [|x l Hx Hl IH]; [done|]. intros _.
  destruct l as [|y l].
  - simpl. by apply split_of_free.
  - change (join (String sep "") (x :: y :: l))
      with (x +:+ String sep (join (String sep "") (y :: l))).
    rewrite split_app_sep by done. by rewrite IH.
Qed.

Lemma Forall_removelast {A} (P : A → Prop) l : Forall P l → Forall P (removelast l).
Proof.
  induction 1 as [|x l Hx Hl IH]; simpl; [constructor|].
  destruct l; [constructor|]. by constructor.
Qed.

Lemma resolve_Seg segs acc :
  Forall (free_of "/") segs → Forall Seg acc → Forall Seg (resolve segs acc).
Proof.
  intros Hs. revert acc. induction Hs as [|x segs Hx Hs IH]; intros acc Hacc; simpl; [done|].
  destruct (String.eqb_spec x ""); simpl; [by apply IH|].
  destruct (String.eqb_spec x "."); simpl; [by apply IH|].
  destruct (String.eqb_spec x "..").
  - apply IH. by apply Forall_removelast.
  - apply IH. apply Forall_app; split; [done|]. by repeat constructor.
Qed.

Lemma resolve_of_Seg l acc : Forall Seg l → resolve l acc = acc ++ l.
Proof.
  intros Hl. revert acc. induction Hl as [|x l (H1 & H2 & H3 & _) Hl IH]; intros acc; simpl.
  - by rewrite app_nil_r.
  - apply String.eqb_neq in H1, H2, H3. rewrite H1, H2, H3. simpl.
    by rewrite IH, <- app_assoc.
Qed.

Lemma normalizePath_shape x :
  ∃ l, Forall Seg l ∧ normalizePath x = "/" +:+ join "/" l.
Proof.
  unfold normalizePath. destruct (String.eqb x "").
  - by exists [].
  - eexists; split; [|done]. apply resolve_Seg; [apply split_free | constructor].
Qed.

Lemma join_cons sep x y l : join sep (x :: y :: l) = x +:+ sep +:+ join sep (y :: l).
Proof. reflexivity. Qed.

Lemma startsWith_cons c s : startsWith (String c s) (String c "") = true.
Proof.
  unfold startsWith. simpl. destruct (ascii_dec c c); [|done]. by destruct s.
Qed.

Lemma normalizePath_join l :
  Forall Seg l → normalizePath ("/" +:+ join "/" l) = "/" +:+ join "/" l.
Proof.
  intros Hl. unfold normalizePath.
  change (String.eqb ("/" +:+ join "/" l) "") with false.
  change ("/" +:+ join "/" l) with (String "/" (join "/" l)).
  rewrite startsWith_cons.
  change (split "/" (String "/" (join "/" l))) with ("" :: split "/" (join "/" l)).
  change (resolve ("" :: ?s) []) with (resolve s []).
  destruct l as [|x l]; [done|].
  rewrite split_join; [| |done].
  - by rewrite resolve_of_Seg.
  - eapply Forall_impl; [done|]. by intros ? (_ & _ & _ & ?).
Qed.

Lemma normalizePath_idem x : normalizePath (normalizePath x) = normalizePath x.
Proof.
  destruct (normalizePath_shape x) as (l & Hl & ->). by apply normalizePath_join.
Qed.

Lemma validatePath_inr s p :
  validatePath (JsString s) = inr p →
  p = normalizePath s ∧ String.length s ≤ MAX_PATH_LENGTH ∧ has_control s = false.
Proof.
  unfold validatePath.
  destruct (Nat.ltb_spec MAX_PATH_LENGTH (String.length s)); [done|].
  destruct (includes_nul s); [done|].
  destruct (has_control s); [done|].
  intros [= <-]. split_and!; [done|lia|done].
Qed.

Lemma includes_nul_control s : includes_nul s = true → has_control s = true.
Proof.
  unfold includes_nul, has_control. induction s as [|c s IH]; simpl; [done|].
  intros [Hc|Hs]%orb_prop.
  - apply Ascii.eqb_eq in Hc as ->. done.
  - rewrite IH by done. apply orb_true_r.
Qed.

(** What [validatePath] rejects, as the code has it. *)
Lemma validatePath_rejects v :
  (∃ e, validatePath v = inl e) ↔
  match v with
  | JsNotString => True
  | JsString s => MAX_PATH_LENGTH < String.length s ∨ has_control s = true
  end.
Proof.
  destruct v as [s|]; unfold validatePath; [|split; eauto].
  destruct (Nat.ltb_spec MAX_PATH_LENGTH (String.length s)).
  { split; eauto. }
  destruct (includes_nul s) eqn:Hn.
  { split; eauto using includes_nul_control. }
  destruct (has_control s).
  { split; eauto. }
  split; [by intros [? [=]]|]. intros [?|?]; [lia|done].
Qed.

(** Whatever its depth, a string of at most 4096 code units, none of
    them below 0x20, is accepted and normalized. *)
Lemma validatePath_accepts s :
  String.length s ≤ MAX_PATH_LENGTH → has_control s = false →
  validatePath (JsString s) = inr (normalizePath s).
Proof.
  intros Hlen Hc. unfold validatePath.
  destruct (Nat.ltb_spec MAX_PATH_LENGTH (String.length s)); [lia|].
  destruct (includes_nul s) eqn:Hn.
  { apply includes_nul_control in Hn. congruence. }
  by rewrite Hc.
Qed.

Lemma validated_shape s p :
  validatePath (JsString s) = inr p →
  ∃ l, Forall Seg l ∧ p = "/" +:+ join "/" l.
Proof.
  intros [-> _]%validatePath_inr. apply normalizePath_shape.
Qed.

Lemma Seg_nonempty_length x : Seg x → 0 < String.length x.
Proof. intros [H _]. destruct x; [done|simpl; lia]. Qed.

Lemma join_take_shorter l k :
  Forall Seg l → k < length l →
  String.length (join "/" (firstn k l)) < String.length (join "/" l).
Proof.
  intros Hl. revert k. induction Hl as [|x l Hx Hl IH]; intros k Hk; simpl in Hk; [lia|].
  apply Seg_nonempty_length in Hx.
  destruct k as [|k].
  - change (String.length (join "/" (firstn 0 (x :: l)))) with 0.
    destruct l; [done|]. rewrite join_cons, !string_length_app. lia.
  - destruct l as [|y l]; [simpl in Hk; lia|].
    specialize (IH k ltac:(simpl in *; lia)).
    rewrite join_cons, !string_length_app.
    destruct k as [|k].
    + change (join "/" (firstn 1 (x :: y :: l))) with x. lia.
    + change (firstn (S (S k)) (x :: y :: l)) with (x :: y :: firstn k l).
      rewrite join_cons, !string_length_app.
      change (y :: firstn k l) with (firstn (S k) (y :: l)). lia.
Qed.

Lemma filter_truthy_Seg l : Forall Seg l → filter_truthy l = l.
Proof.
  induction 1 as [|x l (Hx & _) Hl IH]; [done|].
  unfold filter_truthy in *. simpl. apply String.eqb_neq in Hx. by rewrite Hx, IH.
Qed.

Lemma ancestorPaths_join l :
  Forall Seg l →
  ancestorPaths ("/" +:+ join "/" l) =
  match l with
  | [] => []
  | _ => "/" :: List.map (fun i => "/" +:+ join "/" (firstn (i + 1) l))
                         (seq 0 (length l - 1))
  end.
Proof.
  intros Hl. unfold ancestorPaths. rewrite normalizePath_join by done.
  destruct l as [|x l]; [done|].
  assert (String.eqb ("/" +:+ join "/" (x :: l)) "/" = false) as ->.
  { apply String.eqb_neq. intros H%(f_equal String.length).
    inversion Hl as [|?? Hx%Seg_nonempty_length _]; subst.
    rewrite string_length_app in H. change (String.length "/") with 1 in H.
    destruct l as [|y l]; [change (join "/" [x]) with x in H; lia|].
    rewrite join_cons, string_length_app in H. lia. }
  change ("/" +:+ join "/" (x :: l)) with (String "/" (join "/" (x :: l))).
  change (split "/" (String "/" ?s)) with ("" :: split "/" s).
  rewrite split_join; [| |done].
  - change (filter_truthy ("" :: ?s)) with (filter_truthy s).
    by rewrite filter_truthy_Seg.
  - eapply Forall_impl; [done|]. by intros ? (_ & _ & _ & ?).
Qed.

Lemma ancestor_shorter l a :
  Forall Seg l → a ∈ ancestorPaths ("/" +:+ join "/" l) →
  String.length a < String.length ("/" +:+ join "/" l).
Proof.
  intros Hl. rewrite ancestorPaths_join by done.
  destruct l as [|x l]; [by intros ?%elem_of_nil|].
  intros [->|Ha]%elem_of_cons.
  - rewrite string_length_app. change (String.length "/") with 1.
    inversion Hl as [|?? Hx%Seg_nonempty_length _]; subst.
    destruct l as [|y l]; [change (join "/" [x]) with x; lia|].
    rewrite join_cons, string_length_app. lia.
  - apply list_elem_of_In, in_map_iff in Ha as (i & <- & Hi%in_seq).
    rewrite !string_length_app. apply Nat.add_lt_mono_l.
    apply join_take_shorter; [done|]. simpl in *. lia.
Qed.

(** The ancestors of a validated path are proper: none is the path. *)
Lemma ancestor_proper s p a :
  validatePath (JsString s) = inr p → a ∈ ancestorPaths p → a ≠ p.
Proof.
  intros (l & Hl & ->)%validated_shape Ha ->.
  apply ancestor_shorter in Ha; [lia|done].
Qed.

Lemma string_app_assoc s t u : (s +:+ t) +:+ u = s +:+ (t +:+ u).
Proof. induction s as [|c s IH]; [done|]. by rewrite !string_app_cons, IH. Qed.

Lemma string_app_nil_r s : s +:+ "" = s.
Proof. induction s as [|c s IH]; [done|]. by rewrite string_app_cons, IH. Qed.

Lemma substring_all s : substring 0 (String.length s) s = s.
Proof. induction s as [|c s IH]; simpl; [done|]. by rewrite IH. Qed.

Lemma substring_app_r a s :
  substring (String.length a) (String.length s) (a +:+ s) = s.
Proof.
  induction a as [|c a IH]; [apply substring_all|].
  rewrite string_app_cons. simpl. apply IH.
Qed.

End PathFacts.

(** ** [LIKE] on paths that hold none of its metacharacters *)

Module LikeFacts.
Import Js Paths Sql Storage Vfs Spec Terms PathFacts.

Lemma like_pat_cons_plain c pat s :
  like_meta c = false →
  like_pat (String c pat) s
  = match s with
    | EmptyString => false
    | String d s' => Ascii.eqb d c && like_pat pat s'
    end.
Proof.
  unfold like_meta. intros H.
  apply orb_false_elim in H as [H H3]. apply orb_false_elim in H as [H1 H2].
  simpl. by rewrite H1, H2, H3.
Qed.

Lemma like_pat_safe_app p t s :
  like_safe p →
  like_pat (p +:+ t) s
  = match strip_prefix p s with
    | Some rest => like_pat t rest
    | None => false
    end.
Proof.
  unfold like_safe. revert s. induction p as [|c p IH]; intros s H; [done|].
  simpl in H. apply orb_false_elim in H as [Hc Hp].
  rewrite string_app_cons, like_pat_cons_plain by done.
  destruct s as [|d s]; simpl; [done|].
  destruct (Ascii.eqb d c); simpl; [by apply IH|done].
Qed.

Lemma like_pat_any s : like_pat "%" s = true.
Proof.
  induction s as [|d s IH]; [done|].
  change (like_pat "%" (String d s)) with (like_pat "" (String d s) || like_pat "%" s).
  by rewrite IH, orb_true_r.
Qed.

Lemma like_pat_any_slash_any s : like_pat "%/%" s = any_char (Ascii.eqb "/") s.
Proof.
  induction s as [|d s IH]; [done|].
  change (like_pat "%/%" (String d s))
    with (like_pat "/%" (String d s) || like_pat "%/%" s).
  rewrite IH. simpl. f_equal. by rewrite like_pat_any, andb_true_r, Ascii.eqb_sym.
Qed.

Lemma strip_prefix_startsWith p s :
  startsWith s p = match strip_prefix p s with Some _ => true | None => false end.
Proof.
  unfold startsWith. revert s. induction p as [|c p IH]; intros s; simpl.
  - by destruct s.
  - destruct s as [|d s]; [done|]. simpl.
    destruct (ascii_dec c d) as [->|Hne].
    + by rewrite Ascii.eqb_refl.
    + apply not_eq_sym, Ascii.eqb_neq in Hne. by rewrite Hne.
Qed.

Lemma strip_prefix_Some p s rest : strip_prefix p s = Some rest ↔ s = p +:+ rest.
Proof.
  revert s. induction p as [|c p IH]; intros s; simpl.
  - rewrite string_app_nil. split; congruence.
  - destruct s as [|d s]; [done|]. rewrite string_app_cons.
    destruct (Ascii.eqb_spec d c) as [->|Hne].
    + rewrite IH. split; congruence.
    + split; congruence.
Qed.

Lemma like_safe_app p q : like_safe p → like_safe q → like_safe (p +:+ q).
Proof. unfold like_safe. intros Hp Hq. by rewrite any_char_app, Hp, Hq. Qed.

(** On a path without metacharacters, [LIKE p || '/%'] is the prefix test. *)
Lemma like_descendant p q :
  like_safe p → like q (p +:+ "/%") = startsWith q (p +:+ "/").
Proof.
  intros Hp. unfold like.
  change (p +:+ "/%") with (p +:+ ("/" +:+ "%")).
  rewrite <- string_app_assoc.
  rewrite like_pat_safe_app by (by apply like_safe_app).
  rewrite strip_prefix_startsWith.
  destruct (strip_prefix _ _); [apply like_pat_any|done].
Qed.

(** The rows [deleteNode] and [moveNode] select for such a path. *)
Lemma subtree_row_safe A p k :
  like_safe p →
  subtree_row A p k
  = String.eqb k.1 A && (String.eqb k.2 p || startsWith k.2 (p +:+ "/")).
Proof. intros Hp. unfold subtree_row. by rewrite like_descendant. Qed.

(** The rows [countChildren] and [listChildren] select for such a
    directory: the paths [dirPath/name] with no separator in [name]. *)
Lemma child_row_safe A d k :
  like_safe d →
  child_row A d k
  = String.eqb k.1 A
    && match strip_prefix (if String.eqb d "/" then "/" else d +:+ "/") k.2 with
       | Some name => negb (any_char (Ascii.eqb "/") name)
       | None => false
       end
    && negb (String.eqb k.2 d).
Proof.
  intros Hd. unfold child_row, like.
  set (prefix := if String.eqb d "/" then "/" else d +:+ "/").
  assert (like_safe prefix) as Hpre.
  { unfold prefix. destruct (String.eqb d "/"); [done|]. by apply like_safe_app. }
  change (prefix +:+ "%/%") with (prefix +:+ "%/%").
  rewrite !like_pat_safe_app by done.
  destruct (strip_prefix prefix k.2) as [name|]; simpl.
  - by rewrite like_pat_any, like_pat_any_slash_any, andb_true_r.
  - by rewrite andb_false_r.
Qed.

(** The new path of a selected row: the remainder after the source
    path, under the destination. *)
Lemma moved_key_app src dest A rest :
  moved_key src dest (A, src +:+ rest) = (A, dest +:+ rest).
Proof.
  unfold moved_key, substr. cbn [fst snd]. do 2 f_equal.
  rewrite string_length_app.
  replace (String.length src + 1 - 1) with (String.length src) by lia.
  replace (String.length src + String.length rest - String.length src)
    with (String.length rest) by lia.
  apply substring_app_r.
Qed.

(** ** The matcher of [LIKE] *)

Lemma suffix_of_refl t : suffix_of t t.
Proof. by exists "". Qed.

Lemma suffix_of_cons v d t : suffix_of v t → suffix_of v (String d t).
Proof. intros [u ->]. by exists (String d u). Qed.

Lemma suffix_of_inv v d t : suffix_of v (String d t) → v = String d t ∨ suffix_of v t.
Proof.
  intros [[|e u] H]; [left; by rewrite H|]. right.
  rewrite string_app_cons in H. injection H as -> ->. by exists u.
Qed.

Lemma suffix_of_nil v : suffix_of v "" → v = "".
Proof. intros [[|e u] H]; [by rewrite H|]. by rewrite string_app_cons in H. Qed.

Lemma suffix_of_tail e v t : suffix_of (String e v) t → suffix_of v t.
Proof. intros [u ->]. exists (u +:+ String e ""). by rewrite string_app_assoc. Qed.

Lemma like_pat_percent_some pat t :
  like_pat (String "%" pat) t = true ↔ ∃ v, suffix_of v t ∧ like_pat pat v = true.
Proof.
  induction t as [|d t IH].
  - change (like_pat (String "%" pat) "") with (like_pat pat "" || false).
    rewrite orb_false_r. split.
    + intros H. exists "". split; [apply suffix_of_refl|done].
    + intros (v & ->%suffix_of_nil & H). done.
  - change (like_pat (String "%" pat) (String d t))
      with (like_pat pat (String d t) || like_pat (String "%" pat) t).
    rewrite orb_true_iff, IH. split.
    + intros [H|(v & Hv & H)].
      * exists (String d t). split; [apply suffix_of_refl|done].
      * exists v. split; [by apply suffix_of_cons|done].
    + intros (v & [->|Hv]%suffix_of_inv & H); [by left|right; eauto].
Qed.

Lemma suffix_of_empty t : suffix_of "" t.
Proof. exists t. by rewrite string_app_nil_r. Qed.

Lemma suffix_of_trans u v t : suffix_of u v → suffix_of v t → suffix_of u t.
Proof. intros [a ->] [b ->]. exists (b +:+ a). by rewrite string_app_assoc. Qed.

Lemma suffix_of_cons_inv e v d t : suffix_of (String e v) (String d t) → suffix_of v t.
Proof.
  intros [[= -> ->]|H]%suffix_of_inv; [apply suffix_of_refl|].
  by apply suffix_of_tail in H.
Qed.

Lemma string_snoc d u : ∃ u' e, String d u = u' +:+ String e "".
Proof.
  revert d. induction u as [|c u IH]; intros d; [by exists "", d|].
  destruct (IH c) as (u' & e & H). exists (String d u'), e.
  by rewrite string_app_cons, <- H.
Qed.

Lemma like_pat_nil_text pat : like_pat pat "" = only_percent pat.
Proof.
  induction pat as [|c pat IH]; [done|]. simpl.
  destruct (Ascii.eqb c "%") eqn:E1.
  - by rewrite orb_false_r.
  - destruct (Ascii.eqb c "_"); [done|]. destruct (Ascii.eqb c "\"); [by destruct pat|done].
Qed.

(** One step of a pattern that starts with a character to find in the
    text: [first] is that character, and [rest] what follows it. *)
Lemma answers_scan (head : string → string → bool) (rest : string) (first : ascii)
    (scan : string → LikeResult) :
  (∀ d t, head rest (String d t) = Ascii.eqb d first && like_pat rest t) →
  (∀ pat, head pat "" = false) →
  scan "" = LIKE_ABORT →
  (∀ d t, scan (String d t)
          = if Ascii.eqb d first
            then match match_text rest false t with
                 | LIKE_FALSE => scan t
                 | r => r
                 end
            else scan t) →
  (∀ t, answers rest false t) →
  ∀ t, match scan t with
       | LIKE_TRUE => ∃ v, suffix_of v t ∧ head rest v = true
       | LIKE_ERROR => True
       | _ => ∀ v, suffix_of v t → head rest v = false
       end.
Proof.
  intros Hhead Hnil H0 HS IH t. induction t as [|d t IHt].
  { rewrite H0. intros v ->%suffix_of_nil. apply Hnil. }
  rewrite HS. destruct (Ascii.eqb d first) eqn:Ed.
  - specialize (IH t). unfold answers in IH.
    destruct (match_text rest false t) eqn:Er.
    + exists (String d t). split; [apply suffix_of_refl|]. by rewrite Hhead, Ed, IH.
    + assert (head rest (String d t) = false) as Hhere by by rewrite Hhead, Ed, IH.
      destruct (scan t).
      * destruct IHt as (v & Hv & H). exists v. split; [by apply suffix_of_cons|done].
      * intros v [->|Hv]%suffix_of_inv; [done|by apply IHt].
      * intros v [->|Hv]%suffix_of_inv; [done|by apply IHt].
      * done.
    + intros [|e v] Hv; [apply Hnil|]. rewrite Hhead.
      rewrite (IH v) by by apply suffix_of_cons_inv in Hv. apply andb_false_r.
    + done.
  - assert (head rest (String d t) = false) as Hhere by by rewrite Hhead, Ed.
    destruct (scan t).
    + destruct IHt as (v & Hv & H). exists v. split; [by apply suffix_of_cons|done].
    + intros v [->|Hv]%suffix_of_inv; [done|by apply IHt].
    + intros v [->|Hv]%suffix_of_inv; [done|by apply IHt].
    + done.
Qed.

Lemma match_text_answers n pat :
  String.length pat ≤ n → ∀ star t, answers pat star t.
Proof.
  revert pat. induction n as [|n IH]; intros pat Hn.
  { destruct pat; [|simpl in Hn; lia]. intros [] t; unfold answers; simpl.
    - exists "". split; [apply suffix_of_empty|done].
    - by destruct t. }
  destruct pat as [|c pat].
  { intros [] t; unfold answers; simpl.
    - exists "". split; [apply suffix_of_empty|done].
    - by destruct t. }
  simpl in Hn.
  assert (∀ star t, answers pat star t) as IHp by (apply IH; lia).
  destruct (Ascii.eqb c "\") eqn:Eb.
  { apply Ascii.eqb_eq in Eb as ->. destruct pat as [|e pat].
    { intros [] t; unfold answers; simpl; [done|]. destruct t; [|done].
      intros v ->%suffix_of_nil. done. }
    simpl in Hn. assert (∀ star t, answers pat star t) as IHpp by (apply IH; lia).
    assert (∀ d t, like_pat (String "\" (String e pat)) (String d t)
                   = Ascii.eqb d e && like_pat pat t) as Hhead by done.
    intros [] t.
    - pose proof (answers_scan (fun r => like_pat (String "\" (String e r))) pat e
                    (match_text (String "\" (String e pat)) true)
                    Hhead (fun _ => eq_refl) eq_refl (fun _ _ => eq_refl)
                    (IHpp false) t) as H.
      unfold answers. by destruct (match_text _ true t).
    - unfold answers. destruct t as [|d t]; simpl.
      { intros v ->%suffix_of_nil. done. }
      rewrite Ascii.eqb_sym. destruct (Ascii.eqb d e) eqn:Ed; [|done].
      specialize (IHpp false t). unfold answers in IHpp.
      destruct (match_text pat false t); try done.
      intros [|d' v] Hv; [done|]. simpl.
      rewrite (IHpp v) by by apply suffix_of_cons_inv in Hv. apply andb_false_r. }
  destruct (Ascii.eqb c "%") eqn:Ep.
  { apply Ascii.eqb_eq in Ep as ->.
    assert (∀ t, answers (String "%" pat) true t) as Hstar.
    { intros t. specialize (IHp true t). unfold answers in *.
      change (match_text (String "%" pat) true t) with (match_text pat true t).
      destruct (match_text pat true t); try done.
      - destruct IHp as (v & Hv & H). exists v. split; [done|].
        apply like_pat_percent_some. exists v. split; [apply suffix_of_refl|done].
      - intros v Hv. apply not_true_is_false.
        intros (w & Hw & H)%like_pat_percent_some.
        rewrite IHp in H; [done|]. by apply (suffix_of_trans _ v).
      - intros v Hv. apply not_true_is_false.
        intros (w & Hw & H)%like_pat_percent_some.
        rewrite IHp in H; [done|]. by apply (suffix_of_trans _ v). }
    intros [] t; [apply Hstar|].
    unfold answers. destruct t as [|d t].
    { simpl only_percent. change (match_text (String "%" pat) false "")
        with (if only_percent pat then LIKE_TRUE else LIKE_ABORT).
      rewrite <- like_pat_nil_text. pose proof (like_pat_nil_text (String "%" pat)) as H.
      simpl only_percent in H. rewrite <- (like_pat_nil_text pat) in H.
      destruct (like_pat pat ""); [done|]. intros v ->%suffix_of_nil. done. }
    change (match_text (String "%" pat) false (String d t))
      with (match_text pat true (String d t)).
    specialize (IHp true (String d t)). unfold answers in IHp.
    destruct (match_text pat true (String d t)); try done.
    - by apply like_pat_percent_some.
    - apply not_true_is_false. intros (w & Hw & H)%like_pat_percent_some.
      by rewrite IHp in H.
    - intros v Hv. apply not_true_is_false.
      intros (w & Hw & H)%like_pat_percent_some.
      rewrite IHp in H; [done|]. by apply (suffix_of_trans _ v). }
  destruct (Ascii.eqb c "_") eqn:Eu.
  { apply Ascii.eqb_eq in Eu as ->.
    assert (∀ d t, like_pat (String "_" pat) (String d t) = like_pat pat t) as Hhead by done.
    intros [] t; unfold answers.
    - destruct t as [|d t]; simpl.
      { intros v ->%suffix_of_nil. done. }
      specialize (IHp true t). unfold answers in IHp.
      destruct (match_text pat true t); try done.
      + destruct IHp as (v & [u ->] & H).
        destruct (string_snoc d u) as (u' & e & Hu).
        exists (String e v). split; [|done].
        exists u'. rewrite <- string_app_cons, Hu, string_app_assoc. done.
      + intros [|e v] Hv; [done|]. simpl. apply IHp.
        by apply suffix_of_cons_inv in Hv.
      + intros [|e v] Hv; [done|]. simpl. apply IHp.
        by apply suffix_of_cons_inv in Hv.
    - destruct t as [|d t]; simpl.
      { intros v ->%suffix_of_nil. done. }
      specialize (IHp false t). unfold answers in IHp.
      destruct (match_text pat false t); try done.
      intros [|e v] Hv; [done|]. simpl. apply IHp.
      by apply suffix_of_cons_inv in Hv. }
  assert (like_meta c = false) as Hplain by (unfold like_meta; by rewrite Ep, Eu, Eb).
  assert (∀ d t, like_pat (String c pat) (String d t)
                 = Ascii.eqb d c && like_pat pat t) as Hhead.
  { intros d t. by rewrite like_pat_cons_plain. }
  assert (∀ r, like_pat (String c r) "" = false) as Hnil.
  { intros r. by rewrite like_pat_cons_plain. }
  intros [] t.
  - assert (match_text (String c pat) true ""%string = LIKE_ABORT) as H0.
    { simpl. by rewrite Ep, Eu, Eb. }
    assert (∀ d t, match_text (String c pat) true (String d t)
                   = if Ascii.eqb d c
                     then match match_text pat false t with
                          | LIKE_FALSE => match_text (String c pat) true t
                          | r => r
                          end
                     else match_text (String c pat) true t) as HS.
    { intros d t0. simpl. by rewrite Ep, Eu, Eb. }
    pose proof (answers_scan (fun r => like_pat (String c r)) pat c
                  (match_text (String c pat) true) Hhead Hnil H0 HS (IHp false) t) as H.
    unfold answers. by destruct (match_text _ true t).
  - assert (match_text (String c pat) false ""%string = LIKE_ABORT) as H0.
    { simpl. by rewrite Ep. }
    assert (∀ d t, match_text (String c pat) false (String d t)
                   = if Ascii.eqb d c then match_text pat false t else LIKE_FALSE) as HS.
    { intros d t0. simpl. by rewrite Eb, Ep, Eu, Ascii.eqb_sym. }
    unfold answers. destruct t as [|d t].
    { rewrite H0. intros v ->%suffix_of_nil. apply Hnil. }
    rewrite HS, Hhead. destruct (Ascii.eqb d c) eqn:Ed; [|done].
    specialize (IHp false t). unfold answers in IHp.
    destruct (match_text pat false t); try done.
    intros [|d' v] Hv; [apply Hnil|]. rewrite Hhead.
    rewrite (IHp v) by by apply suffix_of_cons_inv in Hv. apply andb_false_r.
Qed.

(** Where the matcher does not raise, it answers as [like] does. *)
Lemma like_agrees s pat :
  like_raises s pat = false → (like s pat = true ↔ match_text pat false s = LIKE_TRUE).
Proof.
  unfold like_raises, like. pose proof (match_text_answers _ pat (le_n _) false s) as H.
  unfold answers in H. destruct (match_text pat false s); try done.
  - rewrite H. done.
  - rewrite H by apply suffix_of_refl. done.
Qed.

(** ** Patterns that leave no escape open *)

Lemma match_text_closed n pat :
  String.length pat ≤ n → escapes_closed pat = true →
  ∀ star s, match_text pat star s ≠ LIKE_ERROR.
Proof.
  revert pat. induction n as [|n IH]; intros pat Hn Hc star s.
  { destruct pat; [|simpl in Hn; lia]. by destruct star, s. }
  destruct pat as [|c pat]; [by destruct star, s|].
  simpl in Hn. simpl in Hc. destruct (Ascii.eqb c "\") eqn:Eb.
  - destruct pat as [|e pat]; [done|]. simpl in Hn.
    assert (∀ star s, match_text pat star s ≠ LIKE_ERROR) as H by (apply IH; [lia|done]).
    apply Ascii.eqb_eq in Eb as ->. destruct star.
    + induction s as [|d s IHs]; [done|]. simpl in *.
      destruct (Ascii.eqb d e); [|done].
      destruct (match_text pat false s) eqn:E; try done. by apply H in E.
    + destruct s as [|d s]; simpl; [by repeat case_match|].
      destruct (Ascii.eqb e d); [apply H|done].
  - assert (∀ star s, match_text pat star s ≠ LIKE_ERROR) as H by (apply IH; [lia|done]).
    destruct star.
    + simpl. rewrite Eb. destruct (Ascii.eqb c "%"); [apply H|].
      destruct (Ascii.eqb c "_"); [destruct s; [done|apply H]|].
      induction s as [|d s IHs]; [done|]. simpl in *.
      destruct (Ascii.eqb d c); [|done].
      destruct (match_text pat false s) eqn:E; try done. by apply H in E.
    + destruct s as [|d s]; simpl; [by repeat case_match|]. rewrite Eb.
      destruct (Ascii.eqb c "%"); [apply H|].
      destruct (Ascii.eqb c "_"); [apply H|].
      destruct (Ascii.eqb c d); [apply H|done].
Qed.

Lemma like_raises_closed s pat : escapes_closed pat = true → like_raises s pat = false.
Proof.
  intros Hc. unfold like_raises.
  pose proof (match_text_closed _ pat (le_n _) Hc false s).
  by destruct (match_text pat false s).
Qed.

Lemma escapes_closed_slash n q :
  String.length q ≤ n → escapes_closed (q +:+ "/%") = true.
Proof.
  revert q. induction n as [|n IH]; intros q Hn.
  { destruct q; [done|simpl in Hn; lia]. }
  destruct q as [|c q]; [done|]. simpl in Hn. rewrite string_app_cons. simpl.
  destruct (Ascii.eqb c "\"); [|apply IH; lia].
  destruct q as [|e q]; [done|]. rewrite string_app_cons. apply IH. simpl in Hn. lia.
Qed.

(** The patterns that the statements build from a path end in [/%]:
    their evaluation does not raise, whatever the path. *)
Lemma subtree_pattern_total s p : like_raises s (p +:+ "/%") = false.
Proof. apply like_raises_closed, (escapes_closed_slash (String.length p)). lia. Qed.

Lemma child_patterns_total s d :
  let prefix := if String.eqb d "/" then "/" else d +:+ "/" in
  like_raises s (prefix +:+ "%") = false ∧ like_raises s (prefix +:+ "%/%") = false.
Proof.
  cbv zeta. destruct (String.eqb d "/").
  - split; [apply (subtree_pattern_total s "")|apply (subtree_pattern_total s "/%")].
  - rewrite !string_app_assoc. split; [apply subtree_pattern_total|].
    change ("/" +:+ "%/%") with ("/%" +:+ "/%"). rewrite <- string_app_assoc.
    apply subtree_pattern_total.
Qed.

End LikeFacts.

(** ** The sort of a listing *)

Module SortFacts.
Import Js Paths Sql Storage Vfs Spec.

Section Sort.
Context {X : Type} (cmp : X → X → Z).

Local Abbreviation cmp_le := (Spec.cmp_le cmp).

Lemma sort_insert_perm x l : sort_insert cmp x l ≡ₚ x :: l.
Proof.
  induction l as [|y l IH]; simpl; [done|].
  destruct (cmp x y <=? 0)%Z; [done|]. by rewrite IH, Permutation_swap.
Qed.

Lemma sort_perm l : sort cmp l ≡ₚ l.
Proof.
  induction l as [|x l IH]; simpl; [done|].
  unfold sort in *. by rewrite sort_insert_perm, IH.
Qed.

Context (cmp_total : ∀ x y, cmp_le x y ∨ cmp_le y x)
        (cmp_trans : ∀ x y z, cmp_le x y → cmp_le y z → cmp_le x z).

Lemma sort_insert_sorted x l :
  StronglySorted cmp_le l → StronglySorted cmp_le (sort_insert cmp x l).
Proof.
  induction 1 as [|y l Hl IH Hy]; simpl; [by repeat constructor|].
  destruct (Z.leb_spec (cmp x y) 0) as [Hxy|Hxy].
  - constructor; [by constructor|]. constructor; [done|].
    eapply Forall_impl; [done|]. intros z Hz. by apply (cmp_trans x y z).
  - constructor; [done|]. rewrite sort_insert_perm. constructor; [|done].
    destruct (cmp_total y x) as [H|H]; [done|]. unfold cmp_le in H. lia.
Qed.

Lemma sort_sorted l : StronglySorted cmp_le (sort cmp l).
Proof.
  induction l as [|x l IH]; simpl; [constructor|]. by apply sort_insert_sorted.
Qed.

End Sort.

(** The order of a listing, for a [localeCompare] that is a total
    preorder: directories before files, and names in the order of
    [localeCompare] within each kind. *)
Lemma ls_compare_le localeCompare a b :
  cmp_le (ls_compare localeCompare) a b ↔
  (type a = directory ∧ type b = file) ∨
  (type a = type b ∧ (localeCompare (name a) (name b) ≤ 0)%Z).
Proof.
  unfold cmp_le, ls_compare. destruct a as [na [|]], b as [nb [|]]; simpl;
    repeat case_bool_decide; try congruence; intuition (try congruence; try lia).
Qed.

Lemma ls_sorted localeCompare l :
  (∀ x y, (localeCompare x y ≤ 0)%Z ∨ (localeCompare y x ≤ 0)%Z) →
  (∀ x y z, (localeCompare x y ≤ 0)%Z → (localeCompare y z ≤ 0)%Z →
            (localeCompare x z ≤ 0)%Z) →
  sort (ls_compare localeCompare) l ≡ₚ l ∧
  StronglySorted (cmp_le (ls_compare localeCompare)) (sort (ls_compare localeCompare) l).
Proof.
  intros Htot Htrans. split; [apply sort_perm|]. apply sort_sorted.
  - intros a b. rewrite !ls_compare_le.
    destruct a as [na [|]], b as [nb [|]]; simpl; destruct (Htot na nb); intuition.
  - intros a b c. rewrite !ls_compare_le.
    destruct a as [na [|]], b as [nb [|]], c as [nc [|]]; simpl;
      intros [[? ?]|[? ?]] [[? ?]|[? ?]]; try congruence; eauto.
Qed.

(** The order of the code units is a total preorder. *)
Lemma by_code_unit_le a b : (by_code_unit a b ≤ 0)%Z ↔ String.le a b.
Proof.
  unfold by_code_unit, String.le, String.leb.
  destruct (String.compare a b); simpl; split; try done; lia.
Qed.

Lemma by_code_unit_preorder : total_preorder by_code_unit.
Proof.
  split.
  - intros x y. rewrite !by_code_unit_le. apply total, _.
  - intros x y z. rewrite !by_code_unit_le. apply transitivity.
Qed.

End SortFacts.

(** ** Provisioning of a namespace *)

Module StorageFacts.
Import Js Paths Sql Storage Vfs Spec.
Local Open Scope vfs_scope.

Lemma ensure_provision id flag b :
  (if decide (id ∈ knownNamespaces b) then (inr tt, b)
   else (insert_session id flag ;;
         insertDir id "/" ;;
         fun b' => (inr tt, set_known (union {[id]}) b')) b)
  = (inr tt, provision id flag b).
Proof.
  unfold provision. destruct (decide (id ∈ knownNamespaces b)); [done|].
  unfold bind, insert_session, insertDir, insert_row, set_known, set_sessions, set_nodes.
  destruct b as [ss nn kk]; simpl.
  destruct (ss !! id) eqn:Hs; simpl.
  - destruct (nn !! (id, "/")) eqn:Hn; simpl; [done|]. by rewrite Hs.
  - destruct (nn !! (id, "/")) eqn:Hn; simpl; [done|]. by rewrite lookup_insert_eq.
Qed.

Lemma resolveNamespace_eq sid store b :
  resolveNamespace sid store b
  = (inr (nsOf sid store),
     provision (nsOf sid store) (bool_decide (is_Some (truthy store))) b).
Proof.
  unfold resolveNamespace, nsOf. destruct (truthy store) as [s|]; simpl.
  - unfold bind at 1. unfold ensureStore. by rewrite ensure_provision.
  - unfold bind at 1. unfold ensureSession. by rewrite ensure_provision.
Qed.

Lemma provision_known id flag b : id ∈ knownNamespaces (provision id flag b).
Proof.
  unfold provision. destruct (decide _); [done|]. simpl. set_solver.
Qed.

Lemma provision_id id flag b : id ∈ knownNamespaces b → provision id flag b = b.
Proof. intros H. unfold provision. by rewrite decide_True. Qed.

Lemma provision_wf id flag b : wf b → wf (provision id flag b).
Proof.
  intros Hwf. unfold provision. destruct (decide _); [done|].
  intros x. simpl. intros [->%elem_of_singleton|Hx]%elem_of_union.
  - destruct (vfs_sessions b !! id) eqn:E; [by rewrite E|by rewrite lookup_insert_eq].
  - destruct (vfs_sessions b !! id) eqn:E; [by apply Hwf|].
    destruct (decide (id = x)) as [->|]; [by rewrite lookup_insert_eq|].
    rewrite lookup_insert_ne by done. by apply Hwf.
Qed.

Lemma provision_session id flag b :
  wf b → is_Some (vfs_sessions (provision id flag b) !! id).
Proof.
  intros Hwf. apply provision_wf; [done|]. apply provision_known.
Qed.

Lemma provision_lookup id flag b k :
  vfs_nodes (provision id flag b) !! k =
  match vfs_nodes b !! k with
  | Some r => Some r
  | None => if bool_decide (k = (id, "/") ∧ id ∉ knownNamespaces b)
            then Some dirRow else None
  end.
Proof.
  unfold provision. destruct (decide (id ∈ knownNamespaces b)).
  - destruct (vfs_nodes b !! k); [done|]. rewrite bool_decide_eq_false_2; [done|]. tauto.
  - simpl. destruct (decide (k = (id, "/"))) as [->|Hk].
    + destruct (vfs_nodes b !! (id, "/")) eqn:E; [by rewrite E|].
      rewrite lookup_insert_eq. by rewrite bool_decide_eq_true_2.
    + destruct (vfs_nodes b !! (id, "/")) eqn:E.
      * destruct (vfs_nodes b !! k); [done|]. rewrite bool_decide_eq_false_2; [done|]. tauto.
      * rewrite lookup_insert_ne by done.
        destruct (vfs_nodes b !! k); [done|]. rewrite bool_decide_eq_false_2; [done|]. tauto.
Qed.

Lemma provision_lookup_nonroot A flag b p :
  p ≠ "/" → vfs_nodes (provision A flag b) !! (A, p) = vfs_nodes b !! (A, p).
Proof.
  intros Hp. rewrite provision_lookup. destruct (vfs_nodes b !! (A, p)); [done|].
  rewrite bool_decide_eq_false_2; [done|]. intros [[=] _]. done.
Qed.

Lemma provision_other A flag b k r :
  vfs_nodes b !! k = Some r → vfs_nodes (provision A flag b) !! k = Some r.
Proof. intros H. by rewrite provision_lookup, H. Qed.

Lemma wf_empty : wf empty_backend.
Proof. intros id H. by apply elem_of_empty in H. Qed.

End StorageFacts.

(** ** The operations as equations on the backend *)

Module OpFacts.
Import Js Paths Sql Storage Vfs Spec PathFacts SortFacts StorageFacts.
Local Open Scope vfs_scope.

Lemma set_nodes_id b : set_nodes (fun m => m) b = b.
Proof. by destruct b. Qed.

Lemma set_nodes_set_nodes f g b : set_nodes f (set_nodes g b) = set_nodes (fun m => f (g m)) b.
Proof. by destruct b. Qed.

Lemma insertDir_eq A a b :
  is_Some (vfs_sessions b !! A) →
  insertDir A a b = (inr tt, set_nodes (fun m => add_dir A m a) b).
Proof.
  intros [f Hf]. unfold insertDir, insert_row, add_dir, set_nodes. destruct b as [ss nn kk]; simpl in *.
  destruct (nn !! (A, a)); [done|]. by rewrite Hf.
Qed.

Lemma for_each_insertDir A l b :
  is_Some (vfs_sessions b !! A) →
  for_each (insertDir A) l b = (inr tt, set_nodes (add_dirs A l) b).
Proof.
  revert b. induction l as [|a l IH]; intros b Hs; simpl.
  - unfold ret. by rewrite set_nodes_id.
  - unfold bind. rewrite insertDir_eq by done. rewrite IH by done.
    by rewrite set_nodes_set_nodes.
Qed.

Lemma add_dir_lookup A a m k :
  add_dir A m a !! k =
  match m !! k with
  | Some r => Some r
  | None => if bool_decide (k = (A, a)) then Some dirRow else None
  end.
Proof.
  unfold add_dir. destruct (decide (k = (A, a))) as [->|Hk].
  - rewrite bool_decide_eq_true_2 by done.
    destruct (m !! (A, a)) eqn:E; [by rewrite E|by rewrite lookup_insert_eq].
  - rewrite bool_decide_eq_false_2 by done.
    destruct (m !! (A, a)) eqn:E; [by destruct (m !! k)|].
    rewrite lookup_insert_ne by done. by destruct (m !! k).
Qed.

Lemma add_dirs_lookup A l m k :
  add_dirs A l m !! k =
  match m !! k with
  | Some r => Some r
  | None => if bool_decide (k.1 = A ∧ k.2 ∈ l) then Some dirRow else None
  end.
Proof.
  unfold add_dirs. revert m. induction l as [|a l IH]; intros m; simpl.
  - destruct (m !! k); [done|]. rewrite bool_decide_eq_false_2; [done|].
    by intros [_ ?%elem_of_nil].
  - rewrite IH, add_dir_lookup. destruct (m !! k); [done|].
    destruct k as [k1 k2]; simpl.
    destruct (decide ((k1, k2) = (A, a))) as [[= -> ->]|Hne].
    + rewrite !bool_decide_eq_true_2; [done| |done]. split; [done|]. by left.
    + rewrite (bool_decide_eq_false_2 _ Hne).
      rewrite (bool_decide_ext (k1 = A ∧ k2 ∈ a :: l) (k1 = A ∧ k2 ∈ l)); [done|].
      split; intros [? H]; (split; [done|]).
      * apply elem_of_cons in H as [->|?]; [congruence|done].
      * by right.
Qed.

Lemma upsertFile_eq A p c b :
  is_Some (vfs_sessions b !! A) →
  upsertFile A p c b =
  if is_text c then (inr tt, set_nodes (upsert A p c) b)
  else (inl (EDb character_not_in_repertoire), b).
Proof.
  intros [f Hf]. unfold upsertFile, insert_row, upsert, set_nodes.
  destruct (is_text c); [|done].
  destruct b as [ss nn kk]; simpl in *.
  destruct (nn !! (A, p)); [done|]. by rewrite Hf.
Qed.

Lemma set_nodes_sessions f b : vfs_sessions (set_nodes f b) = vfs_sessions b.
Proof. done. Qed.

Lemma validated_eq input p b :
  validatePath (JsString input) = inr p → validated input b = (inr p, b).
Proof. intros H. unfold validated. by rewrite H. Qed.

Lemma write_eq sid store input c p b :
  wf b → validatePath (JsString input) = inr p →
  write sid input c store b =
  if String.eqb p "/" then (inl (EVfs EINVAL), b)
  else
    let A := nsOf sid store in
    let b1 := provision A (flagOf store) b in
    match vfs_nodes b1 !! (A, p) with
    | Some (mkRow directory _) => (inl (EVfs EISDIR), b1)
    | _ =>
        if is_text c
        then (inr (1 <? length (ancestorPaths p)), write_state A p c (flagOf store) b)
        else (inl (EDb character_not_in_repertoire),
              set_nodes (add_dirs A (ancestorPaths p)) b1)
    end.
Proof.
  intros Hwf Hv. unfold write. unfold bind at 1. rewrite (validated_eq _ _ _ Hv).
  destruct (String.eqb p "/"); [done|].
  unfold bind at 1. unfold ns. rewrite resolveNamespace_eq. fold (flagOf store).
  cbv zeta. set (A := nsOf sid store). set (b1 := provision A (flagOf store) b).
  assert (is_Some (vfs_sessions b1 !! A)) as Hs by by apply provision_session.
  unfold bind at 1. unfold getNode at 1.
  destruct (vfs_nodes b1 !! (A, p)) as [[[] ?]|] eqn:E; simpl; try done.
  - unfold bind at 1. unfold ensureParents. rewrite for_each_insertDir by done.
    unfold bind at 1. rewrite upsertFile_eq by done. unfold ret, write_state.
    destruct (is_text c); [|done]. by rewrite set_nodes_set_nodes.
  - unfold bind at 1. unfold ensureParents. rewrite for_each_insertDir by done.
    unfold bind at 1. rewrite upsertFile_eq by done. unfold ret, write_state.
    destruct (is_text c); [|done]. by rewrite set_nodes_set_nodes.
Qed.

Lemma read_eq sid store input p b :
  validatePath (JsString input) = inr p →
  read sid input store b =
  let A := nsOf sid store in
  let b1 := provision A (flagOf store) b in
  match vfs_nodes b1 !! (A, p) with
  | None => (inl (EVfs ENOENT), b1)
  | Some (mkRow directory _) => (inl (EVfs EISDIR), b1)
  | Some (mkRow file c) => (inr (default "" c), b1)
  end.
Proof.
  intros Hv. unfold read. unfold bind at 1. rewrite (validated_eq _ _ _ Hv).
  unfold bind at 1. unfold ns. rewrite resolveNamespace_eq. fold (flagOf store).
  cbv zeta. unfold bind at 1. unfold getNode.
  by destruct (vfs_nodes _ !! _) as [[[] ?]|].
Qed.

Lemma validated_fail input e b :
  validatePath (JsString input) = inl e → validated input b = (inl (EPath e), b).
Proof. intros H. unfold validated. by rewrite H. Qed.


Lemma write_state_target s A p c flag b :
  validatePath (JsString s) = inr p →
  (∀ r, vfs_nodes (provision A flag b) !! (A, p) = Some r → node_type r = file) →
  vfs_nodes (write_state A p c flag b) !! (A, p) = Some (mkRow file (Some c)).
Proof.
  intros Hv Hfile. unfold write_state, upsert. simpl.
  rewrite lookup_insert_eq. f_equal. f_equal.
  rewrite add_dirs_lookup.
  destruct (vfs_nodes (provision A flag b) !! (A, p)) as [r|] eqn:E.
  - by apply Hfile.
  - rewrite bool_decide_eq_false_2; [done|]. simpl. intros [_ Hin].
    by apply (ancestor_proper _ _ _ Hv Hin).
Qed.




(** [created_parents] is computed from the path alone. *)
Lemma created_parents_from_path sid store input c p b created b' :
  wf b → validatePath (JsString input) = inr p →
  write sid input c store b = (inr created, b') →
  created = (1 <? length (ancestorPaths p)).
Proof.
  intros Hwf Hv. rewrite (write_eq _ _ _ _ _ _ Hwf Hv).
  destruct (String.eqb p "/"); [done|]. cbv zeta.
  destruct (vfs_nodes _ !! _) as [[[] ?]|]; destruct (is_text c); congruence.
Qed.


Lemma appendFile_eq A p c b :
  is_Some (vfs_sessions b !! A) →
  appendFile A p c b =
  if is_text c then (inr tt, set_nodes (append_row A p c) b)
  else (inl (EDb character_not_in_repertoire), b).
Proof.
  intros [f Hf]. unfold appendFile, insert_row, append_row, set_nodes.
  destruct (is_text c); [|done].
  destruct b as [ss nn kk]; simpl in *.
  destruct (nn !! (A, p)); [done|]. by rewrite Hf.
Qed.

Lemma append_eq sid store input c p b :
  wf b → validatePath (JsString input) = inr p →
  append sid input c store b =
  if String.eqb p "/" then (inl (EVfs EINVAL), b)
  else
    let A := nsOf sid store in
    let b1 := provision A (flagOf store) b in
    match vfs_nodes b1 !! (A, p) with
    | Some (mkRow directory _) => (inl (EVfs EISDIR), b1)
    | _ =>
        if is_text c then (inr tt, append_state A p c (flagOf store) b)
        else (inl (EDb character_not_in_repertoire),
              set_nodes (add_dirs A (ancestorPaths p)) b1)
    end.
Proof.
  intros Hwf Hv. unfold append. unfold bind at 1. rewrite (validated_eq _ _ _ Hv).
  destruct (String.eqb p "/"); [done|].
  unfold bind at 1. unfold ns. rewrite resolveNamespace_eq. fold (flagOf store).
  cbv zeta. set (A := nsOf sid store). set (b1 := provision A (flagOf store) b).
  assert (is_Some (vfs_sessions b1 !! A)) as Hs by by apply provision_session.
  unfold bind at 1. unfold getNode at 1.
  destruct (vfs_nodes b1 !! (A, p)) as [[[] ?]|] eqn:E; simpl; try done.
  - unfold bind at 1. unfold ensureParents. rewrite for_each_insertDir by done.
    rewrite appendFile_eq by done. unfold append_state.
    destruct (is_text c); [|done]. by rewrite set_nodes_set_nodes.
  - unfold bind at 1. unfold ensureParents. rewrite for_each_insertDir by done.
    rewrite appendFile_eq by done. unfold append_state.
    destruct (is_text c); [|done]. by rewrite set_nodes_set_nodes.
Qed.

Lemma ancestors_nonroot p a : a ∈ ancestorPaths p → normalizePath p ≠ "/".
Proof.
  unfold ancestorPaths. destruct (String.eqb_spec (normalizePath p) "/"); [|done].
  by intros ?%elem_of_nil.
Qed.

Lemma validated_nonroot input p a :
  validatePath (JsString input) = inr p → a ∈ ancestorPaths p → p ≠ "/".
Proof.
  intros [-> _]%validatePath_inr Ha Hp. apply ancestors_nonroot in Ha.
  by rewrite normalizePath_idem in Ha.
Qed.

Lemma stat_eq sid store input p b :
  validatePath (JsString input) = inr p →
  stat sid input store b =
  let A := nsOf sid store in
  let b1 := provision A (flagOf store) b in
  (inr match vfs_nodes b1 !! (A, p) with
       | None => mkStat false None None None
       | Some (mkRow file c) =>
           mkStat true (Some file) (Some (String.length (default "" c))) None
       | Some (mkRow directory _) =>
           mkStat true (Some directory) None (Some (size (children A p b1)))
       end, b1).
Proof.
  intros Hv. unfold stat. unfold bind at 1. rewrite (validated_eq _ _ _ Hv).
  unfold bind at 1. unfold ns. rewrite resolveNamespace_eq. fold (flagOf store).
  cbv zeta. unfold bind at 1. unfold getNode.
  by destruct (vfs_nodes _ !! _) as [[[] ?]|].
Qed.

Lemma ls_eq localeCompare row_order sid store input p b :
  validatePath (JsString input) = inr p →
  ls localeCompare row_order sid input store b =
  let A := nsOf sid store in
  let b1 := provision A (flagOf store) b in
  match vfs_nodes b1 !! (A, p) with
  | None => (inl (EVfs ENOENT), b1)
  | Some (mkRow file _) => (inl (EVfs ENOTDIR), b1)
  | Some (mkRow directory _) =>
      (inr (sort (ls_compare localeCompare)
              (List.map (fun kr : (string * string) * Row =>
                           mkEntry (basename kr.1.2) (node_type kr.2))
                        (scan row_order (children A p b1)))), b1)
  end.
Proof.
  intros Hv. unfold ls. unfold bind at 1. rewrite (validated_eq _ _ _ Hv).
  unfold bind at 1. unfold ns. rewrite resolveNamespace_eq. fold (flagOf store).
  cbv zeta. unfold bind at 1. unfold getNode.
  destruct (vfs_nodes _ !! _) as [[[] ?]|]; simpl; try done.
  unfold bind, listChildren, ret. by rewrite map_map.
Qed.

Lemma rm_eq sid store input p b :
  validatePath (JsString input) = inr p →
  rm sid input store b =
  if String.eqb p "/" then (inl (EVfs EINVAL), b)
  else
    let A := nsOf sid store in
    let b1 := provision A (flagOf store) b in
    match vfs_nodes b1 !! (A, p) with
    | None => (inl (EVfs ENOENT), b1)
    | Some _ => deleteNode A p b1
    end.
Proof.
  intros Hv. unfold rm. unfold bind at 1. rewrite (validated_eq _ _ _ Hv).
  destruct (String.eqb p "/"); [done|].
  unfold bind at 1. unfold ns. rewrite resolveNamespace_eq. fold (flagOf store).
  cbv zeta. unfold bind at 1. unfold getNode.
  by destruct (vfs_nodes _ !! _).
Qed.

Lemma move_eq row_order sid store source destination src dest b :
  wf b →
  validatePath (JsString source) = inr src →
  validatePath (JsString destination) = inr dest →
  move row_order sid source destination store b =
  if String.eqb src "/" || String.eqb dest "/" || startsWith dest (src +:+ "/")
  then (inl (EVfs EINVAL), b)
  else
    let A := nsOf sid store in
    let b1 := provision A (flagOf store) b in
    match vfs_nodes b1 !! (A, src), vfs_nodes b1 !! (A, dest) with
    | None, _ => (inl (EVfs ENOENT), b1)
    | Some _, Some _ => (inl (EVfs EEXIST), b1)
    | Some _, None =>
        moveNode row_order A src dest
          (if String.eqb (parentPath dest) "/" then b1
           else set_nodes (add_dirs A (ancestorPaths dest)) b1)
    end.
Proof.
  intros Hwf Hs Hd. unfold move. unfold bind at 1. rewrite (validated_eq _ _ _ Hs).
  unfold bind at 1. rewrite (validated_eq _ _ _ Hd).
  destruct (String.eqb src "/"); [done|].
  destruct (String.eqb dest "/"); [done|].
  destruct (startsWith dest (src +:+ "/")); [done|]. simpl.
  unfold bind at 1. unfold ns. rewrite resolveNamespace_eq. fold (flagOf store).
  set (A := nsOf sid store). set (b1 := provision A (flagOf store) b).
  assert (is_Some (vfs_sessions b1 !! A)) as Hsess by by apply provision_session.
  unfold bind at 1. unfold getNode at 1.
  destruct (vfs_nodes b1 !! (A, src)); simpl; [|done].
  unfold bind at 1. unfold getNode at 1.
  destruct (vfs_nodes b1 !! (A, dest)); simpl; [done|].
  unfold bind at 1. destruct (String.eqb (parentPath dest) "/"); [done|].
  unfold ensureParents. by rewrite for_each_insertDir.
Qed.

Lemma allFilePaths_eq collate A b :
  allFilePaths collate A b = (inr (file_paths collate A b), b).
Proof. done. Qed.

Lemma file_rows_provision A B flag b : file_rows A (provision B flag b) = file_rows A b.
Proof.
  unfold file_rows, provision. destruct (decide _); [done|]. simpl.
  destruct (vfs_nodes b !! (B, "/")) eqn:E; [done|].
  apply map_filter_insert_not'.
  - by intros [_ ?].
  - intros y. by rewrite E.
Qed.

Lemma file_paths_provision collate A B flag b :
  file_paths collate A (provision B flag b) = file_paths collate A b.
Proof. unfold file_paths. by rewrite file_rows_provision. Qed.

Lemma ordered_perm {X} (cmp : X → X → Z) (l : list X) : ordered cmp l ≡ₚ l.
Proof. apply sort_perm. Qed.

Lemma length_file_paths collate A b : length (file_paths collate A b) = size (file_rows A b).
Proof.
  unfold file_paths. by rewrite ordered_perm, length_map, length_map_to_list.
Qed.

Lemma elem_of_file_paths collate A b q :
  q ∈ file_paths collate A b ↔ ∃ r, vfs_nodes b !! (A, q) = Some r ∧ node_type r = file.
Proof.
  unfold file_paths. rewrite ordered_perm, list_elem_of_fmap. split.
  - intros ([[a q'] r] & -> & Hin). simpl.
    apply elem_of_map_to_list, map_lookup_filter_Some in Hin as [Hl [Ha Hf]].
    simpl in *. subst. eauto.
  - intros (r & Hl & Hf). exists ((A, q), r). split; [done|].
    apply elem_of_map_to_list, map_lookup_filter_Some. done.
Qed.

Lemma StronglySorted_list_filter {X} (R : relation X) (f : X → bool) l :
  StronglySorted R l → StronglySorted R (List.filter f l).
Proof.
  induction 1 as [|x l Hl IH Hx]; simpl; [constructor|].
  destruct (f x); [|done]. constructor; [done|].
  apply Forall_forall. intros y [Hy _]%list_elem_of_In%filter_In.
  rewrite Forall_forall in Hx. by apply Hx, list_elem_of_In.
Qed.

Lemma NoDup_list_filter {X} (f : X → bool) l : NoDup l → NoDup (List.filter f l).
Proof.
  induction 1 as [|x l Hx Hl IH]; simpl; [constructor|].
  destruct (f x); [|done]. constructor; [|done].
  intros [Hin _]%list_elem_of_In%filter_In. by apply Hx, list_elem_of_In.
Qed.

(** A list put in the order of a total preorder is sorted by it. *)
Lemma ordered_sorted {X} (cmp : X → X → Z) (l : list X) :
  total_preorder cmp → StronglySorted (cmp_le cmp) (ordered cmp l).
Proof. intros [Htot Htrans]. by apply sort_sorted. Qed.

Lemma file_paths_sorted collate A b :
  total_preorder collate → StronglySorted (cmp_le collate) (file_paths collate A b).
Proof. apply ordered_sorted. Qed.

Lemma file_paths_NoDup collate A b : NoDup (file_paths collate A b).
Proof.
  unfold file_paths. rewrite ordered_perm.
  assert (NoDup ((map_to_list (file_rows A b)).*1)) as H by apply NoDup_fst_map_to_list.
  apply NoDup_fmap_1 in H as H'.
  apply (NoDup_fmap_2_strong (fun kr : (string * string) * Row => kr.1.2)); [|done].
  intros [[a1 q1] r1] [[a2 q2] r2] H1 H2 Hq. simpl in Hq. subst q2.
  apply elem_of_map_to_list in H1 as H1', H2 as H2'.
  apply map_lookup_filter_Some in H1' as [Hl1 [Ha1 _]], H2' as [Hl2 [Ha2 _]].
  simpl in *. subst. congruence.
Qed.

Lemma glob_eq picomatch collate sid pattern store b :
  glob picomatch collate sid pattern store b =
  let A := nsOf sid store in
  let b1 := provision A (flagOf store) b in
  if (MAX_GLOB_PATHS <? Z.of_nat (size (file_rows A b)))%Z
  then (inl (EVfs EINVAL), b1)
  else match picomatch pattern with
       | Some isMatch => (inr (List.filter isMatch (file_paths collate A b)), b1)
       | None => (inl EMatcher, b1)
       end.
Proof.
  unfold glob. unfold bind at 1. unfold ns. rewrite resolveNamespace_eq.
  fold (flagOf store). unfold bind at 1. rewrite allFilePaths_eq.
  cbv zeta. rewrite file_paths_provision, length_file_paths.
  destruct (MAX_GLOB_PATHS <? _)%Z; [done|]. by destruct (picomatch pattern).
Qed.

End OpFacts.

(** ** The [UPDATE] of [moveNode], row by row *)

Module UpdateFacts.
Import Js Paths Sql Storage Vfs Spec Terms PathFacts SortFacts StorageFacts OpFacts.
Local Open Scope vfs_scope.

Local Abbreviation Key := (string * string)%type.
Local Abbreviation Plan := (list (Key * Key * Row)).
Local Abbreviation Table := (gmap Key Row).

Lemma rewrite_row_Some (x : Key * Key * Row) (m m1 : Table) :
  rewrite_row x m = Some m1 ↔
  (x.1.1 = x.1.2 ∨ m !! x.1.2 = None) ∧ m1 = <[x.1.2 := x.2]> (delete x.1.1 m).
Proof.
  unfold rewrite_row. case_bool_decide as H.
  - split; [done|]. intros [[E|E] _]; destruct H as [Hne [r Hr]]; congruence.
  - split.
    + intros [= <-]. split; [|done].
      destruct (decide (x.1.1 = x.1.2)); [by left|]. right.
      destruct (m !! x.1.2) eqn:E; [|done]. destruct H. eauto.
    + by intros [_ ->].
Qed.

(** A row that the statement does not rewrite stays, whatever the new
    paths: a row that came to its path would violate the constraint. *)
Lemma rewrite_rows_keeps (L : Plan) (m m' : Table) (k : Key) (r : Row) :
  rewrite_rows L m = Some m' → (∀ x, x ∈ L → x.1.1 ≠ k) →
  m !! k = Some r → m' !! k = Some r.
Proof.
  revert m. induction L as [|x L IH]; intros m; simpl; [by intros [= <-]|].
  destruct (rewrite_row x m) as [m1|] eqn:E; [|done].
  apply rewrite_row_Some in E as [Hc ->]. intros HL Hold Hk.
  apply (IH _ HL); [intros y Hy; apply Hold; by right|].
  assert (x.1.1 ≠ k) as Hne by (apply Hold; by left).
  destruct Hc as [Hc|Hc].
  - rewrite lookup_insert_ne by congruence. by rewrite lookup_delete_ne.
  - rewrite lookup_insert_ne by congruence. by rewrite lookup_delete_ne.
Qed.



(** A plan free of conflicts goes through in any order of its rows. *)
Lemma rewrite_rows_free (L : Plan) (m : Table) :
  NoDup (List.map (fun x => x.1.1) L) → NoDup (List.map (fun x => x.1.2) L) →
  (∀ x, x ∈ L → m !! x.1.1 = Some x.2) →
  (∀ x, x ∈ L → x.1.1 = x.1.2 ∨ m !! x.1.2 = None) →
  rewrite_rows L m
  = Some (list_to_map (List.map (fun x => (x.1.2, x.2)) L)
          ∪ filter (fun kr : Key * Row => kr.1 ∉ List.map (fun x => x.1.1) L) m).
Proof.
  revert m. induction L as [|x L IH]; intros m Ho Hn Hrow Hfree; simpl.
  { f_equal. rewrite (left_id_L ∅ (∪)). symmetry. apply map_filter_id.
    intros k r _. simpl. apply not_elem_of_nil. }
  apply NoDup_cons in Ho as [Hxo Ho]. apply NoDup_cons in Hn as [Hxn Hn].
  assert (rewrite_row x m = Some (<[x.1.2 := x.2]> (delete x.1.1 m))) as ->.
  { apply rewrite_row_Some. split; [|done]. apply Hfree. by left. }
  assert (∀ y, y ∈ L → y.1.1 ≠ x.1.1) as Hoo.
  { intros y Hy E. apply Hxo. rewrite <- E. apply list_elem_of_fmap. by exists y. }
  assert (∀ y, y ∈ L → y.1.2 ≠ x.1.2) as Hnn.
  { intros y Hy E. apply Hxn. rewrite <- E. apply list_elem_of_fmap. by exists y. }
  assert (∀ y, y ∈ L → y.1.1 ≠ x.1.2) as Hon.
  { intros y Hy E. destruct (Hfree x) as [H|H]; [by left| |].
    - apply (Hoo y Hy). congruence.
    - rewrite <- E, (Hrow y) in H by by right. done. }
  rewrite IH; [|done|done| |].
  - f_equal. apply map_eq. intros k. rewrite !lookup_union.
    destruct (decide (k = x.1.2)) as [->|Hk].
    + rewrite lookup_insert_eq.
      rewrite (not_elem_of_list_to_map_1 _ x.1.2); last first.
      { rewrite <- list_fmap_compose. intros (y & E & Hy)%list_elem_of_fmap.
        by apply (Hnn y Hy). }
      assert (filter (fun kr : Key * Row => kr.1 ∉ List.map (fun x => x.1.1) L)
                (<[x.1.2:=x.2]> (delete x.1.1 m)) !! x.1.2 = Some x.2) as ->.
      { apply map_lookup_filter_Some. rewrite lookup_insert_eq. split; [done|]. simpl.
        intros (y & E & Hy)%list_elem_of_fmap. by apply (Hon y Hy). }
      by destruct (filter _ m !! x.1.2).
    + rewrite lookup_insert_ne by done. f_equal.
      rewrite !map_lookup_filter, lookup_insert_ne by done.
      destruct (decide (k = x.1.1)) as [->|Hk'].
      * rewrite lookup_delete_eq. simpl.
        destruct (m !! x.1.1); [|done]. simpl. rewrite option_guard_False; [done|].
        simpl. intros H. apply H. by left.
      * rewrite lookup_delete_ne by done. destruct (m !! k) as [r|]; [|done]. simpl.
        apply option_guard_iff. simpl. rewrite not_elem_of_cons. tauto.
  - intros y Hy. rewrite lookup_insert_ne by (intros E; by apply (Hon y Hy)).
    rewrite lookup_delete_ne by (intros E; by apply (Hoo y Hy)). apply Hrow. by right.
  - intros y Hy. destruct (Hfree y) as [H|H]; [by right|by left|]. right.
    rewrite lookup_insert_ne by (intros E; by apply (Hnn y Hy)).
    destruct (decide (x.1.1 = y.1.2)) as [->|Hne]; [by rewrite lookup_delete_eq|].
    by rewrite lookup_delete_ne.
Qed.

Lemma move_plan_elem_of A src dest b x :
  x ∈ move_plan A src dest b ↔
  vfs_nodes b !! x.1.1 = Some x.2 ∧ subtree_row A src x.1.1
  ∧ x.1.2 = moved_key src dest x.1.1.
Proof.
  unfold move_plan. rewrite list_elem_of_fmap. split.
  - intros ([k r] & -> & Hin). simpl.
    by apply elem_of_map_to_list, map_lookup_filter_Some in Hin as [? ?].
  - destruct x as [[k k'] r]. simpl. intros (Hl & Hs & ->). exists (k, r).
    split; [done|]. by apply elem_of_map_to_list, map_lookup_filter_Some.
Qed.

Lemma move_plan_olds_NoDup A src dest b :
  NoDup (List.map (fun x => x.1.1) (move_plan A src dest b)).
Proof.
  unfold move_plan. rewrite map_map. simpl. apply NoDup_fst_map_to_list.
Qed.

Lemma elem_of_move_plan_olds A src dest b k :
  k ∈ List.map (fun x => x.1.1) (move_plan A src dest b)
  ↔ is_Some (vfs_nodes b !! k) ∧ subtree_row A src k.
Proof.
  rewrite list_elem_of_fmap. split.
  - intros (x & -> & (Hl & Hs & _)%move_plan_elem_of). eauto.
  - intros [[r Hr] Hs]. exists (k, moved_key src dest k, r). split; [done|].
    by apply move_plan_elem_of.
Qed.

(** The order of the rows is an order of the plan. *)
Lemma ordered_plan row_order (P : Plan) :
  ordered (fun x y : Key * Key * Row => row_order x.1.1 y.1.1) P ≡ₚ P.
Proof. apply ordered_perm. Qed.

(** When the plan is free of conflicts [moveNode] succeeds in every
    order of the rows, and leaves the same table. *)
Lemma moveNode_free row_order A src dest b :
  may_conflict b (move_plan A src dest b) = false →
  moveNode row_order A src dest b = (inr tt, moved A src dest b).
Proof.
  unfold may_conflict. intros [Hn Hf]%orb_false_elim.
  apply bool_decide_eq_false in Hn. apply dec_stable in Hn.
  unfold moveNode. cbv zeta.
  set (P := move_plan A src dest b) in *.
  pose proof (ordered_plan row_order P) as HL.
  set (L := ordered _ P) in *.
  rewrite (rewrite_rows_free L).
  - unfold moved, set_nodes. do 2 f_equal. f_equal.
    + apply list_to_map_proper; [|by rewrite HL].
      rewrite <- list_fmap_compose.
      change (NoDup (List.map (fun x : Key * Key * Row => x.1.2) L)). by rewrite HL.
    + apply map_filter_ext. intros k r Hk. simpl. rewrite HL.
      unfold P. rewrite elem_of_move_plan_olds. split.
      * intros H Hs. apply H. eauto.
      * intros H [_ Hs]. done.
  - rewrite HL. apply move_plan_olds_NoDup.
  - by rewrite HL.
  - intros x Hx. rewrite HL in Hx. by apply move_plan_elem_of in Hx as [? _].
  - intros x Hx. rewrite HL in Hx.
    assert (negb (bool_decide (x.1.1 = x.1.2))
            && bool_decide (is_Some (vfs_nodes b !! x.1.2)) = false) as Hx'.
    { destruct (negb _ && _) eqn:E; [|done].
      assert (existsb (fun x : Key * Key * Row =>
                negb (bool_decide (x.1.1 = x.1.2))
                && bool_decide (is_Some (vfs_nodes b !! x.1.2))) P = true) as Hex;
        [|congruence].
      apply existsb_exists. exists x. split; [|done]. by apply list_elem_of_In. }
    apply andb_false_iff in Hx' as [Hx'|Hx'].
    + left. apply negb_false_iff, bool_decide_eq_true in Hx'. done.
    + right. apply bool_decide_eq_false in Hx'.
      destruct (vfs_nodes b !! x.1.2) eqn:E; [|done]. destruct Hx'. eauto.
Qed.

(** A [move] that passes the tests of [VirtualFS] and has a plan free
    of conflicts. *)
Lemma move_unconflicted row_order sid store source destination src dest b r :
  wf b →
  validatePath (JsString source) = inr src →
  validatePath (JsString destination) = inr dest →
  src ≠ "/" → dest ≠ "/" → startsWith dest (src +:+ "/") = false →
  vfs_nodes b !! (nsOf sid store, src) = Some r →
  vfs_nodes b !! (nsOf sid store, dest) = None →
  let base := move_base (nsOf sid store) dest (flagOf store) b in
  may_conflict base (move_plan (nsOf sid store) src dest base) = false →
  move row_order sid source destination store b
  = (inr tt, moved (nsOf sid store) src dest base).
Proof.
  intros Hwf Hs Hd Hsn Hdn Hin Hr Hfree base Hc.
  rewrite (move_eq _ _ _ _ _ _ _ _ Hwf Hs Hd).
  rewrite (proj2 (String.eqb_neq _ _) Hsn), (proj2 (String.eqb_neq _ _) Hdn), Hin.
  cbv zeta. simpl orb. cbv iota.
  rewrite !provision_lookup_nonroot, Hr, Hfree by done.
  by apply moveNode_free.
Qed.


End UpdateFacts.

(** ** The invariant of the cache of namespaces *)

Module Invariant.
Import Js Paths Sql Storage Vfs Spec PathFacts StorageFacts OpFacts.
Local Open Scope vfs_scope.





Lemma wf_set_nodes f b : wf b → wf (set_nodes f b).
Proof. done. Qed.











End Invariant.

(** ** Errors of the operations, and their results on paths safe in a [LIKE] pattern *)

Module Outcomes.
Import Js Paths Sql Storage Vfs Spec PathFacts LikeFacts SortFacts StorageFacts OpFacts.
Local Open Scope vfs_scope.

(** An invalid path fails every operation before the backend is touched. *)
Lemma invalid_path_fails_first localeCompare row_order sid input c store e b :
  validatePath (JsString input) = inl e →
  stat sid input store b = (inl (EPath e), b) ∧
  read sid input store b = (inl (EPath e), b) ∧
  write sid input c store b = (inl (EPath e), b) ∧
  append sid input c store b = (inl (EPath e), b) ∧
  ls localeCompare row_order sid input store b = (inl (EPath e), b) ∧
  mkdir sid input store b = (inl (EPath e), b) ∧
  rm sid input store b = (inl (EPath e), b).
Proof.
  intros H. unfold stat, read, write, append, ls, mkdir, rm, bind.
  by rewrite (validated_fail _ _ _ H).
Qed.

(** The errors of [move], in the order the code tests them. *)
Lemma move_errors row_order sid store source destination src dest b :
  wf b →
  validatePath (JsString source) = inr src →
  validatePath (JsString destination) = inr dest →
  let A := nsOf sid store in
  let r := fst (move row_order sid source destination store b) in
  (src = "/" ∨ dest = "/" ∨ startsWith dest (src +:+ "/") = true → r = inl (EVfs EINVAL)) ∧
  (src ≠ "/" → dest ≠ "/" → startsWith dest (src +:+ "/") = false →
   (vfs_nodes b !! (A, src) = None → r = inl (EVfs ENOENT)) ∧
   (is_Some (vfs_nodes b !! (A, src)) → is_Some (vfs_nodes b !! (A, dest)) →
    r = inl (EVfs EEXIST))).
Proof.
  intros Hwf Hs Hd A r. unfold r. rewrite (move_eq _ _ _ _ _ _ _ _ Hwf Hs Hd). split.
  - intros [-> | [-> | ->]]; [done| |].
    + by rewrite orb_true_r.
    + by rewrite orb_true_r.
  - intros Hs' Hd' Hsw.
    rewrite (proj2 (String.eqb_neq _ _) Hs'), (proj2 (String.eqb_neq _ _) Hd'), Hsw.
    cbv zeta. simpl. fold A.
    rewrite !provision_lookup_nonroot by done.
    split.
    + by intros ->.
    + by intros [? ->] [? ->].
Qed.

(** The errors of [rm]. *)
Lemma rm_errors sid store input p b :
  validatePath (JsString input) = inr p →
  (p = "/" → fst (rm sid input store b) = inl (EVfs EINVAL)) ∧
  (p ≠ "/" → vfs_nodes b !! (nsOf sid store, p) = None →
   fst (rm sid input store b) = inl (EVfs ENOENT)).
Proof.
  intros Hv. rewrite (rm_eq _ _ _ _ _ Hv). split.
  - by intros ->.
  - intros Hp Hn. apply String.eqb_neq in Hp as Hp'. rewrite Hp'. cbv zeta.
    by rewrite provision_lookup_nonroot, Hn.
Qed.

(** [stat] of a missing path and of a file. *)
Lemma stat_absent_and_file sid store input p b :
  validatePath (JsString input) = inr p → p ≠ "/" →
  (vfs_nodes b !! (nsOf sid store, p) = None →
   fst (stat sid input store b) = inr (mkStat false None None None)) ∧
  (∀ c, vfs_nodes b !! (nsOf sid store, p) = Some (mkRow file c) →
        fst (stat sid input store b)
        = inr (mkStat true (Some file) (Some (String.length (default "" c))) None)).
Proof.
  intros Hv Hp. rewrite (stat_eq _ _ _ _ _ Hv). cbv zeta. simpl.
  rewrite provision_lookup_nonroot by done. split.
  - by intros ->.
  - by intros c ->.
Qed.

(** The errors of [ls]. *)
Lemma ls_errors localeCompare row_order sid store input p b :
  validatePath (JsString input) = inr p → p ≠ "/" →
  (vfs_nodes b !! (nsOf sid store, p) = None →
   fst (ls localeCompare row_order sid input store b) = inl (EVfs ENOENT)) ∧
  (∀ c, vfs_nodes b !! (nsOf sid store, p) = Some (mkRow file c) →
        fst (ls localeCompare row_order sid input store b) = inl (EVfs ENOTDIR)).
Proof.
  intros Hv Hp. rewrite (ls_eq _ _ _ _ _ _ _ Hv). cbv zeta.
  rewrite provision_lookup_nonroot by done. split.
  - by intros ->.
  - by intros c ->.
Qed.

Lemma subtree_row_in_subtree A p k :
  like_safe p → subtree_row A p k ↔ in_subtree A p k.
Proof.
  intros Hp. rewrite subtree_row_safe by done. unfold in_subtree.
  rewrite andb_True, orb_True, !Is_true_true, !String.eqb_eq. done.
Qed.

Lemma child_row_is_child A d k :
  like_safe d → child_row A d k ↔ is_child A d k.
Proof.
  intros Hd. rewrite child_row_safe by done. unfold is_child, free_of.
  set (prefix := if String.eqb d "/" then "/" else d +:+ "/").
  rewrite Is_true_true, !andb_true_iff, negb_true_iff, String.eqb_eq, String.eqb_neq.
  split.
  - intros [[HA Hn] Hne]. split_and!; [done..|].
    destruct (strip_prefix prefix k.2) as [name|] eqn:E; [|done].
    exists name. split; [by apply strip_prefix_Some|]. by apply negb_true_iff.
  - intros (HA & Hne & name & Hk & Hfree). split_and!; [done| |done].
    apply strip_prefix_Some in Hk. rewrite Hk. by apply negb_true_iff.
Qed.

(** [rm] on a path without [LIKE] metacharacters: the node and its
    strict descendants, and no other row, are deleted and counted. *)
Lemma rm_safe sid store input p b :
  validatePath (JsString input) = inr p → p ≠ "/" → like_safe p →
  is_Some (vfs_nodes b !! (nsOf sid store, p)) →
  let A := nsOf sid store in
  let b1 := provision A (flagOf store) b in
  ∃ b', rm sid input store b
        = (inr (size (filter (fun kr : (string * string) * Row => in_subtree A p kr.1)
                             (vfs_nodes b1))), b')
        ∧ ∀ k, vfs_nodes b' !! k
               = if decide (in_subtree A p k) then None else vfs_nodes b1 !! k.
Proof.
  intros Hv Hp Hsafe [r Hr]. cbv zeta. rewrite (rm_eq _ _ _ _ _ Hv).
  rewrite (proj2 (String.eqb_neq _ _) Hp). cbv zeta.
  rewrite provision_lookup_nonroot, Hr by done.
  set (A := nsOf sid store). set (b1 := provision A (flagOf store) b).
  unfold deleteNode. eexists. split.
  - do 3 f_equal. apply map_filter_ext. intros k x _. simpl.
    by apply subtree_row_in_subtree.
  - intros k. simpl. rewrite map_lookup_filter.
    destruct (vfs_nodes b1 !! k) as [x|]; simpl; [|by case_decide].
    destruct (decide (in_subtree A p k)) as [Hin|Hout].
    + rewrite option_guard_False; [done|]. simpl. intros Hneg. apply Hneg.
      by apply subtree_row_in_subtree.
    + rewrite option_guard_True; [done|]. simpl. intros Hs. apply Hout.
      by apply subtree_row_in_subtree.
Qed.

(** The rows that [stat] counts and [ls] lists for a directory without
    [LIKE] metacharacters in its path: its immediate children. *)
Lemma children_safe A d b k r :
  like_safe d →
  children A d b !! k = Some r ↔ vfs_nodes b !! k = Some r ∧ is_child A d k.
Proof.
  intros Hd. unfold children. rewrite map_lookup_filter_Some. simpl.
  by rewrite child_row_is_child.
Qed.

(** The rows that [move] rewrites for a source without [LIKE]
    metacharacters: the node and its strict descendants, each to the
    destination followed by what came after the source. *)
Lemma move_plan_safe A src dest b x :
  like_safe src →
  x ∈ move_plan A src dest b ↔
  vfs_nodes b !! x.1.1 = Some x.2 ∧ in_subtree A src x.1.1 ∧
  ∃ rest, x.1.1 = (A, src +:+ rest) ∧ x.1.2 = (A, dest +:+ rest).
Proof.
  intros Hs. unfold move_plan. rewrite list_elem_of_fmap. split.
  - intros ([k r] & -> & Hin). simpl.
    apply elem_of_map_to_list, map_lookup_filter_Some in Hin as [Hl Hsub].
    simpl in Hsub. apply subtree_row_in_subtree in Hsub as Hsub'; [|done].
    split_and!; [done..|].
    destruct k as [a q]. destruct Hsub' as [Ha [Hq|Hq]]; simpl in *; subst.
    + exists "". pose proof (moved_key_app src dest A "") as H.
      by rewrite !string_app_nil_r in *.
    + rewrite strip_prefix_startsWith in Hq.
      destruct (strip_prefix (src +:+ "/") q) as [rest|] eqn:E; [|done].
      apply strip_prefix_Some in E as ->. rewrite string_app_assoc.
      exists ("/" +:+ rest). split; [done|]. apply moved_key_app.
  - intros (Hl & Hsub & rest & Hk & Hk'). destruct x as [[k k'] r]. simpl in *.
    exists (k, r). split.
    + simpl. subst. by rewrite moved_key_app.
    + apply elem_of_map_to_list, map_lookup_filter_Some. split; [done|].
      simpl. by apply subtree_row_in_subtree.
Qed.

(** [stat] of a directory whose path has no [LIKE] metacharacter: the
    count is that of its immediate children. *)
Lemma stat_directory_safe sid store input p b c :
  validatePath (JsString input) = inr p → like_safe p →
  let A := nsOf sid store in
  let b1 := provision A (flagOf store) b in
  vfs_nodes b1 !! (A, p) = Some (mkRow directory c) →
  fst (stat sid input store b)
  = inr (mkStat true (Some directory) None (Some (size (children A p b1))))
  ∧ ∀ k r, children A p b1 !! k = Some r ↔ vfs_nodes b1 !! k = Some r ∧ is_child A p k.
Proof.
  intros Hv Hsafe A b1 Hd. rewrite (stat_eq _ _ _ _ _ Hv). cbv zeta. fold A b1.
  rewrite Hd. split; [done|]. intros k r. by apply children_safe.
Qed.

(** [ls] of such a directory: its immediate children, directories
    first and by name within each kind when [localeCompare] is a total
    preorder. *)
Lemma ls_directory_safe localeCompare row_order sid store input p b c :
  validatePath (JsString input) = inr p → like_safe p →
  (∀ x y, (localeCompare x y ≤ 0)%Z ∨ (localeCompare y x ≤ 0)%Z) →
  (∀ x y z, (localeCompare x y ≤ 0)%Z → (localeCompare y z ≤ 0)%Z →
            (localeCompare x z ≤ 0)%Z) →
  let A := nsOf sid store in
  let b1 := provision A (flagOf store) b in
  vfs_nodes b1 !! (A, p) = Some (mkRow directory c) →
  ∃ entries,
    fst (ls localeCompare row_order sid input store b) = inr entries
    ∧ entries ≡ₚ List.map (fun kr : (string * string) * Row =>
                             mkEntry (basename kr.1.2) (node_type kr.2))
                          (map_to_list (children A p b1))
    ∧ StronglySorted (cmp_le (ls_compare localeCompare)) entries
    ∧ ∀ k r, children A p b1 !! k = Some r ↔ vfs_nodes b1 !! k = Some r ∧ is_child A p k.
Proof.
  intros Hv Hsafe Htot Htrans A b1 Hd. rewrite (ls_eq _ _ _ _ _ _ _ Hv).
  cbv zeta. fold A b1. rewrite Hd. eexists. split; [done|].
  destruct (ls_sorted localeCompare
              (List.map (fun kr : (string * string) * Row =>
                           mkEntry (basename kr.1.2) (node_type kr.2))
                        (scan row_order (children A p b1))) Htot Htrans) as [Hp Hs].
  split_and!; [|done|].
  - rewrite Hp. unfold scan. by rewrite ordered_perm.
  - intros k r. by apply children_safe.
Qed.

End Outcomes.

(** ** Namespaces do not interfere *)

Module Isolation.
Import Js Paths Sql Storage Vfs Spec PathFacts SortFacts StorageFacts OpFacts UpdateFacts.
Local Open Scope vfs_scope.

Lemma ns_filter_lookup (A : string) (m : gmap (string * string) Row) k :
  filter (fun kr : (string * string) * Row => kr.1.1 = A) m !! k
  = if decide (k.1 = A) then m !! k else None.
Proof.
  rewrite map_lookup_filter. destruct (m !! k); simpl; [|by case_decide].
  destruct (decide (k.1 = A)); [by rewrite option_guard_True|by rewrite option_guard_False].
Qed.

Lemma restrict_nodes_lookup_any A b k :
  vfs_nodes (restrict A b) !! k = if decide (k.1 = A) then vfs_nodes b !! k else None.
Proof. apply ns_filter_lookup. Qed.


Lemma restrict_nodes_lookup_ne A b k :
  k.1 ≠ A → vfs_nodes (restrict A b) !! k = None.
Proof. intros Hk. rewrite restrict_nodes_lookup_any. by rewrite decide_False. Qed.














Section Primitives.
Context (A : string).





















End Primitives.

Section PrimitiveFrames.
Context (A : string).
















End PrimitiveFrames.







Section Calls.
Context (localeCompare : string → string → Z)
        (picomatch : string → option (string → bool))
        (regexp_compiles : string → bool)
        (regex_match : string → option (string → bool))
        (collate : string → string → Z)
        (row_order : string * string → string * string → Z).

Local Abbreviation run :=
  (run localeCompare picomatch regexp_compiles regex_match collate row_order).



End Calls.


End Isolation.

(** ** A path keeps its kind *)

Module Kinds.
Import Js Paths Sql Storage Vfs Spec PathFacts StorageFacts OpFacts UpdateFacts Isolation.
Local Open Scope vfs_scope.

Lemma keeps_rows_refl b : keeps_rows b b.
Proof. intros k r H. eauto. Qed.

Lemma keeps_rows_trans b1 b2 b3 : keeps_rows b1 b2 → keeps_rows b2 b3 → keeps_rows b1 b3.
Proof.
  intros H12 H23 k r H. destruct (H12 k r H) as (r' & H' & E').
  destruct (H23 k r' H') as (r'' & H'' & E''). exists r''. split; [done|congruence].
Qed.

Lemma keeps_rows_stable b1 b2 b3 : keeps_rows b1 b2 → kind_stable b2 b3 → kind_stable b1 b3.
Proof.
  intros H12 H23 k r r3 H H3. destruct (H12 k r H) as (r' & H' & E').
  rewrite <- E'. by apply (H23 k).
Qed.

Lemma Grows_ret {X} (x : X) : Grows (ret x).
Proof. intros b. apply keeps_rows_refl. Qed.

Lemma Grows_throw {X} e : Grows (@throw X e).
Proof. intros b. apply keeps_rows_refl. Qed.

Lemma Grows_pure {X} (f : Backend → Error + X) : Grows (fun b => (f b, b)).
Proof. intros b. apply keeps_rows_refl. Qed.

Lemma Grows_bind {X Y} (m : M X) (k : X → M Y) :
  Grows m → (∀ x, Grows (k x)) → Grows (bind m k).
Proof.
  intros Hm Hk b. unfold bind. specialize (Hm b).
  destruct (m b) as [[e|x] b']; simpl in *; [done|].
  eapply keeps_rows_trans; [done|apply Hk].
Qed.

Lemma Stable_of_Grows {X} (m : M X) : Grows m → Stable m.
Proof.
  intros Hm b k r r' H H'. destruct (Hm b k r H) as (r'' & H'' & E). congruence.
Qed.

Lemma Stable_bind {X Y} (m : M X) (k : X → M Y) :
  Grows m → (∀ x, Stable (k x)) → Stable (bind m k).
Proof.
  intros Hm Hk b. unfold bind. specialize (Hm b).
  destruct (m b) as [[e|x] b']; simpl in *.
  - intros k' r r' H H'. destruct (Hm k' r H) as (r'' & H'' & E). congruence.
  - eapply keeps_rows_stable; [done|apply Hk].
Qed.

Lemma Stable_bind_ret {X Y} (m : M X) (f : X → Y) :
  Stable m → Stable (bind m (fun x => ret (f x))).
Proof.
  intros Hm b. unfold bind. specialize (Hm b).
  by destruct (m b) as [[e|x] b'].
Qed.

Lemma keeps_rows_insert b k r :
  (∀ r0, vfs_nodes b !! k = Some r0 → node_type r = node_type r0) →
  keeps_rows b (set_nodes (insert k r) b).
Proof.
  intros Hk k' r' H. simpl. destruct (decide (k = k')) as [<-|Hne].
  - rewrite lookup_insert_eq. eauto.
  - rewrite lookup_insert_ne by done. eauto.
Qed.

Lemma Grows_insert_row A p r :
  (∀ b r0, vfs_nodes b !! (A, p) = Some r0 → node_type r = node_type r0) →
  Grows (insert_row A p r).
Proof.
  intros Hr b. unfold insert_row. destruct (vfs_sessions b !! A); simpl.
  - apply keeps_rows_insert. apply Hr.
  - apply keeps_rows_refl.
Qed.

Lemma Grows_insertDir A p : Grows (insertDir A p).
Proof.
  intros b. unfold insertDir, insert_row. destruct (vfs_nodes b !! (A, p)) eqn:E.
  - apply keeps_rows_refl.
  - destruct (vfs_sessions b !! A); simpl; [|apply keeps_rows_refl].
    apply keeps_rows_insert. intros r0. by rewrite E.
Qed.

Lemma Grows_reads {X} (m : M X) : (∀ b, snd (m b) = b) → Grows m.
Proof. intros Hm b. rewrite Hm. apply keeps_rows_refl. Qed.

Lemma Grows_grepContent collate rx A pattern pathFilter :
  Grows (grepContent collate rx A pattern pathFilter).
Proof. apply Grows_reads. intros b. unfold grepContent. by repeat case_match. Qed.

Lemma Grows_upsertFile A p c : Grows (upsertFile A p c).
Proof.
  intros b. unfold upsertFile, insert_row.
  destruct (is_text c); [|apply keeps_rows_refl].
  destruct (vfs_nodes b !! (A, p)) eqn:E; simpl.
  - apply keeps_rows_insert. intros r0. rewrite E. by intros [= ->].
  - destruct (vfs_sessions b !! A); simpl; [|apply keeps_rows_refl].
    apply keeps_rows_insert. intros r0. by rewrite E.
Qed.

Lemma Grows_appendFile A p c : Grows (appendFile A p c).
Proof.
  intros b. unfold appendFile, insert_row.
  destruct (is_text c); [|apply keeps_rows_refl].
  destruct (vfs_nodes b !! (A, p)) eqn:E; simpl.
  - apply keeps_rows_insert. intros r0. rewrite E. by intros [= ->].
  - destruct (vfs_sessions b !! A); simpl; [|apply keeps_rows_refl].
    apply keeps_rows_insert. intros r0. by rewrite E.
Qed.

Lemma Grows_for_each {X} (f : X → M unit) l : (∀ x, Grows (f x)) → Grows (for_each f l).
Proof.
  intros Hf. induction l as [|x l IH]; simpl; [apply Grows_ret|].
  apply Grows_bind; [apply Hf|by intros _].
Qed.

Lemma Grows_ns sid store : Grows (ns sid store).
Proof.
  intros b k r H. unfold ns. rewrite resolveNamespace_eq. simpl.
  exists r. split; [|done]. by rewrite provision_lookup, H.
Qed.

Lemma Stable_deleteNode A p : Stable (deleteNode A p).
Proof.
  intros b k r r' H H'. unfold deleteNode in H'. simpl in H'.
  apply map_lookup_filter_Some in H' as [H' _]. congruence.
Qed.

Ltac grows :=
  repeat first
    [ apply Grows_ret | apply Grows_throw | apply Grows_ns
    | apply Grows_insertDir | apply Grows_upsertFile | apply Grows_appendFile
    | apply Grows_grepContent
    | apply Grows_pure
    | apply Grows_for_each; intros ?
    | apply Grows_bind; [|intros ?]
    | match goal with
      | |- Grows (if ?c then _ else _) => destruct c
      | |- Grows (match ?x with _ => _ end) => destruct x
      end ].

Ltac stable :=
  repeat first
    [ apply Stable_deleteNode
    | apply Stable_bind_ret
    | apply Stable_bind; [solve [grows]|intros ?]
    | match goal with
      | |- Stable (if ?c then _ else _) => destruct c
      | |- Stable (match ?x with _ => _ end) => destruct x
      end
    | apply Stable_of_Grows; solve [grows] ].

Section Calls.
Context (localeCompare : string → string → Z)
        (picomatch : string → option (string → bool))
        (regexp_compiles : string → bool)
        (regex_match : string → option (string → bool))
        (collate : string → string → Z)
        (row_order : string * string → string * string → Z).

Local Abbreviation run :=
  (run localeCompare picomatch regexp_compiles regex_match collate row_order).

(** No call but [move] turns a file into a directory, or a directory
    into a file, under one path. *)
Lemma Stable_run call sid store :
  (∀ source destination, call ≠ Move source destination) →
  Stable (run call sid store).
Proof.
  intros Hcall.
  destruct call; try (by destruct (Hcall source destination));
    unfold run, stat, read, write, append, ls, mkdir, rm, glob,
      grep, validated, ensureParents, getNode, countChildren, listChildren,
      allFilePaths; stable.
Qed.

End Calls.

End Kinds.

(** ** The claims of the specification *)

Module Claims.
Import Js Paths Sql Storage Vfs Spec Terms PathFacts StorageFacts OpFacts UpdateFacts
  Isolation Kinds.
Local Open Scope vfs_scope.

(** C1 at the failing input: [validatePath] has no depth test, and
    returns the 51-segment path of the unit test as it stands. *)
Theorem validatePath_accepts_depth_51 :
  depth depth51 = 51 ∧ validatePath (JsString depth51) = inr depth51.
Proof. split; vm_compute; reflexivity. Qed.

(** C2 at the failing input: every ancestor of the path exists, the
    second write creates no row, and [created_parents] is [true]. *)
Theorem write_again_reports_created_parents :
  Forall (fun a => vfs_nodes after_first_write !! ("s", a) = Some (mkRow directory None))
         (ancestorPaths "/deep/nested/file.txt") ∧
  write "s" "/deep/nested/file.txt" "c" None after_first_write
  = (inr true, after_first_write).
Proof.
  split.
  - vm_compute. repeat constructor.
  - vm_compute. reflexivity.
Qed.




(** The tables of the three states, in the order the map lists them. *)
Lemma two_dirs_rows :
  map_to_list (vfs_nodes two_dirs)
  = [("s", "/my_dir/f.txt", mkRow file (Some "f")); ("s", "/my_dir", dirRow);
     ("s", "/my-dir/g.txt", mkRow file (Some "g")); ("s", "/my-dir", dirRow);
     ("s", "/", dirRow)].
Proof. vm_compute. reflexivity. Qed.

Lemma empty_and_full_rows :
  map_to_list (vfs_nodes empty_and_full)
  = [("s", "/my_dir", dirRow); ("s", "/my-dir/g.txt", mkRow file (Some "g"));
     ("s", "/my-dir", dirRow); ("s", "/", dirRow)].
Proof. vm_compute. reflexivity. Qed.

Lemma backslash_dir_rows :
  map_to_list (vfs_nodes backslash_dir)
  = [("s", "/a\b/c.txt", mkRow file (Some "c")); ("s", "/a\b", dirRow); ("s", "/", dirRow)].
Proof. vm_compute. reflexivity. Qed.

(** C4 at the failing inputs, in whatever order the rows are
    rewritten.  Moving [/a\b] to [/d] renames that one row and leaves
    [/a\b/c.txt] where it was; moving [/my_dir] to [/new] also carries
    [/my-dir/g.txt] to [/new/g.txt]. *)
Theorem move_misses_and_overreaches row_order :
  (fst (move row_order "s" "/a\b" "/d" None backslash_dir) = inr tt ∧
   map_to_list (vfs_nodes (snd (move row_order "s" "/a\b" "/d" None backslash_dir)))
   = [("s", "/a\b/c.txt", mkRow file (Some "c")); ("s", "/d", dirRow); ("s", "/", dirRow)]) ∧
  (fst (move row_order "s" "/my_dir" "/new" None two_dirs) = inr tt ∧
   map_to_list (vfs_nodes (snd (move row_order "s" "/my_dir" "/new" None two_dirs)))
   = [("s", "/my-dir", dirRow); ("s", "/new/g.txt", mkRow file (Some "g"));
      ("s", "/new/f.txt", mkRow file (Some "f")); ("s", "/new", dirRow); ("s", "/", dirRow)]).
Proof.
  assert (wf backslash_dir) as Hwf1 by (apply (bool_decide_unpack _); vm_compute; exact I).
  assert (wf two_dirs) as Hwf2 by (apply (bool_decide_unpack _); vm_compute; exact I).
  rewrite (move_unconflicted row_order "s" None "/a\b" "/d" "/a\b" "/d" backslash_dir dirRow
             Hwf1 eq_refl eq_refl ltac:(discriminate) ltac:(discriminate) eq_refl
             ltac:(vm_compute; reflexivity) ltac:(vm_compute; reflexivity)
             ltac:(vm_compute; reflexivity)).
  rewrite (move_unconflicted row_order "s" None "/my_dir" "/new" "/my_dir" "/new" two_dirs
             dirRow Hwf2 eq_refl eq_refl ltac:(discriminate) ltac:(discriminate) eq_refl
             ltac:(vm_compute; reflexivity) ltac:(vm_compute; reflexivity)
             ltac:(vm_compute; reflexivity)).
  repeat split; vm_compute; reflexivity.
Qed.

(** C5 at the failing inputs.  Removing [/a\b] deletes one row and
    leaves its descendant [/a\b/c.txt]; removing [/my_dir] deletes its
    two rows and also [/my-dir/g.txt], which is not under it. *)
Theorem rm_misses_and_overreaches :
  (fst (rm "s" "/a\b" None backslash_dir) = inr 1 ∧
   map_to_list (vfs_nodes (snd (rm "s" "/a\b" None backslash_dir)))
   = [("s", "/a\b/c.txt", mkRow file (Some "c")); ("s", "/", dirRow)]) ∧
  (fst (rm "s" "/my_dir" None two_dirs) = inr 3 ∧
   map_to_list (vfs_nodes (snd (rm "s" "/my_dir" None two_dirs)))
   = [("s", "/my-dir", dirRow); ("s", "/", dirRow)]).
Proof. repeat split; vm_compute; reflexivity. Qed.

(** C6 at the failing inputs.  The empty directory [/my_dir] is
    reported with one child, the [g.txt] of [/my-dir]; the directory
    [/a\b] with none, though it holds [c.txt]. *)
Theorem stat_counts_other_children :
  fst (stat "s" "/my_dir" None empty_and_full)
  = inr (mkStat true (Some directory) None (Some 1)) ∧
  fst (stat "s" "/a\b" None backslash_dir)
  = inr (mkStat true (Some directory) None (Some 0)).
Proof. split; vm_compute; reflexivity. Qed.

(** C7 at the failing inputs, for every [localeCompare] and every
    order of the rows.  The listing of the empty directory [/my_dir]
    shows the [g.txt] of [/my-dir]; the listing of [/a\b] is empty,
    though it holds [c.txt]. *)
Theorem ls_lists_other_children localeCompare row_order :
  fst (ls localeCompare row_order "s" "/my_dir" None empty_and_full)
  = inr [mkEntry "g.txt" file] ∧
  fst (ls localeCompare row_order "s" "/a\b" None backslash_dir) = inr [].
Proof. split; vm_compute; reflexivity. Qed.

(** C8, as the code has it: [glob] fails with [EINVAL] exactly when the
    namespace holds more than 10000 files; otherwise, in a namespace
    whose id has no NUL code unit, it returns for a pattern that
    [picomatch] takes the paths of the files of the namespace that the
    pattern matches, each once, and fails for a pattern that
    [picomatch] refuses with what [picomatch] throws; it changes no row
    that exists, and what it changes is the provisioning of the
    namespace: nothing when the namespace is already in the cache. *)
Theorem glob_ceiling picomatch collate sid pattern store b :
  (fst (glob picomatch collate sid pattern store b) = inl (EVfs EINVAL)
   ↔ (10000 < Z.of_nat (size (file_rows (nsOf sid store) b)))%Z) ∧
  (is_text (nsOf sid store) = true →
   (Z.of_nat (size (file_rows (nsOf sid store) b)) ≤ 10000)%Z →
   (∀ isMatch, picomatch pattern = Some isMatch →
      ∃ l, fst (glob picomatch collate sid pattern store b) = inr l ∧
           NoDup l ∧
           ∀ q, q ∈ l ↔
                isMatch q = true ∧
                ∃ r, vfs_nodes b !! (nsOf sid store, q) = Some r ∧ node_type r = file) ∧
   (picomatch pattern = None →
    fst (glob picomatch collate sid pattern store b) = inl EMatcher)) ∧
  (is_text (nsOf sid store) = true →
   snd (glob picomatch collate sid pattern store b)
   = provision (nsOf sid store) (flagOf store) b) ∧
  (nsOf sid store ∈ knownNamespaces b →
   snd (glob picomatch collate sid pattern store b) = b) ∧
  (∀ k r, vfs_nodes b !! k = Some r →
          vfs_nodes (snd (glob picomatch collate sid pattern store b)) !! k = Some r).
Proof.
  rewrite glob_eq. cbv zeta. unfold MAX_GLOB_PATHS.
  set (A := nsOf sid store). set (n := Z.of_nat (size (file_rows A b))).
  set (b1 := provision A (flagOf store) b).
  assert (snd (if (10000 <? n)%Z
               then (inl (EVfs EINVAL), b1)
               else match picomatch pattern with
                    | Some isMatch =>
                        (inr (List.filter isMatch (file_paths collate A b))
                           : Error + list string, b1)
                    | None => (inl EMatcher, b1)
                    end) = b1) as Hs.
  { destruct (10000 <? n)%Z; [done|]. by destruct (picomatch pattern). }
  rewrite Hs. split_and!.
  - destruct (Z.ltb_spec 10000 n); simpl; [done|]. split; [|lia].
    by destruct (picomatch pattern).
  - intros _ Hn. destruct (Z.ltb_spec 10000 n); [lia|]. split.
    + intros isMatch ->. eexists. split; [done|]. split.
      * apply NoDup_list_filter, file_paths_NoDup.
      * intros q. rewrite <- (elem_of_file_paths collate).
        rewrite !list_elem_of_In, filter_In. tauto.
    + by intros ->.
  - done.
  - apply provision_id.
  - intros k r H. unfold b1. by rewrite provision_lookup, H.
Qed.

Lemma glob_ceiling_witness :
  is_text (nsOf "s" None) = true ∧
  (Z.of_nat (size (file_rows (nsOf "s" None) two_dirs)) ≤ 10000)%Z ∧
  by_prefix "/my_dir" = Some (fun p => startsWith p "/my_dir") ∧
  ∃ l, fst (glob by_prefix by_code_unit "s" "/my_dir" None two_dirs) = inr l ∧
       "/my_dir/f.txt" ∈ l ∧ "/my-dir/g.txt" ∉ l.
Proof.
  assert (Z.of_nat (size (file_rows (nsOf "s" None) two_dirs)) ≤ 10000)%Z as Hn
    by (vm_compute; discriminate).
  split; [reflexivity|]. split; [done|]. split; [reflexivity|].
  destruct (glob_ceiling by_prefix by_code_unit "s" "/my_dir" None two_dirs)
    as (_ & Hin & _).
  destruct (Hin eq_refl Hn) as [Hsome _].
  destruct (Hsome (fun p => startsWith p "/my_dir") eq_refl) as (l & Hl & _ & Hmem).
  exists l. split; [done|]. split.
  - apply Hmem. split; [reflexivity|]. exists (mkRow file (Some "f")).
    split; [vm_compute|]; reflexivity.
  - intros [Hno _]%Hmem. vm_compute in Hno. discriminate Hno.
Defined.

(** C8 as stated fails on a namespace seen for the first time: the
    glob succeeds and has inserted the session row and the root
    directory.  It fails as well on a pattern that the matcher refuses,
    as [picomatch] does the empty one: within the ceiling, the glob
    returns no list. *)
Lemma glob_provisions_and_may_throw :
  let b' := snd (glob by_prefix by_code_unit "s" "**/*.ts" None empty_backend) in
  fst (glob by_prefix by_code_unit "s" "**/*.ts" None empty_backend) = inr [] ∧
  vfs_sessions empty_backend !! "s" = None ∧
  vfs_sessions b' !! "s" = Some false ∧
  vfs_nodes empty_backend !! ("s", "/") = None ∧
  vfs_nodes b' !! ("s", "/") = Some (mkRow directory None) ∧
  b' ≠ empty_backend ∧
  fst (glob by_prefix by_code_unit "s" "" None two_dirs) = inl EMatcher.
Proof.
  cbv zeta. split_and!; try (vm_compute; reflexivity).
  intros H. apply (f_equal (fun b => vfs_sessions b !! "s")) in H.
  vm_compute in H. discriminate.
Qed.




(** C10, as the code has it: with a file at an ancestor [a] of a valid
    target path [p] that no directory occupies, [write] and [append] of
    a content without a NUL code unit succeed, in a namespace whose id
    has none either; whether they succeed or not they leave the row at
    [a] as it was; [insertDir] does nothing where a row exists, file or
    directory; and no call but [move] changes the kind of the row under
    a path. *)
Theorem file_ancestor_kept
    (localeCompare : string → string → Z)
    (picomatch : string → option (string → bool))
    (regexp_compiles : string → bool)
    (regex_match : string → option (string → bool))
    (collate : string → string → Z)
    (row_order : string * string → string * string → Z)
    b sid store input c p a fr :
  wf b → validatePath (JsString input) = inr p →
  a ∈ ancestorPaths p →
  vfs_nodes b !! (nsOf sid store, a) = Some fr → node_type fr = file →
  (∀ r, vfs_nodes b !! (nsOf sid store, p) = Some r → node_type r = file) →
  (is_text (nsOf sid store) = true → is_text c = true →
   (∃ created b', write sid input c store b = (inr created, b')) ∧
   (∃ b', append sid input c store b = (inr tt, b'))) ∧
  (vfs_nodes (snd (write sid input c store b)) !! (nsOf sid store, a) = Some fr ∧
   vfs_nodes (snd (append sid input c store b)) !! (nsOf sid store, a) = Some fr) ∧
  (∀ b0 q r, vfs_nodes b0 !! (nsOf sid store, q) = Some r →
             insertDir (nsOf sid store) q b0 = (inr tt, b0)) ∧
  (∀ call sid' store' b0 k r r',
     (∀ source destination, call ≠ Move source destination) →
     vfs_nodes b0 !! k = Some r →
     vfs_nodes
       (snd (run localeCompare picomatch regexp_compiles regex_match collate row_order
               call sid' store' b0))
       !! k = Some r' →
     node_type r' = node_type r).
Proof.
  intros Hwf Hv Ha Hfr Hfile Htarget. set (A := nsOf sid store) in *.
  pose proof (validated_nonroot _ _ _ Hv Ha) as Hp.
  pose proof (ancestor_proper _ _ _ Hv Ha) as Hap.
  apply String.eqb_neq in Hp as Hp'.
  set (b1 := provision A (flagOf store) b).
  assert (match vfs_nodes b1 !! (A, p) with
          | Some (mkRow directory _) => False
          | _ => True
          end) as Hnd.
  { unfold b1. rewrite provision_lookup_nonroot by done.
    destruct (vfs_nodes b !! (A, p)) as [[[] ?]|] eqn:E; try done.
    by specialize (Htarget _ eq_refl). }
  assert (add_dirs A (ancestorPaths p) (vfs_nodes b1) !! (A, a) = Some fr) as Hkeep.
  { unfold b1. rewrite add_dirs_lookup, provision_lookup, Hfr. done. }
  assert (vfs_nodes (write_state A p c (flagOf store) b) !! (A, a) = Some fr) as Hw.
  { unfold write_state, upsert. simpl. rewrite lookup_insert_ne by congruence. done. }
  assert (vfs_nodes (append_state A p c (flagOf store) b) !! (A, a) = Some fr) as Hap'.
  { unfold append_state, append_row. simpl. rewrite lookup_insert_ne by congruence.
    done. }
  rewrite (write_eq _ _ _ _ _ _ Hwf Hv), (append_eq _ _ _ _ _ _ Hwf Hv), Hp'.
  cbv zeta. fold A b1. split_and!.
  - intros _ ->. destruct (vfs_nodes b1 !! (A, p)) as [[[] ?]|]; try done; split; eauto.
  - destruct (vfs_nodes b1 !! (A, p)) as [[[] ?]|]; try done; by destruct (is_text c).
  - destruct (vfs_nodes b1 !! (A, p)) as [[[] ?]|]; try done; by destruct (is_text c).
  - intros b0 q r H. unfold insertDir. by rewrite H.
  - intros call sid' store' b0 k r r' Hcall H H'.
    by apply (Stable_run localeCompare picomatch regexp_compiles regex_match
                collate row_order call sid' store' Hcall b0 k r r').
Qed.

Lemma file_ancestor_kept_witness :
  wf file_at_a ∧
  validatePath (JsString "/a/b") = inr "/a/b" ∧
  "/a" ∈ ancestorPaths "/a/b" ∧
  vfs_nodes file_at_a !! (nsOf "s" None, "/a") = Some (mkRow file (Some "x")) ∧
  (∀ r, vfs_nodes file_at_a !! (nsOf "s" None, "/a/b") = Some r → node_type r = file) ∧
  is_text (nsOf "s" None) = true ∧ is_text "y" = true ∧
  (∃ created b', write "s" "/a/b" "y" None file_at_a = (inr created, b')) ∧
  vfs_nodes (snd (write "s" "/a/b" "y" None file_at_a)) !! (nsOf "s" None, "/a")
  = Some (mkRow file (Some "x")).
Proof.
  assert (wf file_at_a) as Hwf by (apply (bool_decide_unpack _); vm_compute; exact I).
  assert ("/a" ∈ ancestorPaths "/a/b") as Hin
    by (apply (bool_decide_unpack _); vm_compute; exact I).
  assert (∀ r, vfs_nodes file_at_a !! (nsOf "s" None, "/a/b") = Some r → node_type r = file)
    as Hnone by (intros r; vm_compute; discriminate).
  assert (vfs_nodes file_at_a !! (nsOf "s" None, "/a") = Some (mkRow file (Some "x")))
    as Hthere by (vm_compute; reflexivity).
  split_and!; [done|reflexivity|done|done|done|reflexivity|reflexivity| |];
    destruct (file_ancestor_kept by_code_unit by_prefix (fun _ => true) by_occurrence
                by_code_unit by_key file_at_a "s" None "/a/b" "y" "/a/b" "/a"
                (mkRow file (Some "x")) Hwf eq_refl Hin Hthere eq_refl Hnone)
      as (Hok & [Hkept _] & _).
  - by destruct (Hok eq_refl eq_refl).
  - done.
Defined.

(** C10 as stated fails for a content with a NUL code unit: with the
    file [/a] at an ancestor, the write and the append of [/a/b] are
    refused by the database. *)
Lemma nul_content_under_a_file :
  vfs_nodes file_at_a !! ("s", "/a") = Some (mkRow file (Some "x")) ∧
  fst (write "s" "/a/b" nul_content None file_at_a)
  = inl (EDb character_not_in_repertoire) ∧
  fst (append "s" "/a/b" nul_content None file_at_a)
  = inl (EDb character_not_in_repertoire).
Proof. split_and!; vm_compute; reflexivity. Qed.

(** Why C10 says nothing of [move].  With the directories [/%] and
    [/ab/c] and the file [/xyb/c], the move of [/%] to [/xy] rewrites
    [/ab/c] to [/xyb/c] and [/xyb/c] to [/xyyb/c]: it is refused when
    the first of the two is rewritten first, and succeeds in the other
    order, leaving a directory at [/xyb/c], where a file was. *)
Lemma move_order_decides :
  let b := snd ((mkdir "s" "/%" None ;; mkdir "s" "/ab/c" None ;;
                 write "s" "/xyb/c" "x" None) empty_backend) in
  vfs_nodes b !! ("s", "/xyb/c") = Some (mkRow file (Some "x")) ∧
  move by_key "s" "/%" "/xy" None b = (inl (EDb unique_violation), b) ∧
  fst (move (fun x y => by_key y x) "s" "/%" "/xy" None b) = inr tt ∧
  vfs_nodes (snd (move (fun x y => by_key y x) "s" "/%" "/xy" None b)) !! ("s", "/xyb/c")
  = Some dirRow.
Proof. cbv zeta. split_and!; vm_compute; reflexivity. Qed.

End Claims.

(** * Further properties *)

(** ** Path utilities *)

Module PathLaws.
Import Js Paths Sql Storage Vfs Spec Terms PathFacts.

Lemma total_length_app l1 l2 :
  total_length (l1 ++ l2) = total_length l1 + total_length l2.
Proof. induction l1 as [|x l1 IH]; simpl; [done|]. rewrite IH. lia. Qed.

Lemma split_total sep s : total_length (split sep s) = String.length s + 1.
Proof.
  induction s as [|c s IH]; simpl; [done|].
  destruct (Ascii.eqb c sep); simpl; [lia|].
  destruct (split sep s) as [|h t] eqn:E; [by apply split_nonempty in E|].
  simpl in *. lia.
Qed.

Lemma removelast_total l : total_length (removelast l) ≤ total_length l.
Proof.
  induction l as [|x l IH]; simpl; [done|].
  destruct l; simpl in *; lia.
Qed.

Lemma resolve_total segs acc :
  total_length (resolve segs acc) ≤ total_length segs + total_length acc.
Proof.
  revert acc. induction segs as [|x segs IH]; intros acc; simpl; [lia|].
  destruct (String.eqb x "" || String.eqb x ".").
  { specialize (IH acc). lia. }
  destruct (String.eqb x "..").
  - specialize (IH (removelast acc)). pose proof (removelast_total acc). lia.
  - specialize (IH (acc ++ [x])). rewrite total_length_app in IH. simpl in IH. lia.
Qed.

Lemma join_total l :
  String.length (join "/" l) + 1 = total_length l ∨ (l = [] ∧ join "/" l = "").
Proof.
  induction l as [|x l IH]; [by right|]. left.
  destruct l as [|y l].
  - change (join "/" [x]) with x. simpl. lia.
  - rewrite join_cons, !string_length_app.
    destruct IH as [IH|[? _]]; [|done].
    change (String.length "/") with 1. simpl in *. lia.
Qed.

Lemma startsWith_slash x :
  startsWith x "/" = true → ∃ r, x = String "/" r.
Proof.
  unfold startsWith. destruct x as [|c r]; [done|].
  change (String.prefix "/" (String c r))
    with (if ascii_dec "/" c then String.prefix "" r else false).
  destruct (ascii_dec "/" c) as [<-|]; [eauto|done].
Qed.

Lemma normalize_absolute_length r :
  String.length (normalizePath (String "/" r)) ≤ String.length (String "/" r).
Proof.
  unfold normalizePath.
  change (String.eqb (String "/" r) "") with false. rewrite startsWith_cons.
  change (split "/" (String "/" r)) with ("" :: split "/" r).
  change (resolve ("" :: ?s) []) with (resolve s []).
  pose proof (resolve_total (split "/" r) []) as H. rewrite split_total in H.
  rewrite string_length_app. change (String.length "/") with 1.
  destruct (join_total (resolve (split "/" r) [])) as [E|[_ ->]]; simpl in *; lia.
Qed.

Lemma normalizePath_length x :
  String.length (normalizePath x) ≤ String.length x + 1 ∧
  (startsWith x "/" = true → String.length (normalizePath x) ≤ String.length x).
Proof.
  split.
  - destruct (startsWith x "/") eqn:E.
    + apply startsWith_slash in E as [r ->].
      pose proof (normalize_absolute_length r). lia.
    + destruct x as [|c r]; [simpl; lia|].
      pose proof (normalize_absolute_length (String c r)) as H.
      unfold normalizePath in *. rewrite E.
      change (String.eqb (String c r) "") with false.
      change (String.eqb (String "/" (String c r)) "") with false in H.
      rewrite startsWith_cons in H. simpl in H. simpl. lia.
  - intros [r ->]%startsWith_slash. apply normalize_absolute_length.
Qed.

(** The code units of a normalized path are those of the input and the
    separator. *)
Lemma any_char_join P sep l :
  any_char P (join sep l) = true →
  any_char P sep = true ∨ Exists (fun s => any_char P s = true) l.
Proof.
  induction l as [|x l IH]; [done|].
  destruct l as [|y l].
  - change (join sep [x]) with x. intros H. right. by constructor.
  - rewrite join_cons, !any_char_app. intros [H|[H|H]%orb_prop]%orb_prop.
    + right. by constructor.
    + by left.
    + destruct (IH H) as [?|?]; [by left|]. right. by constructor.
Qed.

Lemma any_char_split P sep s :
  Forall (fun seg => any_char P seg = true → any_char P s = true) (split sep s).
Proof.
  induction s as [|c s IH]; simpl.
  - by repeat constructor.
  - destruct (Ascii.eqb c sep).
    + constructor; [done|]. eapply Forall_impl; [done|]. simpl.
      intros seg H Hs. rewrite (H Hs). apply orb_true_r.
    + destruct (split sep s) as [|h t] eqn:E; [by apply split_nonempty in E|].
      inversion IH as [|?? Hh Ht]; subst. constructor.
      * simpl. intros [->|H]%orb_prop; [done|]. rewrite (Hh H). apply orb_true_r.
      * eapply Forall_impl; [done|]. simpl.
        intros seg H Hs. rewrite (H Hs). apply orb_true_r.
Qed.

Lemma resolve_elements (Q : string → Prop) segs acc :
  Forall Q segs → Forall Q acc → Forall Q (resolve segs acc).
Proof.
  intros Hs. revert acc. induction Hs as [|x segs Hx Hs IH]; intros acc Hacc; simpl; [done|].
  destruct (String.eqb x "" || String.eqb x "."); [by apply IH|].
  destruct (String.eqb x "..").
  - apply IH. by apply Forall_removelast.
  - apply IH. apply Forall_app. split; [done|]. by repeat constructor.
Qed.

Lemma normalizePath_chars P x :
  any_char P (normalizePath x) = true → P "/"%char = true ∨ any_char P x = true.
Proof.
  unfold normalizePath. destruct (String.eqb x "").
  { simpl. rewrite orb_false_r. by left. }
  set (p := if startsWith x "/" then x else "/" +:+ x).
  assert (any_char P p = true → P "/"%char = true ∨ any_char P x = true) as Hp.
  { unfold p. destruct (startsWith x "/"); [by right|].
    change ("/" +:+ x) with (String "/" x). simpl.
    intros [?|?]%orb_prop; [by left|by right]. }
  rewrite any_char_app. intros [H|H]%orb_prop.
  { simpl in H. rewrite orb_false_r in H. by left. }
  apply any_char_join in H as [H|H].
  { simpl in H. rewrite orb_false_r in H. by left. }
  apply Hp. apply Exists_exists in H as (seg & Hin & Hseg).
  pose proof (resolve_elements (fun seg => any_char P seg = true → any_char P p = true)
                (split "/" p) [] (any_char_split P "/" p) (List.Forall_nil _)) as HF.
  rewrite Forall_forall in HF. by apply (HF seg).
Qed.

Lemma normalizePath_no_control x :
  has_control x = false → has_control (normalizePath x) = false.
Proof.
  intros Hx. destruct (has_control (normalizePath x)) eqn:E; [|done].
  apply normalizePath_chars in E as [E|E]; [done|]. unfold has_control in Hx. congruence.
Qed.

Lemma join_snoc l x :
  join "/" (l ++ [x]) = match l with [] => x | _ => join "/" l +:+ "/" +:+ x end.
Proof.
  induction l as [|y l IH]; [done|].
  destruct l as [|z l].
  - done.
  - change ((y :: z :: l) ++ [x]) with (y :: z :: (l ++ [x])).
    rewrite (join_cons _ y z), (join_cons _ y z).
    change (z :: l ++ [x]) with ((z :: l) ++ [x]). rewrite IH.
    by rewrite !string_app_assoc.
Qed.

Lemma lastIndexOf_free c x : free_of c x → lastIndexOf c x = (-1)%Z.
Proof.
  unfold free_of. induction x as [|d x IH]; simpl; [done|].
  intros [Hd Hx]%orb_false_elim. rewrite IH by done. simpl.
  by rewrite Ascii.eqb_sym, Hd.
Qed.

Lemma lastIndexOf_last c pre x :
  free_of c x → lastIndexOf c (pre +:+ String c x) = Z.of_nat (String.length pre).
Proof.
  intros Hx. induction pre as [|d pre IH].
  - rewrite string_app_nil. simpl. rewrite lastIndexOf_free by done. simpl.
    by rewrite Ascii.eqb_refl.
  - rewrite string_app_cons. simpl lastIndexOf. rewrite IH.
    destruct (Z.leb_spec 0 (Z.of_nat (String.length pre))); [|lia].
    simpl String.length. lia.
Qed.

Lemma substring_prefix a s : substring 0 (String.length a) (a +:+ s) = a.
Proof.
  induction a as [|c a IH]; simpl.
  - by destruct s.
  - by rewrite IH.
Qed.

Lemma slice_prefix a s : slice (a +:+ s) 0 (Z.of_nat (String.length a)) = a.
Proof.
  unfold slice, slice_index. rewrite string_length_app.
  change (0 <? 0)%Z with false.
  destruct (Z.ltb_spec (Z.of_nat (String.length a)) 0); [lia|].
  rewrite Z.min_l, Z.min_l by lia.
  rewrite Z.sub_0_r, Nat2Z.id. apply substring_prefix.
Qed.

Lemma slice_from_suffix a s : slice_from (a +:+ s) (Z.of_nat (String.length a)) = s.
Proof.
  unfold slice_from, slice, slice_index. rewrite string_length_app.
  destruct (Z.ltb_spec (Z.of_nat (String.length a)) 0); [lia|].
  destruct (Z.ltb_spec (Z.of_nat (String.length a + String.length s)) 0); [lia|].
  rewrite Z.min_l, Z.min_l by lia.
  replace (Z.to_nat (Z.of_nat (String.length a + String.length s)
                     - Z.of_nat (String.length a))) with (String.length s) by lia.
  rewrite Nat2Z.id. apply substring_app_r.
Qed.

(** A canonical path that is not the root, cut at its last separator. *)
Lemma canonical_cut l x :
  "/" +:+ join "/" (l ++ [x])
  = (match l with [] => "" | _ => "/" +:+ join "/" l end) +:+ String "/" x.
Proof.
  rewrite join_snoc. destruct l as [|y l]; [done|].
  by rewrite !string_app_assoc.
Qed.

Lemma canonical_nonroot l x : Seg x → "/" +:+ join "/" (l ++ [x]) ≠ "/".
Proof.
  intros Hx%Seg_nonempty_length. rewrite canonical_cut.
  intros H%(f_equal String.length). rewrite string_length_app in H.
  simpl in H. lia.
Qed.

Lemma canonical_nonroot_list l : Forall Seg l → l ≠ [] → "/" +:+ join "/" l ≠ "/".
Proof.
  intros Hl Hne. destruct (exists_last Hne) as (l0 & z & ->).
  apply canonical_nonroot. apply Forall_app in Hl as [_ Hz]. by inversion Hz.
Qed.

Lemma segments_canonical l :
  Forall Seg l → filter_truthy (split "/" ("/" +:+ join "/" l)) = l.
Proof.
  intros Hl. destruct l as [|x l]; [done|].
  change ("/" +:+ join "/" (x :: l)) with (String "/" (join "/" (x :: l))).
  change (split "/" (String "/" ?s)) with ("" :: split "/" s).
  rewrite split_join; [| |done].
  - change (filter_truthy ("" :: ?s)) with (filter_truthy s).
    by rewrite filter_truthy_Seg.
  - eapply Forall_impl; [done|]. by intros ? (_ & _ & _ & ?).
Qed.

(** The normal form of a path that is not the root ends in a segment. *)
Lemma normal_form_cut q :
  normalizePath q ≠ "/" →
  ∃ l x, Forall Seg l ∧ Seg x ∧ normalizePath q = "/" +:+ join "/" (l ++ [x]).
Proof.
  intros Hq. destruct (normalizePath_shape q) as (l' & Hl' & E).
  destruct (decide (l' = [])) as [->|Hne]; [done|].
  destruct (exists_last Hne) as (l & x & ->).
  apply Forall_app in Hl' as [Hl Hx].
  exists l, x. split_and!; [done| |done]. by inversion Hx.
Qed.

Lemma parentPath_canonical q l x :
  Forall Seg l → Seg x → normalizePath q = "/" +:+ join "/" (l ++ [x]) →
  parentPath q = "/" +:+ join "/" l.
Proof.
  intros Hl Hx E. unfold parentPath. rewrite E.
  rewrite (proj2 (String.eqb_neq _ _) (canonical_nonroot l x Hx)).
  rewrite canonical_cut.
  rewrite lastIndexOf_last by (by destruct Hx as (_ & _ & _ & ?)).
  destruct l as [|y l]; [done|].
  set (pre := "/" +:+ join "/" (y :: l)).
  assert (0 < String.length pre) by (unfold pre; rewrite string_length_app; simpl; lia).
  destruct (Z.eqb_spec (Z.of_nat (String.length pre)) 0); [lia|].
  apply slice_prefix.
Qed.

Lemma basename_canonical q l x :
  Forall Seg l → Seg x → normalizePath q = "/" +:+ join "/" (l ++ [x]) →
  basename q = x.
Proof.
  intros Hl Hx E. unfold basename. rewrite E.
  rewrite (proj2 (String.eqb_neq _ _) (canonical_nonroot l x Hx)).
  rewrite canonical_cut.
  rewrite lastIndexOf_last by (by destruct Hx as (_ & _ & _ & ?)).
  set (pre := match l with [] => "" | _ => "/" +:+ join "/" l end).
  change (String "/" x) with ("/" +:+ x). rewrite <- string_app_assoc.
  replace (Z.of_nat (String.length pre) + 1)%Z
    with (Z.of_nat (String.length (pre +:+ "/")))
    by (rewrite string_length_app; simpl; lia).
  apply slice_from_suffix.
Qed.

Lemma ancestorPaths_normalized q : ancestorPaths q = ancestorPaths (normalizePath q).
Proof. unfold ancestorPaths. by rewrite normalizePath_idem. Qed.

Lemma ancestorPaths_canonical l :
  Forall Seg l → l ≠ [] →
  ancestorPaths ("/" +:+ join "/" l)
  = "/" :: List.map (fun i => "/" +:+ join "/" (firstn (i + 1) l)) (seq 0 (length l - 1)).
Proof. intros Hl Hne. rewrite ancestorPaths_join by done. by destruct l. Qed.

Lemma ancestorPaths_snoc l x :
  Forall Seg l → Seg x →
  ancestorPaths ("/" +:+ join "/" (l ++ [x]))
  = ancestorPaths ("/" +:+ join "/" l) ++ ["/" +:+ join "/" l].
Proof.
  intros Hl Hx.
  rewrite (ancestorPaths_canonical (l ++ [x]));
    [|apply Forall_app; split; [done|by constructor]|by destruct l].
  destruct (decide (l = [])) as [->|Hne]; [done|].
  rewrite (ancestorPaths_canonical l) by done.
  assert (0 < length l) by (destruct l; [done|simpl; lia]).
  replace (length (l ++ [x]) - 1) with (S (length l - 1))
    by (rewrite length_app; simpl; lia).
  rewrite seq_S, map_app, <- app_comm_cons. f_equal. f_equal.
  - apply map_ext_in. intros i Hi%in_seq. do 2 f_equal.
    rewrite firstn_app. replace (i + 1 - length l) with 0 by lia.
    by rewrite firstn_O, app_nil_r.
  - simpl map. do 3 f_equal. replace (length l - 1 + 1) with (length l) by lia.
    by rewrite firstn_app, firstn_all, Nat.sub_diag, firstn_O, app_nil_r.
Qed.

End PathLaws.

(** ** Errors, sessions and roots, operation by operation *)

Module CallLaws.
Import Js Paths Sql Storage Vfs Spec Terms PathFacts LikeFacts StorageFacts OpFacts
  UpdateFacts.
Local Open Scope vfs_scope.

(** ** Computations in a resolved namespace *)

Lemma Inner_ret {X} A P (x : X) : Inner A P (ret x).
Proof. intros b _. by split_and!. Qed.

Lemma Inner_throw {X} A (P : Error → Prop) e : P e → Inner A P (@throw X e).
Proof. intros He b _. split_and!; [|done..]. simpl. by intros ? [= <-]. Qed.

Lemma Inner_read {X} A P (f : Backend → X) : Inner A P (fun b => (inr (f b), b)).
Proof. intros b _. by split_and!. Qed.

Lemma Inner_bind {X Y} A P (m : M X) (k : X → M Y) :
  Inner A P m → (∀ x, Inner A P (k x)) → Inner A P (bind m k).
Proof.
  intros Hm Hk b Hs. unfold bind. destruct (Hm b Hs) as (He & Hss & Hkn).
  destruct (m b) as [[e|x] b'] eqn:E; simpl in *.
  - split_and!; [|done..]. intros ? [= <-]. by apply He.
  - assert (is_Some (vfs_sessions b' !! A)) as Hs' by by rewrite Hss.
    destruct (Hk x b' Hs') as (He' & Hss' & Hkn'). split_and!; [done|congruence..].
Qed.

Lemma Inner_for_each {X} A P (f : X → M unit) l :
  (∀ x, Inner A P (f x)) → Inner A P (for_each f l).
Proof.
  intros Hf. induction l as [|x l IH]; simpl; [apply Inner_ret|].
  apply Inner_bind; [apply Hf|by intros _].
Qed.

Lemma Inner_insertDir A P p : Inner A P (insertDir A p).
Proof.
  intros b [f Hf]. unfold insertDir, insert_row.
  destruct (vfs_nodes b !! (A, p)); [by split_and!|]. rewrite Hf. by split_and!.
Qed.

Lemma Inner_upsertFile A (P : Error → Prop) p c :
  P (EDb character_not_in_repertoire) → Inner A P (upsertFile A p c).
Proof.
  intros HP b [f Hf]. unfold upsertFile, insert_row. destruct (is_text c).
  - destruct (vfs_nodes b !! (A, p)); [by split_and!|]. rewrite Hf. by split_and!.
  - split_and!; [|done..]. by intros ? [= <-].
Qed.

Lemma Inner_appendFile A (P : Error → Prop) p c :
  P (EDb character_not_in_repertoire) → Inner A P (appendFile A p c).
Proof.
  intros HP b [f Hf]. unfold appendFile, insert_row. destruct (is_text c).
  - destruct (vfs_nodes b !! (A, p)); [by split_and!|]. rewrite Hf. by split_and!.
  - split_and!; [|done..]. by intros ? [= <-].
Qed.

Lemma Inner_deleteNode A P p : Inner A P (deleteNode A p).
Proof. intros b _. by split_and!. Qed.

Lemma Inner_moveNode row_order A (P : Error → Prop) src dest :
  P (EDb unique_violation) → Inner A P (moveNode row_order A src dest).
Proof.
  intros HP b _. unfold moveNode. cbv zeta. destruct (rewrite_rows _ _); simpl.
  - by split_and!.
  - split_and!; [|done..]. by intros ? [= <-].
Qed.

Lemma Inner_grepContent collate rx A (P : Error → Prop) pattern pathFilter :
  P (EDb character_not_in_repertoire) → P (EDb invalid_regular_expression) →
  P (EDb invalid_escape_sequence) →
  Inner A P (grepContent collate rx A pattern pathFilter).
Proof.
  intros H1 H2 H3 b _. unfold grepContent.
  destruct (negb _); [split_and!; [|done..]; by intros ? [= <-]|].
  destruct (rx pattern); [|split_and!; [|done..]; by intros ? [= <-]].
  destruct (match truthy pathFilter with Some _ => _ | None => _ end);
    split_and!; try done. by intros ? [= <-].
Qed.

Ltac inner :=
  repeat first
    [ apply Inner_ret | apply Inner_throw; simpl; tauto
    | apply Inner_insertDir | apply Inner_upsertFile; simpl; tauto
    | apply Inner_appendFile; simpl; tauto
    | apply Inner_deleteNode | apply Inner_moveNode; simpl; tauto
    | apply Inner_grepContent; simpl; tauto
    | apply Inner_read
    | apply Inner_for_each; intros ?
    | apply Inner_bind; [|intros ?]
    | match goal with
      | |- Inner _ _ (if ?c then _ else _) => destruct c
      | |- Inner _ _ (match ?x with _ => _ end) => destruct x
      end ].

(** ** Whole operations *)

Lemma Whole_ret {X} A flag P (x : X) : Whole A flag P (ret x).
Proof. intros b _. split; [done|by left]. Qed.

Lemma Whole_throw {X} A flag (P : Error → Prop) e : P e → Whole A flag P (@throw X e).
Proof. intros He b _. split; [|by left]. simpl. by intros ? [= <-]. Qed.

Lemma Whole_validated {X} A flag (P : Error → Prop) input (k : string → M X) :
  (∀ pe, P (EPath pe)) →
  (∀ p, validatePath (JsString input) = inr p → Whole A flag P (k p)) →
  Whole A flag P (bind (validated input) k).
Proof.
  intros HP Hk b Hwf. unfold bind, validated.
  destruct (validatePath (JsString input)) as [pe|p] eqn:E; simpl.
  - split; [by intros ? [= <-]|by left].
  - apply (Hk p eq_refl b Hwf).
Qed.

Lemma Whole_ns {X} sid store P (k : string → M X) :
  Inner (nsOf sid store) P (k (nsOf sid store)) →
  Whole (nsOf sid store) (flagOf store) P (bind (ns sid store) k).
Proof.
  intros Hk b Hwf. unfold bind, ns. rewrite !resolveNamespace_eq. fold (flagOf store).
  set (A := nsOf sid store) in *. set (b1 := provision A (flagOf store) b).
  rewrite (provision_id A _ b1) by apply provision_known.
  destruct (Hk b1 (provision_session _ _ _ Hwf)) as (He & Hs & Hkn).
  split; [done|]. by right.
Qed.

Lemma Whole_bind_ret {X Y} A flag P (m : M X) (f : X → Y) :
  Whole A flag P m → Whole A flag P (bind m (fun x => ret (f x))).
Proof.
  intros Hm b Hwf. destruct (Hm b Hwf) as [He Hs]. unfold bind. split.
  - destruct (m b) as [[e|x] b']; simpl in *; [|done]. intros ? [= <-]. by apply He.
  - destruct Hs as [Hs|(E & Hss & Hkn)].
    + left. by destruct (m b) as [[e|x] b'].
    + right. rewrite <- E. by destruct (m b) as [[e|x] b'].
Qed.

Ltac whole :=
  repeat first
    [ apply Whole_ret | apply Whole_throw; simpl; tauto
    | apply Whole_ns; inner
    | apply Whole_validated; [intros ?; simpl; tauto|intros ? ?]
    | match goal with
      | |- Whole _ _ _ (if ?c then _ else _) => destruct c
      end ].

Section Calls.
Context (localeCompare : string → string → Z)
        (picomatch : string → option (string → bool))
        (regexp_compiles : string → bool)
        (regex_match : string → option (string → bool))
        (collate : string → string → Z)
        (row_order : string * string → string * string → Z).

Local Abbreviation run :=
  (run localeCompare picomatch regexp_compiles regex_match collate row_order).

Lemma Whole_run call sid store :
  Whole (nsOf sid store) (flagOf store) (may_raise call) (run call sid store).
Proof.
  destruct call; unfold run; apply Whole_bind_ret;
    unfold stat, read, write, append, ls, mkdir, rm, move, glob, grep, ensureParents,
      getNode, countChildren, listChildren, allFilePaths;
    whole.
Qed.

End Calls.

(** ** Rows that a computation leaves *)

Lemma Keeps_ret {X} k (x : X) : Keeps k (ret x).
Proof. by intros b r H. Qed.

Lemma Keeps_throw {X} k e : Keeps k (@throw X e).
Proof. by intros b r H. Qed.

Lemma Keeps_read {X} k (f : Backend → X) : Keeps k (fun b => (inr (f b), b)).
Proof. by intros b r H. Qed.

Lemma Keeps_bind {X Y} k (m : M X) (f : X → M Y) :
  Keeps k m → (∀ x, Keeps k (f x)) → Keeps k (bind m f).
Proof.
  intros Hm Hf b r H. unfold bind. specialize (Hm b r H).
  destruct (m b) as [[e|x] b']; simpl in *; [done|]. by apply Hf.
Qed.

Lemma Keeps_bind_ret {X Y} k (m : M X) (f : X → Y) :
  Keeps k m → Keeps k (bind m (fun x => ret (f x))).
Proof. intros Hm. apply Keeps_bind; [done|]. intros x. apply Keeps_ret. Qed.

Lemma Keeps_for_each {X} k (f : X → M unit) l :
  (∀ x, Keeps k (f x)) → Keeps k (for_each f l).
Proof.
  intros Hf. induction l as [|x l IH]; simpl; [apply Keeps_ret|].
  apply Keeps_bind; [apply Hf|by intros _].
Qed.

Lemma Keeps_validated {X} k input (f : string → M X) :
  (∀ p, validatePath (JsString input) = inr p → Keeps k (f p)) →
  Keeps k (bind (validated input) f).
Proof.
  intros Hf b r H. unfold bind, validated.
  destruct (validatePath (JsString input)) as [pe|p] eqn:E; simpl; [done|].
  by apply (Hf p).
Qed.

Lemma Keeps_ns k sid store : Keeps k (ns sid store).
Proof.
  intros b r H. unfold ns. rewrite resolveNamespace_eq. simpl. by apply provision_other.
Qed.

Lemma Keeps_insert_row k A p r0 : k ≠ (A, p) → Keeps k (insert_row A p r0).
Proof.
  intros Hk b r H. unfold insert_row. destruct (vfs_sessions b !! A); simpl; [|done].
  by rewrite lookup_insert_ne.
Qed.

Lemma Keeps_insertDir k A p : Keeps k (insertDir A p).
Proof.
  intros b r H. unfold insertDir. destruct (vfs_nodes b !! (A, p)) eqn:E; [done|].
  apply Keeps_insert_row; [|done]. intros ->. congruence.
Qed.

Lemma Keeps_upsertFile k A p c : k ≠ (A, p) → Keeps k (upsertFile A p c).
Proof.
  intros Hk b r H. unfold upsertFile. destruct (is_text c); [|done].
  destruct (vfs_nodes b !! (A, p)) eqn:E.
  - simpl. by rewrite lookup_insert_ne.
  - by apply Keeps_insert_row.
Qed.

Lemma Keeps_appendFile k A p c : k ≠ (A, p) → Keeps k (appendFile A p c).
Proof.
  intros Hk b r H. unfold appendFile. destruct (is_text c); [|done].
  destruct (vfs_nodes b !! (A, p)) eqn:E.
  - simpl. by rewrite lookup_insert_ne.
  - by apply Keeps_insert_row.
Qed.

Lemma Keeps_deleteNode k A p : subtree_row A p k = false → Keeps k (deleteNode A p).
Proof.
  intros Hk b r H. unfold deleteNode. simpl.
  apply map_lookup_filter_Some. split; [done|]. simpl. rewrite Hk. by intros [].
Qed.

(** A row outside the rows that [moveNode] rewrites stays: were a new
    path to fall on it, the unique constraint would refuse the
    statement. *)
Lemma Keeps_moveNode row_order k A src dest :
  subtree_row A src k = false → Keeps k (moveNode row_order A src dest).
Proof.
  intros Hk b r H. unfold moveNode. cbv zeta.
  destruct (rewrite_rows _ _) as [nodes|] eqn:E; simpl; [|done].
  apply (rewrite_rows_keeps _ _ _ k r E); [|done].
  intros x Hx Hold. rewrite ordered_plan in Hx.
  apply move_plan_elem_of in Hx as (_ & Hsub & _). by rewrite Hold, Hk in Hsub.
Qed.

Lemma Keeps_grepContent collate rx k A pattern pathFilter :
  Keeps k (grepContent collate rx A pattern pathFilter).
Proof.
  intros b r H. unfold grepContent. destruct (negb _); [done|].
  destruct (rx pattern); [|done].
  by destruct (match truthy pathFilter with Some _ => _ | None => _ end).
Qed.

(** ** The root of a namespace *)

Lemma like_pat_empty pat :
  like_pat pat "" = true → any_char (fun c => negb (Ascii.eqb c "%")) pat = false.
Proof.
  induction pat as [|c pat IH]; [done|].
  simpl any_char. destruct (Ascii.eqb c "%") eqn:E.
  - apply Ascii.eqb_eq in E as ->.
    change (like_pat (String "%" pat) "") with (like_pat pat "" || false).
    rewrite orb_false_r. done.
  - simpl. rewrite E. destruct (Ascii.eqb c "_"); [done|].
    destruct (Ascii.eqb c "\"); [by destruct pat|done].
Qed.

Lemma validated_cons s p :
  validatePath (JsString s) = inr p → ∃ t, p = String "/" t.
Proof. intros (l & _ & ->)%validated_shape. by eexists. Qed.

Lemma root_not_in_subtree A B s p :
  validatePath (JsString s) = inr p → p ≠ "/" → subtree_row A p (B, "/") = false.
Proof.
  intros [t ->]%validated_cons Hp. unfold subtree_row. cbn [fst snd].
  apply andb_false_intro2, orb_false_intro.
  - apply String.eqb_neq. congruence.
  - unfold like. rewrite string_app_cons, like_pat_cons_plain by done.
    rewrite Ascii.eqb_refl. simpl.
    destruct (like_pat (t +:+ "/%") "") eqn:E; [|done].
    apply like_pat_empty in E. rewrite any_char_app in E.
    apply orb_false_elim in E as [_ E]. done.
Qed.

Ltac keeps_root :=
  repeat first
    [ apply Keeps_ret | apply Keeps_throw | apply Keeps_ns | apply Keeps_insertDir
    | apply Keeps_read | apply Keeps_grepContent
    | apply Keeps_upsertFile; congruence | apply Keeps_appendFile; congruence
    | apply Keeps_deleteNode; eapply root_not_in_subtree; eassumption
    | apply Keeps_moveNode; eapply root_not_in_subtree; eassumption
    | apply Keeps_validated; intros ? ?
    | apply Keeps_for_each; intros ?
    | apply Keeps_bind; [|intros ?]
    | match goal with
      | |- Keeps _ (if String.eqb ?p "/" then _ else _) => destruct (String.eqb_spec p "/")
      | |- Keeps _ (if ?c then _ else _) => destruct c
      | |- Keeps _ (match ?x with _ => _ end) => destruct x
      end ].

Section Roots.
Context (localeCompare : string → string → Z)
        (picomatch : string → option (string → bool))
        (regexp_compiles : string → bool)
        (regex_match : string → option (string → bool))
        (collate : string → string → Z)
        (row_order : string * string → string * string → Z).

Local Abbreviation run :=
  (run localeCompare picomatch regexp_compiles regex_match collate row_order).

Lemma Keeps_root_run call sid store B : Keeps (B, "/") (run call sid store).
Proof.
  destruct call; unfold run; apply Keeps_bind_ret;
    unfold stat, read, write, append, ls, mkdir, rm, move, glob, grep, ensureParents,
      getNode, countChildren, listChildren, allFilePaths;
    cbv zeta; keeps_root.
Qed.

End Roots.

End CallLaws.

(** ** The invariants of the backends that calls lead to *)

Module Soundness.
Import Js Paths Sql Storage Vfs Spec Terms PathFacts LikeFacts StorageFacts OpFacts
  Invariant Isolation CallLaws.
Local Open Scope vfs_scope.


Lemma provision_sessions_lookup A flag b B f :
  vfs_sessions b !! B = Some f → vfs_sessions (provision A flag b) !! B = Some f.
Proof.
  intros H. unfold provision. destruct (decide (A ∈ knownNamespaces b)); [done|]. simpl.
  destruct (vfs_sessions b !! A) eqn:E; [done|].
  rewrite lookup_insert_ne; [done|]. intros ->. congruence.
Qed.

Lemma provision_known_sub A flag b B :
  B ∈ knownNamespaces b → B ∈ knownNamespaces (provision A flag b).
Proof.
  intros H. unfold provision. destruct (decide (A ∈ knownNamespaces b)); [done|].
  simpl. set_solver.
Qed.







Section Calls.
Context (localeCompare : string → string → Z)
        (picomatch : string → option (string → bool))
        (regexp_compiles : string → bool)
        (regex_match : string → option (string → bool))
        (collate : string → string → Z)
        (row_order : string * string → string * string → Z).

Local Abbreviation run :=
  (run localeCompare picomatch regexp_compiles regex_match collate row_order).


Lemma sessions_after call sid store b :
  wf b →
  snd (run call sid store b) = b ∨
  (vfs_sessions (snd (run call sid store b))
   = vfs_sessions (provision (nsOf sid store) (flagOf store) b) ∧
   knownNamespaces (snd (run call sid store b))
   = knownNamespaces (provision (nsOf sid store) (flagOf store) b)).
Proof.
  intros Hwf.
  destruct (Whole_run localeCompare picomatch regexp_compiles regex_match collate
              row_order call sid store b Hwf) as [_ [->|(_ & Hs & Hk)]]; [by left|by right].
Qed.

End Calls.


End Soundness.

(** ** [write], [append], [mkdir] and [rm] as equations *)

Module OpLaws.
Import Js Paths Sql Storage Vfs Spec Terms PathFacts LikeFacts StorageFacts OpFacts.
Local Open Scope vfs_scope.

Lemma set_nodes_same f b : f (vfs_nodes b) = vfs_nodes b → set_nodes f b = b.
Proof. intros H. destruct b as [ss nn kk]. unfold set_nodes. simpl in *. by rewrite H. Qed.

Lemma set_nodes_ext f g b :
  f (vfs_nodes b) = g (vfs_nodes b) → set_nodes f b = set_nodes g b.
Proof. intros H. unfold set_nodes. by rewrite H. Qed.

Lemma add_dirs_present A l m :
  (∀ a, a ∈ l → is_Some (m !! (A, a))) → add_dirs A l m = m.
Proof.
  intros H. apply map_eq. intros k. rewrite add_dirs_lookup.
  destruct (m !! k) eqn:E; [done|].
  rewrite bool_decide_eq_false_2; [done|]. intros [Hk Hin]. destruct k as [k1 k2].
  simpl in *. subst. destruct (H _ Hin) as [r Hr]. congruence.
Qed.

Lemma add_dir_present A m a : is_Some (m !! (A, a)) → add_dir A m a = m.
Proof. intros [r Hr]. unfold add_dir. by rewrite Hr. Qed.

Lemma mkdir_eq sid store input p b :
  wf b → validatePath (JsString input) = inr p →
  mkdir sid input store b =
  if String.eqb p "/" then (inr true, b)
  else
    let A := nsOf sid store in
    let b1 := provision A (flagOf store) b in
    match vfs_nodes b1 !! (A, p) with
    | Some (mkRow file _) => (inl (EVfs EEXIST), b1)
    | Some (mkRow directory _) => (inr true, mkdir_state A p (flagOf store) b)
    | None => (inr false, mkdir_state A p (flagOf store) b)
    end.
Proof.
  intros Hwf Hv. unfold mkdir. unfold bind at 1. rewrite (validated_eq _ _ _ Hv).
  destruct (String.eqb p "/"); [done|].
  unfold bind at 1. unfold ns. rewrite resolveNamespace_eq. fold (flagOf store).
  cbv zeta. set (A := nsOf sid store). set (b1 := provision A (flagOf store) b).
  assert (is_Some (vfs_sessions b1 !! A)) as Hs by by apply provision_session.
  unfold bind at 1. unfold getNode at 1.
  destruct (vfs_nodes b1 !! (A, p)) as [[[] ?]|] eqn:E; simpl; try done.
  - unfold bind at 1. unfold ensureParents. rewrite for_each_insertDir by done.
    unfold bind at 1. rewrite insertDir_eq by done. unfold ret, mkdir_state.
    by rewrite set_nodes_set_nodes.
  - unfold bind at 1. unfold ensureParents. rewrite for_each_insertDir by done.
    unfold bind at 1. rewrite insertDir_eq by done. unfold ret, mkdir_state.
    by rewrite set_nodes_set_nodes.
Qed.

(** The table once the namespace is provisioned and the ancestors of
    [p] are there: what [write], [append] and [mkdir] work on. *)
Lemma base_keeps A l flag b k r :
  vfs_nodes b !! k = Some r →
  add_dirs A l (vfs_nodes (provision A flag b)) !! k = Some r.
Proof. intros H. by rewrite add_dirs_lookup, provision_lookup, H. Qed.

Lemma base_new A l flag b k r :
  add_dirs A l (vfs_nodes (provision A flag b)) !! k = Some r →
  vfs_nodes b !! k = None →
  r = dirRow ∧ k.1 = A ∧ (k.2 ∈ l ∨ k.2 = "/").
Proof.
  rewrite add_dirs_lookup, provision_lookup. intros H Hn. rewrite Hn in H.
  case_bool_decide as H1.
  - destruct H1 as [-> _]. simplify_eq. split_and!; [done..|by right].
  - case_bool_decide as H2; [|done]. destruct H2. simplify_eq. split_and!; [done..|by left].
Qed.

Lemma base_ancestors A l flag b a :
  a ∈ l → is_Some (add_dirs A l (vfs_nodes (provision A flag b)) !! (A, a)).
Proof.
  intros Ha. rewrite add_dirs_lookup.
  destruct (vfs_nodes (provision A flag b) !! (A, a)); [done|].
  by rewrite bool_decide_eq_true_2.
Qed.

Lemma base_target A p flag b s :
  validatePath (JsString s) = inr p → p ≠ "/" →
  add_dirs A (ancestorPaths p) (vfs_nodes (provision A flag b)) !! (A, p)
  = vfs_nodes b !! (A, p).
Proof.
  intros Hv Hp. rewrite add_dirs_lookup, provision_lookup_nonroot by done.
  destruct (vfs_nodes b !! (A, p)); [done|].
  rewrite bool_decide_eq_false_2; [done|]. intros [_ Hin]. simpl in Hin.
  by apply (ancestor_proper _ _ _ Hv Hin).
Qed.

Lemma root_is_ancestor s p :
  validatePath (JsString s) = inr p → p ≠ "/" → "/" ∈ ancestorPaths p.
Proof.
  intros [-> _]%validatePath_inr Hp. unfold ancestorPaths.
  rewrite normalizePath_idem. rewrite (proj2 (String.eqb_neq _ _) Hp). by left.
Qed.

Lemma provisioned_again A flag b : provision A flag (provision A flag b) = provision A flag b.
Proof. apply provision_id, provision_known. Qed.

(** ** [write] *)



Lemma write_rows b sid store input c p created b' :
  wf b → validatePath (JsString input) = inr p →
  write sid input c store b = (inr created, b') →
  p ≠ "/" ∧
  (∀ r, vfs_nodes b !! (nsOf sid store, p) = Some r → node_type r = file) ∧
  b' = write_state (nsOf sid store) p c (flagOf store) b.
Proof.
  intros Hwf Hv. rewrite (write_eq _ _ _ _ _ _ Hwf Hv).
  destruct (String.eqb_spec p "/") as [->|Hp]; [done|]. cbv zeta.
  rewrite provision_lookup_nonroot by done.
  destruct (vfs_nodes b !! (nsOf sid store, p)) as [[[] c0]|] eqn:E;
    destruct (is_text c); intros [= <- <-]; split_and!; try done. by intros r [= <-].
Qed.

(** ** [append] *)

Lemma append_state_known A p c flag b : A ∈ knownNamespaces (append_state A p c flag b).
Proof. unfold append_state. apply provision_known. Qed.

Lemma append_state_wf A p c flag b : wf b → wf (append_state A p c flag b).
Proof. intros Hwf. unfold append_state. by apply (provision_wf A flag) in Hwf. Qed.

Lemma append_state_target s A p c flag b :
  validatePath (JsString s) = inr p → p ≠ "/" →
  vfs_nodes (append_state A p c flag b) !! (A, p)
  = Some (mkRow (match vfs_nodes b !! (A, p) with
                 | Some r => node_type r
                 | None => file
                 end) (Some (content_at A p b +:+ c))).
Proof.
  intros Hv Hp. unfold append_state, append_row, content_at. simpl.
  rewrite lookup_insert_eq, (base_target _ _ _ _ _ Hv Hp).
  by destruct (vfs_nodes b !! (A, p)).
Qed.

Lemma append_state_again s A p c1 c2 flag b :
  validatePath (JsString s) = inr p → p ≠ "/" →
  append_state A p c2 flag (append_state A p c1 flag b)
  = append_state A p (c1 +:+ c2) flag b.
Proof.
  intros Hv Hp. unfold append_state at 1.
  rewrite provision_id by apply append_state_known.
  unfold append_state. rewrite set_nodes_set_nodes. apply set_nodes_ext.
  set (base := add_dirs A (ancestorPaths p) (vfs_nodes (provision A flag b))).
  rewrite add_dirs_present.
  - unfold append_row. rewrite lookup_insert_eq, insert_insert_eq. f_equal.
    destruct (base !! (A, p)) as [r|]; simpl; [|done].
    by rewrite string_app_assoc.
  - intros a Ha. unfold append_row.
    rewrite lookup_insert_ne by (intros [= <-]; by apply (ancestor_proper _ _ _ Hv Ha)).
    by apply base_ancestors.
Qed.

Lemma append_rows b sid store input c p b' :
  wf b → validatePath (JsString input) = inr p →
  append sid input c store b = (inr tt, b') →
  p ≠ "/" ∧
  (∀ r, vfs_nodes b !! (nsOf sid store, p) = Some r → node_type r = file) ∧
  b' = append_state (nsOf sid store) p c (flagOf store) b.
Proof.
  intros Hwf Hv. rewrite (append_eq _ _ _ _ _ _ Hwf Hv).
  destruct (String.eqb_spec p "/") as [->|Hp]; [done|]. cbv zeta.
  rewrite provision_lookup_nonroot by done.
  destruct (vfs_nodes b !! (nsOf sid store, p)) as [[[] c0]|] eqn:E;
    destruct (is_text c); intros [= <-]; split_and!; try done. by intros r [= <-].
Qed.

Lemma append_ok b sid store input c p :
  wf b → validatePath (JsString input) = inr p → p ≠ "/" → is_text c = true →
  (∀ r, vfs_nodes b !! (nsOf sid store, p) = Some r → node_type r = file) →
  append sid input c store b
  = (inr tt, append_state (nsOf sid store) p c (flagOf store) b).
Proof.
  intros Hwf Hv Hp Hc Hfile. rewrite (append_eq _ _ _ _ _ _ Hwf Hv).
  rewrite (proj2 (String.eqb_neq _ _) Hp), Hc. cbv zeta.
  rewrite provision_lookup_nonroot by done.
  destruct (vfs_nodes b !! (nsOf sid store, p)) as [[[] c0]|] eqn:E; try done.
  by specialize (Hfile _ eq_refl).
Qed.

Lemma is_text_app s t : is_text (s +:+ t) = is_text s && is_text t.
Proof. unfold is_text. by rewrite any_char_app, negb_orb. Qed.

(** The second content is one the database takes: were it refused, the
    first would be appended all the same. *)
Lemma append_twice b sid store input c1 c2 :
  wf b → is_text c2 = true →
  (append sid input c1 store ;; append sid input c2 store) b
  = append sid input (c1 +:+ c2) store b.
Proof.
  intros Hwf Hc2. unfold bind at 1.
  destruct (validatePath (JsString input)) as [e|p] eqn:Hv.
  { unfold append, bind. by rewrite (validated_fail _ _ _ Hv). }
  rewrite !(append_eq _ _ _ _ _ _ Hwf Hv).
  destruct (String.eqb_spec p "/") as [->|Hp]; [done|]. cbv zeta.
  set (A := nsOf sid store). rewrite provision_lookup_nonroot by done.
  rewrite is_text_app, Hc2, andb_true_r.
  destruct (is_text c1) eqn:Hc1;
    [|by destruct (vfs_nodes b !! (A, p)) as [[[] c0]|]].
  assert (wf (append_state A p c1 (flagOf store) b)) as Hwf' by by apply append_state_wf.
  assert ((∀ r, vfs_nodes b !! (A, p) = Some r → node_type r = file) →
          append sid input c2 store (append_state A p c1 (flagOf store) b)
          = (inr tt, append_state A p (c1 +:+ c2) (flagOf store) b)) as Hagain.
  { intros Hfile. rewrite (append_ok _ _ _ _ _ p); [|done..|].
    - fold A. by rewrite (append_state_again input).
    - fold A. intros r. rewrite (append_state_target input) by done.
      intros [= <-]. simpl. destruct (vfs_nodes b !! (A, p)) as [r|] eqn:E; [|done].
      by apply Hfile. }
  destruct (vfs_nodes b !! (A, p)) as [[[] c0]|] eqn:E; [|done|].
  - apply Hagain. by intros r [= <-].
  - apply Hagain. by intros r [=].
Qed.

(** ** [mkdir] *)

Lemma mkdir_state_known A p flag b : A ∈ knownNamespaces (mkdir_state A p flag b).
Proof. unfold mkdir_state. apply provision_known. Qed.

Lemma mkdir_state_wf A p flag b : wf b → wf (mkdir_state A p flag b).
Proof. intros Hwf. unfold mkdir_state. by apply (provision_wf A flag) in Hwf. Qed.

Lemma mkdir_state_lookup A p flag b k :
  vfs_nodes (mkdir_state A p flag b) !! k
  = match add_dirs A (ancestorPaths p) (vfs_nodes (provision A flag b)) !! k with
    | Some r => Some r
    | None => if bool_decide (k = (A, p)) then Some dirRow else None
    end.
Proof. unfold mkdir_state. simpl. apply add_dir_lookup. Qed.

Lemma mkdir_state_again A p flag b :
  mkdir_state A p flag (mkdir_state A p flag b) = mkdir_state A p flag b.
Proof.
  unfold mkdir_state at 1. rewrite provision_id by apply mkdir_state_known.
  apply set_nodes_same.
  assert (∀ a, a ∈ ancestorPaths p →
               is_Some (vfs_nodes (mkdir_state A p flag b) !! (A, a))) as Ha.
  { intros a Ha. rewrite mkdir_state_lookup.
    by destruct (base_ancestors A (ancestorPaths p) flag b a Ha) as [r ->]. }
  rewrite add_dirs_present by done. apply add_dir_present.
  rewrite mkdir_state_lookup.
  destruct (add_dirs _ _ _ !! (A, p)); [done|]. by rewrite bool_decide_eq_true_2.
Qed.

Lemma mkdir_rows b sid store input p e b' :
  wf b → validatePath (JsString input) = inr p →
  mkdir sid input store b = (inr e, b') →
  (p = "/" ∧ e = true ∧ b' = b) ∨
  (p ≠ "/" ∧
   (∀ r, vfs_nodes b !! (nsOf sid store, p) = Some r → node_type r = directory) ∧
   e = bool_decide (is_Some (vfs_nodes b !! (nsOf sid store, p))) ∧
   b' = mkdir_state (nsOf sid store) p (flagOf store) b).
Proof.
  intros Hwf Hv. rewrite (mkdir_eq _ _ _ _ _ Hwf Hv).
  destruct (String.eqb_spec p "/") as [->|Hp]; [intros [= <- <-]; by left|]. cbv zeta.
  rewrite provision_lookup_nonroot by done.
  destruct (vfs_nodes b !! (nsOf sid store, p)) as [[[] c0]|] eqn:E; intros [= <- <-];
    right; split_and!; try done. by intros r [= <-].
Qed.

(** ** [rm] *)

Lemma subtree_row_self A p : subtree_row A p (A, p) = true.
Proof.
  unfold subtree_row. cbn [fst snd]. by rewrite !String.eqb_refl.
Qed.

End OpLaws.

(** ** [move] on a source safe in a [LIKE] pattern *)

Module MoveLaws.
Import Js Paths Sql Storage Vfs Spec Terms PathFacts LikeFacts StorageFacts
  OpFacts UpdateFacts Outcomes Isolation CallLaws OpLaws.
Local Open Scope vfs_scope.

Lemma string_app_inj p a c : p +:+ a = p +:+ c → a = c.
Proof.
  induction p as [|d p IH]; [done|]. rewrite !string_app_cons. intros [= H]. by apply IH.
Qed.

(** Two ways to cut one string: one of the two prefixes continues the
    other. *)
Lemma string_app_eq_cases p a q c :
  p +:+ a = q +:+ c →
  (∃ t, p = q +:+ t ∧ c = t +:+ a) ∨ (∃ t, q = p +:+ t ∧ a = t +:+ c).
Proof.
  revert q. induction p as [|d p IH]; intros q H.
  - right. exists q. by rewrite !string_app_nil in *.
  - destruct q as [|e q].
    + left. exists (String d p). by rewrite !string_app_nil in *.
    + rewrite !string_app_cons in H. injection H as -> H.
      destruct (IH q H) as [(t & -> & ->)|(t & -> & ->)]; [left|right]; by exists t.
Qed.

Lemma startsWith_app s p : startsWith (p +:+ s) p = true.
Proof.
  rewrite strip_prefix_startsWith.
  by rewrite (proj2 (strip_prefix_Some p (p +:+ s) s) eq_refl).
Qed.

Lemma startsWith_split s p : startsWith s p = true ↔ ∃ t, s = p +:+ t.
Proof.
  rewrite strip_prefix_startsWith. split.
  - destruct (strip_prefix p s) as [t|] eqn:E; [|done]. intros _. exists t.
    by apply strip_prefix_Some.
  - intros [t ->]. by rewrite (proj2 (strip_prefix_Some p (p +:+ t) t) eq_refl).
Qed.

Lemma in_subtree_tail A p k :
  in_subtree A p k ↔ ∃ rest, k = (A, p +:+ rest) ∧ tail_of_path rest.
Proof.
  unfold in_subtree, tail_of_path. destruct k as [a q]. simpl. split.
  - intros [-> [->|H]].
    + exists "". by rewrite string_app_nil_r; auto.
    + apply startsWith_split in H as [t ->]. rewrite string_app_assoc.
      exists ("/" +:+ t). split; [done|]. right. by exists t.
  - intros (rest & [= -> ->] & [->|[r ->]]).
    + split; [done|]. left. apply string_app_nil_r.
    + split; [done|]. right. apply startsWith_split. exists r.
      by rewrite string_app_assoc.
Qed.

(** Two paths with a node at or under each in common: one is at or
    under the other. *)
Lemma tails_meet p a q c :
  tail_of_path a → tail_of_path c → p +:+ a = q +:+ c →
  p = q ∨ startsWith p (q +:+ "/") = true ∨ startsWith q (p +:+ "/") = true.
Proof.
  intros Ha Hc [(t & -> & ->)|(t & -> & ->)]%string_app_eq_cases.
  - destruct t as [|d t]; [left; by rewrite string_app_nil_r|]. right. left.
    destruct Hc as [Hc|[r Hc]]; [done|]. rewrite string_app_cons in Hc.
    injection Hc as -> _. apply startsWith_split. exists t. by rewrite string_app_assoc.
  - destruct t as [|d t]; [left; by rewrite string_app_nil_r|]. right. right.
    destruct Ha as [Ha|[r Ha]]; [done|]. rewrite string_app_cons in Ha.
    injection Ha as -> _. apply startsWith_split. exists t. by rewrite string_app_assoc.
Qed.

Lemma startsWith_trans s p q :
  startsWith s p = true → startsWith p q = true → startsWith s q = true.
Proof.
  rewrite !startsWith_split. intros [t ->] [u ->]. exists (u +:+ t).
  by rewrite string_app_assoc.
Qed.

Lemma join_take_drop l k :
  0 < k → k < length l →
  join "/" l = join "/" (firstn k l) +:+ "/" +:+ join "/" (skipn k l).
Proof.
  revert k. induction l as [|x l IH]; intros k Hk Hl; simpl in Hl; [lia|].
  destruct k as [|k]; [lia|]. destruct l as [|y l]; [simpl in Hl; lia|].
  destruct k as [|k].
  - change (firstn 1 (x :: y :: l)) with [x]. change (skipn 1 (x :: y :: l)) with (y :: l).
    by rewrite join_cons.
  - change (firstn (S (S k)) (x :: y :: l)) with (x :: firstn (S k) (y :: l)).
    change (skipn (S (S k)) (x :: y :: l)) with (skipn (S k) (y :: l)).
    change (firstn (S k) (y :: l)) with (y :: firstn k l) at 1.
    rewrite !join_cons.
    change (y :: firstn k l) with (firstn (S k) (y :: l)).
    rewrite (IH (S k)) by (simpl in *; lia).
    by rewrite !string_app_assoc.
Qed.

(** An ancestor of a validated path is the root, or a path that the
    path is under. *)
Lemma ancestor_prefix s p a :
  validatePath (JsString s) = inr p → a ∈ ancestorPaths p →
  a = "/" ∨ startsWith p (a +:+ "/") = true.
Proof.
  intros (l & Hl & ->)%validated_shape. rewrite ancestorPaths_join by done.
  destruct l as [|x l]; [by intros ?%elem_of_nil|].
  intros [->|Ha]%elem_of_cons; [by left|]. right.
  apply list_elem_of_In, in_map_iff in Ha as (i & <- & Hi%in_seq).
  apply startsWith_split. exists (join "/" (skipn (i + 1) (x :: l))).
  rewrite (join_take_drop (x :: l) (i + 1)) by (simpl in *; lia).
  by rewrite !string_app_assoc.
Qed.

Lemma move_base_keeps A dest flag b k r :
  vfs_nodes b !! k = Some r → vfs_nodes (move_base A dest flag b) !! k = Some r.
Proof.
  intros H. unfold move_base. destruct (String.eqb (parentPath dest) "/").
  - by apply provision_other.
  - by apply base_keeps.
Qed.

Lemma move_base_new A dest flag b k r :
  vfs_nodes (move_base A dest flag b) !! k = Some r → vfs_nodes b !! k = None →
  r = dirRow ∧ k.1 = A ∧ (k.2 ∈ ancestorPaths dest ∨ k.2 = "/").
Proof.
  unfold move_base. destruct (String.eqb (parentPath dest) "/").
  - rewrite provision_lookup. intros H Hn. rewrite Hn in H.
    case_bool_decide as Hk; [|done]. destruct Hk as [-> _]. simplify_eq.
    split_and!; [done..|by right].
  - apply base_new.
Qed.

Lemma validated_root_app s p rest :
  validatePath (JsString s) = inr p → p +:+ rest = "/" → p = "/".
Proof.
  intros [t ->]%validated_cons. rewrite string_app_cons. intros [= H].
  destruct t; [done|]. by rewrite string_app_cons in H.
Qed.

Section Move.
Context (b : Backend) (A source destination src dest : string) (flag : bool).
Context (Hsrc : validatePath (JsString source) = inr src)
        (Hdest : validatePath (JsString destination) = inr dest)
        (Hsrc_nonroot : src ≠ "/") (Hdest_nonroot : dest ≠ "/")
        (Hinside : startsWith dest (src +:+ "/") = false)
        (Hsafe : like_safe src)
        (Hthere : is_Some (vfs_nodes b !! (A, src)))
        (Hfree : ∀ k, in_subtree A dest k → vfs_nodes b !! k = None).

Local Abbreviation b2 := (move_base A dest flag b).
Local Abbreviation plan := (move_plan A src dest b2).
Local Abbreviation news := (List.map (fun x : (string * string) * (string * string) * Row =>
                                         (x.1.2, x.2)) plan).

Lemma move_base_dest rest :
  tail_of_path rest → vfs_nodes b2 !! (A, dest +:+ rest) = None.
Proof.
  intros Hrest. destruct (vfs_nodes b2 !! (A, dest +:+ rest)) as [r|] eqn:E; [|done].
  apply move_base_new in E as (_ & _ & [Hin|Hroot]).
  - simpl in Hin. destruct (validated_shape _ _ Hdest) as (l & Hl & ->).
    apply ancestor_shorter in Hin; [|done]. rewrite string_length_app in Hin. lia.
  - simpl in Hroot. by apply (validated_root_app _ _ _ Hdest) in Hroot.
  - apply Hfree, in_subtree_tail. by exists rest.
Qed.

Lemma move_base_src rest :
  tail_of_path rest →
  vfs_nodes b2 !! (A, src +:+ rest) = vfs_nodes b !! (A, src +:+ rest).
Proof.
  intros Hrest. destruct (vfs_nodes b !! (A, src +:+ rest)) as [r|] eqn:E.
  { by apply move_base_keeps. }
  destruct (vfs_nodes b2 !! (A, src +:+ rest)) as [r|] eqn:E2; [|done].
  apply move_base_new in E2 as (_ & _ & [Hin|Hroot]); [| |done]; simpl in *.
  - apply (ancestor_prefix _ _ _ Hdest) in Hin as [Hroot|Hpre].
    + by apply (validated_root_app _ _ _ Hsrc) in Hroot.
    + assert (startsWith dest (src +:+ "/") = true); [|congruence].
      apply (startsWith_trans _ _ _ Hpre). apply startsWith_split.
      destruct Hrest as [->|[r' ->]].
      * exists "". by rewrite string_app_nil_r, string_app_nil_r.
      * exists (r' +:+ "/"). by rewrite !string_app_assoc.
  - by apply (validated_root_app _ _ _ Hsrc) in Hroot.
Qed.

Lemma plan_elem x :
  x ∈ plan ↔
  ∃ rest, tail_of_path rest ∧ x.1.1 = (A, src +:+ rest) ∧ x.1.2 = (A, dest +:+ rest) ∧
          vfs_nodes b2 !! (A, src +:+ rest) = Some x.2.
Proof.
  rewrite move_plan_safe by done. split.
  - intros (Hl & (rest' & Hk' & Ht)%in_subtree_tail & rest & Hk & Hn).
    assert (rest' = rest) as -> by (rewrite Hk in Hk'; injection Hk' as H;
                                    by apply string_app_inj in H).
    exists rest. rewrite Hk in Hl. done.
  - intros (rest & Ht & Hk & Hn & Hl). rewrite Hk. split_and!; [done| |by exists rest].
    apply in_subtree_tail. by exists rest.
Qed.

Lemma plan_keys_NoDup : NoDup (List.map (fun x : (string * string) * (string * string) * Row =>
                                          x.1.2) plan).
Proof.
  apply (NoDup_fmap_2_strong (fun x : (string * string) * (string * string) * Row => x.1.2)).
  - intros x y (r1 & _ & Hx1 & Hx2 & Hx3)%plan_elem (r2 & _ & Hy1 & Hy2 & Hy3)%plan_elem E.
    rewrite Hx2, Hy2 in E. injection E as E. apply string_app_inj in E as ->.
    destruct x as [[x1 x2] x3], y as [[y1 y2] y3]. simpl in *. subst.
    rewrite Hx3 in Hy3. by injection Hy3 as ->.
  - unfold move_plan.
    apply (NoDup_fmap_2_strong (fun kr : (string * string) * Row =>
                                  (kr.1, moved_key src dest kr.1, kr.2))).
    + intros [k1 r1] [k2 r2] _ _ H. simpl in H.
      apply pair_equal_spec in H as [H ->]. apply pair_equal_spec in H as [-> _]. done.
    + apply NoDup_map_to_list.
Qed.

Lemma news_keys : news.*1 = List.map (fun x : (string * string) * (string * string) * Row =>
                                        x.1.2) plan.
Proof. rewrite <- list_fmap_compose. done. Qed.

Lemma news_lookup rest :
  tail_of_path rest →
  (list_to_map news : gmap (string * string) Row) !! (A, dest +:+ rest)
  = vfs_nodes b !! (A, src +:+ rest).
Proof.
  intros Hrest. rewrite <- (move_base_src rest Hrest).
  destruct (vfs_nodes b2 !! (A, src +:+ rest)) as [r|] eqn:E.
  - apply elem_of_list_to_map_1; [rewrite news_keys; apply plan_keys_NoDup|].
    apply list_elem_of_fmap. exists ((A, src +:+ rest), (A, dest +:+ rest), r).
    split; [done|]. apply plan_elem. by exists rest.
  - apply not_elem_of_list_to_map_1. rewrite news_keys.
    intros (x & Hx & (rest' & _ & _ & Hn & Hl)%plan_elem)%list_elem_of_fmap.
    rewrite Hn in Hx. injection Hx as Hx. apply string_app_inj in Hx as ->. congruence.
Qed.

Lemma news_lookup_other k :
  ¬ in_subtree A dest k → (list_to_map news : gmap (string * string) Row) !! k = None.
Proof.
  intros Hk. apply not_elem_of_list_to_map_1. rewrite news_keys.
  intros (x & -> & (rest & Ht & _ & Hn & _)%plan_elem)%list_elem_of_fmap.
  apply Hk, in_subtree_tail. by exists rest.
Qed.

Lemma src_not_under_dest k : in_subtree A src k → ¬ in_subtree A dest k.
Proof.
  intros (r1 & -> & H1)%in_subtree_tail (r2 & [= E] & H2)%in_subtree_tail.
  destruct Hthere as [r Hr].
  destruct (tails_meet _ _ _ _ H1 H2 E) as [E'|[E'|E']].
  - subst. rewrite Hfree in Hr; [done|]. apply in_subtree_tail. exists "".
    split; [by rewrite string_app_nil_r|by left].
  - rewrite Hfree in Hr; [done|]. split; [done|]. by right.
  - congruence.
Qed.

Lemma no_conflict : may_conflict b2 plan = false.
Proof.
  unfold may_conflict. apply orb_false_intro.
  - apply bool_decide_eq_false_2. intros H. apply H, plan_keys_NoDup.
  - destruct (existsb _ plan) eqn:E; [|done].
    apply existsb_exists in E as (x & Hx%list_elem_of_In & Hf).
    apply andb_prop in Hf as [_ Hf]. apply bool_decide_eq_true_1 in Hf.
    apply plan_elem in Hx as (rest & Ht & _ & Hn & _). rewrite Hn in Hf.
    rewrite move_base_dest in Hf by done. by destruct Hf.
Qed.

Lemma moveNode_rows row_order :
  ∃ b', moveNode row_order A src dest b2 = (inr tt, b') ∧
    (∀ rest, tail_of_path rest →
       vfs_nodes b' !! (A, dest +:+ rest) = vfs_nodes b !! (A, src +:+ rest)) ∧
    (∀ k, in_subtree A src k → vfs_nodes b' !! k = None) ∧
    (∀ k r, ¬ in_subtree A src k → vfs_nodes b !! k = Some r →
            vfs_nodes b' !! k = Some r).
Proof.
  rewrite (moveNode_free _ _ _ _ _ no_conflict). eexists. split; [done|].
  unfold moved. simpl. split_and!.
  - intros rest Hrest. rewrite lookup_union, (news_lookup rest Hrest).
    rewrite (proj2 (map_lookup_filter_None _ _ _)).
    + by destruct (vfs_nodes b !! (A, src +:+ rest)).
    + left. by apply move_base_dest.
  - intros k Hk. rewrite lookup_union.
    rewrite news_lookup_other by by apply src_not_under_dest.
    rewrite (proj2 (map_lookup_filter_None _ _ _)); [done|].
    right. intros r _ Hn. apply Hn. simpl. by apply subtree_row_in_subtree.
  - intros k r Hk Hl. rewrite lookup_union.
    rewrite news_lookup_other.
    + assert (filter (fun kr : (string * string) * Row => ¬ subtree_row A src kr.1)
                     (vfs_nodes b2) !! k = Some r) as ->; [|done].
      apply map_lookup_filter_Some.
      split; [by apply move_base_keeps|]. simpl. intros Hs. apply Hk.
      by apply subtree_row_in_subtree.
    + intros Hin. by rewrite (Hfree _ Hin) in Hl.
Qed.

End Move.


End MoveLaws.

(** ** Stores, [glob] and [grep] *)

Module SearchLaws.
Import Js Paths Sql Storage Vfs Spec Terms PathFacts LikeFacts SortFacts StorageFacts
  OpFacts.
Local Open Scope vfs_scope.

(** ** The list of stores *)

Lemma elem_of_store_names b s : s ∈ store_names b ↔ vfs_sessions b !! s = Some true.
Proof.
  unfold store_names. rewrite merge_sort_Permutation, list_elem_of_fmap. split.
  - intros ([s' f] & -> & Hin).
    apply elem_of_map_to_list, map_lookup_filter_Some in Hin as [Hl Hf].
    simpl in *. by subst.
  - intros Hl. exists (s, true). split; [done|].
    by apply elem_of_map_to_list, map_lookup_filter_Some.
Qed.

(** Provisioning a namespace lists one more store exactly when the call
    names a store that has no session row. *)
Lemma provision_store_names b sid store s :
  wf b →
  s ∈ store_names (provision (nsOf sid store) (flagOf store) b) ↔
  s ∈ store_names b ∨ (truthy store = Some s ∧ vfs_sessions b !! s = None).
Proof.
  intros Hwf. set (A := nsOf sid store). rewrite !elem_of_store_names.
  assert (∀ t, truthy store = Some t → t = A) as HA.
  { intros t Ht. unfold A, nsOf. by rewrite Ht. }
  unfold provision. destruct (decide (A ∈ knownNamespaces b)) as [Hk|Hk].
  { split; [by left|]. intros [?|[Ht Hs]]; [done|].
    apply HA in Ht as ->. destruct (Hwf A Hk) as [f Hf]. congruence. }
  simpl. destruct (vfs_sessions b !! A) as [f|] eqn:E.
  { split; [by left|]. intros [?|[Ht Hs]]; [done|]. apply HA in Ht as ->. congruence. }
  destruct (decide (s = A)) as [->|Hne].
  + rewrite lookup_insert_eq, E. unfold flagOf. split.
    * intros [= Hf]. right. split; [|done].
      apply bool_decide_eq_true_1 in Hf as [t Ht]. by rewrite Ht, (HA t Ht).
    * intros [?|[Ht _]]; [done|]. by rewrite Ht, bool_decide_eq_true_2.
  + rewrite lookup_insert_ne by done. split; [by left|].
    intros [?|[Ht _]]; [done|]. by apply HA in Ht.
Qed.

(** ** The path filter of [grep] *)

Lemma replace_char_cons c by_ d r :
  replace_char c by_ (String d r)
  = (if Ascii.eqb d c then by_ else String d "") +:+ replace_char c by_ r.
Proof. reflexivity. Qed.

Lemma replace_pair_plain c by_ d r :
  Ascii.eqb d c = false → replace_pair c by_ (String d r) = String d (replace_pair c by_ r).
Proof. intros H. destruct r as [|d2 r]; simpl; [done|]. by rewrite H. Qed.

Lemma replace_pair_single c by_ r :
  (∀ r', r ≠ String c r') →
  replace_pair c by_ (String c r) = String c (replace_pair c by_ r).
Proof.
  intros H. destruct r as [|d2 r]; simpl; [done|].
  destruct (Ascii.eqb_spec d2 c) as [->|Hne]; [by destruct (H r)|].
  by rewrite andb_false_r.
Qed.

Lemma replace_pair_double c by_ r :
  replace_pair c by_ (String c (String c r)) = by_ +:+ replace_pair c by_ r.
Proof. simpl. by rewrite Ascii.eqb_refl. Qed.

Lemma escaped_cons c f :
  escaped (String c f)
  = if Ascii.eqb c "%" then String "\" (String "%" (escaped f))
    else if Ascii.eqb c "_" then String "\" (String "_" (escaped f))
    else String c (escaped f).
Proof.
  unfold escaped. rewrite replace_char_cons.
  destruct (Ascii.eqb_spec c "%") as [->|H1]; [done|].
  change (String c "" +:+ ?x) with (String c x). rewrite replace_char_cons.
  by destruct (Ascii.eqb_spec c "_") as [->|H2].
Qed.

Lemma escaped_star f r : escaped f = String "*" r → ∃ f', f = String "*" f'.
Proof.
  destruct f as [|c f]; [done|]. rewrite escaped_cons.
  destruct (Ascii.eqb c "%"); [done|]. destruct (Ascii.eqb c "_"); [done|].
  intros [= -> _]. eauto.
Qed.

Lemma starred_plain d g :
  Ascii.eqb d "*" = false → starred (String d g) = String d (starred g).
Proof.
  intros H. unfold starred. rewrite replace_pair_plain by done.
  by rewrite replace_char_cons, H.
Qed.

Lemma starred_single g :
  (∀ r, g ≠ String "*" r) → starred (String "*" g) = String "%" (starred g).
Proof. intros H. unfold starred. by rewrite replace_pair_single. Qed.

Lemma starred_double g : starred (String "*" (String "*" g)) = String "%" (starred g).
Proof. unfold starred. by rewrite replace_pair_double. Qed.

Lemma like_pat_percent pat s :
  like_pat (String "%" pat) s
  = like_pat pat s
    || match s with EmptyString => false | String _ s' => like_pat (String "%" pat) s' end.
Proof. by destruct s. Qed.

Lemma star_match_star f s :
  star_match (String "*" f) s
  = star_match f s
    || match s with EmptyString => false | String _ s' => star_match (String "*" f) s' end.
Proof. by destruct s. Qed.

Lemma star_match_plain c f s :
  Ascii.eqb c "*" = false →
  star_match (String c f) s
  = match s with
    | EmptyString => false
    | String d s' => Ascii.eqb d c && star_match f s'
    end.
Proof. intros H. simpl. by rewrite H. Qed.

Lemma like_percent_star pat f :
  (∀ s, like_pat pat s = star_match f s) →
  ∀ s, like_pat (String "%" pat) s = star_match (String "*" f) s.
Proof.
  intros H s. induction s as [|d s IH].
  - by rewrite like_pat_percent, star_match_star, H.
  - by rewrite like_pat_percent, star_match_star, H, IH.
Qed.

Lemma star_match_star_star f s :
  star_match (String "*" (String "*" f)) s = star_match (String "*" f) s.
Proof.
  induction s as [|d s IH].
  - rewrite (star_match_star (String "*" f)). by rewrite orb_false_r.
  - rewrite (star_match_star (String "*" f)), IH.
    rewrite (star_match_star f (String d s)). by destruct (star_match f (String d s)),
      (star_match (String "*" f) s).
Qed.

Lemma grep_filter_sound n f :
  String.length f ≤ n → free_of "\" f →
  ∀ s, like_pat (sql_path_filter f) s = star_match f s.
Proof.
  unfold sql_path_filter. revert f. induction n as [|n IH]; intros f Hn Hf.
  { destruct f; [done|simpl in Hn; lia]. }
  destruct f as [|c f]; [done|]. simpl in Hn.
  unfold free_of in Hf. simpl in Hf. apply orb_false_elim in Hf as [Hc Hf].
  rewrite escaped_cons.
  destruct (Ascii.eqb_spec c "%") as [->|H1].
  { intros s. rewrite starred_plain by done. rewrite starred_plain by done.
    rewrite star_match_plain by done.
    destruct s as [|d s]; [done|]. simpl. f_equal. apply IH; [lia|done]. }
  destruct (Ascii.eqb_spec c "_") as [->|H2].
  { intros s. rewrite starred_plain by done. rewrite starred_plain by done.
    rewrite star_match_plain by done.
    destruct s as [|d s]; [done|]. simpl. f_equal. apply IH; [lia|done]. }
  destruct (Ascii.eqb_spec c "*") as [->|H3].
  - destruct f as [|c2 f].
    { intros s. change (escaped "") with "". rewrite starred_single by done.
      apply like_percent_star. intros t. by destruct t. }
    destruct (Ascii.eqb_spec c2 "*") as [->|H4].
    + rewrite escaped_cons. change (Ascii.eqb "*" "%") with false.
      change (Ascii.eqb "*" "_") with false. cbv iota.
      rewrite starred_double. intros s. rewrite star_match_star_star.
      apply like_percent_star. apply IH; [simpl in Hn; lia|].
      simpl in Hf. exact Hf.
    + rewrite starred_single.
      * apply like_percent_star. apply IH; [lia|done].
      * intros r Hr. apply escaped_star in Hr as [f' [= -> _]]. done.
  - intros s. apply Ascii.eqb_neq in H1, H2, H3.
    rewrite starred_plain by done. rewrite star_match_plain by done.
    rewrite like_pat_cons_plain.
    + destruct s as [|d s]; [done|]. f_equal. apply IH; [lia|done].
    + unfold like_meta. rewrite H1, H2. simpl. by rewrite Ascii.eqb_sym.
Qed.

Lemma sql_path_filter_nonempty f : f ≠ "" → sql_path_filter f ≠ "".
Proof.
  intros Hf. destruct f as [|c f]; [done|]. unfold sql_path_filter.
  rewrite escaped_cons.
  destruct (Ascii.eqb c "%"); [by rewrite starred_plain|].
  destruct (Ascii.eqb c "_"); [by rewrite starred_plain|].
  destruct (Ascii.eqb_spec c "*") as [->|Hc%Ascii.eqb_neq].
  - destruct (escaped f) as [|d g] eqn:Ef; [done|].
    destruct (Ascii.eqb_spec d "*") as [->|Hd].
    + by rewrite starred_double.
    + rewrite starred_single; [done|]. intros r [= ? _]. done.
  - by rewrite starred_plain.
Qed.

Lemma truthy_Some pathFilter f : truthy pathFilter = Some f → f ≠ "".
Proof.
  destruct pathFilter as [s|]; simpl; [|done].
  destruct (String.eqb_spec s ""); [done|]. by intros [= <-].
Qed.

Lemma truthy_filter pathFilter :
  truthy (option_map sql_path_filter (truthy pathFilter))
  = option_map sql_path_filter (truthy pathFilter).
Proof.
  destruct (truthy pathFilter) as [f|] eqn:E; [|done]. simpl.
  apply truthy_Some, sql_path_filter_nonempty in E.
  by destruct (String.eqb_spec (sql_path_filter f) "").
Qed.

Lemma provision_file_lookup A flag b k r :
  node_type r = file →
  vfs_nodes (provision A flag b) !! k = Some r ↔ vfs_nodes b !! k = Some r.
Proof.
  intros Hf. rewrite provision_lookup. destruct (vfs_nodes b !! k); [done|].
  case_bool_decide; [|done]. split; [|done]. intros [= <-]. done.
Qed.

(** ** The [LIKE] pattern of a path filter *)

Lemma escapes_closed_plain c pat :
  Ascii.eqb c "\" = false → escapes_closed (String c pat) = escapes_closed pat.
Proof. intros H. simpl. by rewrite H. Qed.

(** The pattern made of a path filter without a backslash escapes the
    two wildcards it escapes, and nothing else. *)
Lemma sql_path_filter_closed n f :
  String.length f ≤ n → free_of "\" f → escapes_closed (sql_path_filter f) = true.
Proof.
  unfold sql_path_filter. revert f. induction n as [|n IH]; intros f Hn Hf.
  { destruct f; [done|simpl in Hn; lia]. }
  destruct f as [|c f]; [done|]. simpl in Hn.
  unfold free_of in Hf. simpl in Hf. apply orb_false_elim in Hf as [Hc Hf].
  rewrite escaped_cons.
  destruct (Ascii.eqb_spec c "%") as [->|H1].
  { rewrite starred_plain by done. rewrite starred_plain by done.
    simpl. apply IH; [lia|done]. }
  destruct (Ascii.eqb_spec c "_") as [->|H2].
  { rewrite starred_plain by done. rewrite starred_plain by done.
    simpl. apply IH; [lia|done]. }
  destruct (Ascii.eqb_spec c "*") as [->|H3].
  - destruct f as [|c2 f]; [done|].
    destruct (Ascii.eqb_spec c2 "*") as [->|H4].
    + rewrite escaped_cons. change (Ascii.eqb "*" "%") with false.
      change (Ascii.eqb "*" "_") with false. cbv iota.
      rewrite starred_double, escapes_closed_plain by done.
      apply IH; [simpl in Hn; lia|]. simpl in Hf. exact Hf.
    + rewrite starred_single.
      * rewrite escapes_closed_plain by done. apply IH; [lia|done].
      * intros r Hr. apply escaped_star in Hr as [f' [= -> _]]. done.
  - apply Ascii.eqb_neq in H3. rewrite starred_plain by done.
    rewrite escapes_closed_plain by by rewrite Ascii.eqb_sym.
    apply IH; [lia|done].
Qed.

Lemma is_text_cons c s : is_text (String c s) = negb (Ascii.eqb c zero) && is_text s.
Proof. unfold is_text. simpl. by rewrite negb_orb. Qed.

(** The pattern holds a NUL exactly when the path filter does. *)
Lemma sql_path_filter_text n f :
  String.length f ≤ n → is_text (sql_path_filter f) = is_text f.
Proof.
  unfold sql_path_filter. revert f. induction n as [|n IH]; intros f Hn.
  { destruct f; [done|simpl in Hn; lia]. }
  destruct f as [|c f]; [done|]. simpl in Hn. rewrite escaped_cons.
  destruct (Ascii.eqb_spec c "%") as [->|H1].
  { rewrite starred_plain by done. rewrite starred_plain by done.
    rewrite !is_text_cons. simpl. apply IH. lia. }
  destruct (Ascii.eqb_spec c "_") as [->|H2].
  { rewrite starred_plain by done. rewrite starred_plain by done.
    rewrite !is_text_cons. simpl. apply IH. lia. }
  destruct (Ascii.eqb_spec c "*") as [->|H3].
  - destruct f as [|c2 f]; [done|].
    destruct (Ascii.eqb_spec c2 "*") as [->|H4].
    + rewrite escaped_cons. change (Ascii.eqb "*" "%") with false.
      change (Ascii.eqb "*" "_") with false. cbv iota.
      rewrite starred_double, !is_text_cons. simpl. apply IH. simpl in Hn. lia.
    + rewrite starred_single.
      * rewrite (is_text_cons "%"), (is_text_cons "*"), IH by lia. done.
      * intros r Hr. apply escaped_star in Hr as [f' [= -> _]]. done.
  - apply Ascii.eqb_neq in H3. rewrite starred_plain by done.
    rewrite !is_text_cons. f_equal. apply IH. lia.
Qed.

(** ** [grep] and [grepContent] *)

Lemma grepContent_state collate regex_match A pattern pathFilter b :
  snd (grepContent collate regex_match A pattern pathFilter b) = b.
Proof.
  unfold grepContent. destruct (negb _); [done|].
  destruct (regex_match pattern); [|done].
  by destruct (match truthy pathFilter with Some _ => _ | None => _ end).
Qed.

Lemma grep_eq regexp_compiles regex_match collate sid pattern pathFilter store b :
  grep regexp_compiles regex_match collate sid pattern pathFilter store b =
  if regexp_compiles pattern then
    (fst (grepContent collate regex_match (nsOf sid store) pattern
            (option_map sql_path_filter (truthy pathFilter))
            (provision (nsOf sid store) (flagOf store) b)),
     provision (nsOf sid store) (flagOf store) b)
  else (inl (EVfs EINVAL), b).
Proof.
  unfold grep. destruct (regexp_compiles pattern); [|done].
  unfold bind, ns. rewrite resolveNamespace_eq. fold (flagOf store). cbv zeta.
  set (b1 := provision (nsOf sid store) (flagOf store) b).
  assert (∀ f, grepContent collate regex_match (nsOf sid store) pattern f b1
               = (fst (grepContent collate regex_match (nsOf sid store) pattern f b1), b1))
    as H.
  { intros f. rewrite <- (grepContent_state collate regex_match (nsOf sid store)
                            pattern f b1) at 3. apply surjective_pairing. }
  destruct (truthy pathFilter); apply H.
Qed.

(** The three refusals of the database, in the order it comes to
    them. *)
Lemma grepContent_refused collate regex_match A pattern pathFilter b :
  (is_text pattern = false → 
   fst (grepContent collate regex_match A pattern pathFilter b)
   = inl (EDb character_not_in_repertoire)) ∧
  (∀ f, truthy pathFilter = Some f → is_text f = false →
   fst (grepContent collate regex_match A pattern pathFilter b)
   = inl (EDb character_not_in_repertoire)) ∧
  (is_text pattern = true → (∀ f, truthy pathFilter = Some f → is_text f = true) →
   regex_match pattern = None →
   fst (grepContent collate regex_match A pattern pathFilter b)
   = inl (EDb invalid_regular_expression)).
Proof.
  unfold grepContent. split_and!.
  - by intros ->.
  - intros f -> ->. by rewrite andb_false_r.
  - intros -> Hf ->. destruct (truthy pathFilter) as [f|]; [|done].
    by rewrite (Hf f eq_refl).
Qed.

Lemma grepContent_ok collate regex_match A pattern pathFilter b matches :
  is_text pattern = true →
  (∀ f, truthy pathFilter = Some f → is_text f = true ∧ escapes_closed f = true) →
  regex_match pattern = Some matches →
  grepContent collate regex_match A pattern pathFilter b
  = (inr (flat_map (matching_lines matches)
            (ordered (fun x y : (string * string) * Row => collate x.1.2 y.1.2)
               (map_to_list
                  (filter (fun kr => matched_file A matches pathFilter kr)
                          (vfs_nodes b))))), b).
Proof.
  intros Hp Hf Hrx. unfold grepContent. rewrite Hp, Hrx.
  destruct (truthy pathFilter) as [f|]; [|done].
  destruct (Hf f eq_refl) as [-> Hc]. simpl.
  destruct (existsb _ _) eqn:E; [|done].
  apply existsb_exists in E as (kr & _ & Hr). by rewrite like_raises_closed in Hr.
Qed.

Lemma elem_of_matching_lines matches kr m :
  m ∈ matching_lines matches kr ↔
  match_path m = kr.1.2 ∧ 1 ≤ lineNumber m ∧
  split "010" (default "" (content kr.2)) !! (lineNumber m - 1) = Some (line m) ∧
  matches (line m) = true.
Proof.
  unfold matching_lines. rewrite list_elem_of_In, filter_In, <- list_elem_of_In.
  rewrite elem_of_lookup_imap. split.
  - intros [(i & l & -> & Hl) Hm]. simpl in *.
    replace (i + 1 - 1) with i by lia. split_and!; [done|lia|done..].
  - intros (Hp & Hn & Hl & Hm). split; [|done].
    exists (lineNumber m - 1), (line m). split; [|done].
    destruct m as [mp mn ml]. simpl in *. subst. f_equal. lia.
Qed.

Lemma elem_of_matched_lines collate A matches pathFilter b m :
  m ∈ flat_map (matching_lines matches)
        (ordered (fun x y : (string * string) * Row => collate x.1.2 y.1.2)
           (map_to_list
              (filter (fun kr => matched_file A matches pathFilter kr) (vfs_nodes b)))) ↔
  ∃ r c, vfs_nodes b !! (A, match_path m) = Some r ∧ node_type r = file ∧
         content r = Some c ∧ matches c = true ∧
         (∀ f, truthy pathFilter = Some f → like (match_path m) f = true) ∧
         1 ≤ lineNumber m ∧
         split "010" c !! (lineNumber m - 1) = Some (line m) ∧
         matches (line m) = true.
Proof.
  split.
  - intros Hin.
    apply list_elem_of_In, in_flat_map in Hin as ([[a q] r] & Hkr & Hm).
    apply list_elem_of_In in Hkr, Hm. rewrite ordered_perm in Hkr.
    apply elem_of_map_to_list, map_lookup_filter_Some in Hkr as [Hl Hmf].
    apply elem_of_matching_lines in Hm as (Hp & Hn & Hline & Hrx). simpl in *.
    unfold matched_file, content_matches in Hmf. simpl in Hmf.
    apply andb_prop_elim in Hmf as [Hmf Hfilter].
    apply andb_prop_elim in Hmf as [Hmf Hc].
    apply andb_prop_elim in Hmf as [Ha Hf].
    apply Is_true_true, String.eqb_eq in Ha as ->.
    apply bool_decide_unpack in Hf.
    destruct (content r) as [c|] eqn:Ec; [|done]. apply Is_true_true in Hc.
    exists r, c. rewrite Hp. split_and!; try done.
    intros f Hf'. rewrite Hf' in Hfilter. by apply Is_true_true.
  - intros (r & c & Hl & Hf & Hc & Hrx & Hfilter & Hn & Hline & Hm).
    apply list_elem_of_In, in_flat_map. exists ((A, match_path m), r). split.
    + apply list_elem_of_In. rewrite ordered_perm.
      apply elem_of_map_to_list, map_lookup_filter_Some. split; [done|].
      unfold matched_file, content_matches. simpl. rewrite String.eqb_refl, Hc, Hrx.
      rewrite bool_decide_eq_true_2 by done. simpl.
      destruct (truthy pathFilter) as [f|]; [|done]. by rewrite Hfilter.
    + apply list_elem_of_In, elem_of_matching_lines. simpl. by rewrite Hc.
Qed.

(** ** The order of the matches *)

Section Order.
Context (collate : string → string → Z).

Lemma imap_lines_sorted p k (lines : list string) :
  (collate p p ≤ 0)%Z →
  StronglySorted (match_before collate) (imap (fun i l => mkMatch p (k + i + 1) l) lines).
Proof.
  intros Hp. revert k. induction lines as [|x lines IH]; intros k; [constructor|].
  rewrite imap_cons. constructor.
  - rewrite (imap_ext _ (fun i l => mkMatch p (S k + i + 1) l)).
    + apply IH.
    + intros i y _. simpl. f_equal. lia.
  - apply Forall_forall. intros m (i & y & -> & _)%elem_of_lookup_imap.
    split; simpl; [done|lia].
Qed.

Lemma matching_lines_sorted matches kr :
  (collate kr.1.2 kr.1.2 ≤ 0)%Z →
  StronglySorted (match_before collate) (matching_lines matches kr).
Proof.
  intros Hp. unfold matching_lines. apply StronglySorted_list_filter.
  by apply (imap_lines_sorted kr.1.2 0).
Qed.

Lemma matching_lines_path matches kr m :
  m ∈ matching_lines matches kr → match_path m = kr.1.2.
Proof. by intros (? & _)%elem_of_matching_lines. Qed.

Lemma flat_map_matches_sorted matches (files : list ((string * string) * Row)) :
  (∀ p, collate p p ≤ 0)%Z →
  StronglySorted (fun x y : (string * string) * Row => cmp_le collate x.1.2 y.1.2) files →
  NoDup (List.map (fun kr : (string * string) * Row => kr.1.2) files) →
  StronglySorted (match_before collate) (flat_map (matching_lines matches) files).
Proof.
  intros Hrefl. induction 1 as [|x files Hs IH Hx]; intros Hnd; [constructor|].
  change (flat_map ?g (x :: files)) with (g x ++ flat_map g files).
  change (NoDup (x.1.2 :: List.map (fun kr : (string * string) * Row => kr.1.2) files))
    in Hnd.
  apply NoDup_cons in Hnd as [Hnin Hnd].
  apply StronglySorted_app_2; [|by apply matching_lines_sorted|by apply IH].
  intros a c Ha Hc.
  apply list_elem_of_In, in_flat_map in Hc as (y & Hy & Hc).
  apply list_elem_of_In in Hy, Hc.
  apply matching_lines_path in Ha, Hc. rewrite Forall_forall in Hx.
  split; [rewrite Ha, Hc; by apply Hx|].
  rewrite Ha, Hc. intros E. destruct Hnin. rewrite E.
  apply list_elem_of_In.
  apply (in_map (fun kr : (string * string) * Row => kr.1.2) files y).
  by apply list_elem_of_In.
Qed.

Lemma grepContent_sorted regex_match A pattern pathFilter b l :
  total_preorder collate →
  fst (grepContent collate regex_match A pattern pathFilter b) = inr l →
  StronglySorted (match_before collate) l.
Proof.
  intros Hpre. pose proof Hpre as [Htot Htrans]. unfold grepContent.
  destruct (negb _); [done|]. destruct (regex_match pattern) as [matches|]; [|done].
  destruct (match truthy pathFilter with Some _ => _ | None => _ end); [done|].
  intros [= <-]. apply flat_map_matches_sorted.
  - intros p. by destruct (Htot p p).
  - apply (ordered_sorted (fun x y : (string * string) * Row => collate x.1.2 y.1.2)).
    split; [intros x y; apply Htot|intros x y z; apply Htrans].
  - set (rows := filter _ (vfs_nodes b)).
    assert (NoDup (List.map (fun kr : (string * string) * Row => kr.1.2)
                     (map_to_list rows))) as Hnd.
    { assert (NoDup ((map_to_list rows).*1)) as H by apply NoDup_fst_map_to_list.
      apply NoDup_fmap_1 in H as H'.
      apply (NoDup_fmap_2_strong (fun kr : (string * string) * Row => kr.1.2)); [|done].
      intros [[a1 q1] r1] [[a2 q2] r2] H1 H2 Hq. simpl in Hq. subst q2.
      apply elem_of_map_to_list in H1 as H1', H2 as H2'.
      apply map_lookup_filter_Some in H1' as [Hl1 Hm1], H2' as [Hl2 Hm2].
      unfold matched_file, content_matches in Hm1, Hm2. simpl in *.
      repeat match goal with
             | H : Is_true (_ && _) |- _ => apply andb_prop_elim in H as [H ?]
             end.
      repeat match goal with
             | H : Is_true (String.eqb _ _) |- _ => apply Is_true_true, String.eqb_eq in H
             end.
      subst. congruence. }
    by rewrite ordered_perm.
Qed.

End Order.

End SearchLaws.

(** ** The further properties *)

Module Further.
Import Js Paths Sql Storage Vfs Spec Terms PathFacts LikeFacts SortFacts StorageFacts OpFacts
  UpdateFacts Outcomes Invariant Isolation PathLaws CallLaws Soundness OpLaws MoveLaws
  SearchLaws.
Local Open Scope vfs_scope.

(** X1: [normalizePath] is idempotent, and the paths it leaves as they
    are are the canonical ones: a leading separator, then segments
    joined by single separators, none of them empty, [.] or [..]. *)
Theorem normalizePath_fixed_points x :
  normalizePath (normalizePath x) = normalizePath x ∧
  (normalizePath x = x ↔ ∃ l, Forall Seg l ∧ x = "/" +:+ join "/" l).
Proof.
  split; [apply normalizePath_idem|]. split.
  - intros E. destruct (normalizePath_shape x) as (l & Hl & El). exists l.
    split; [done|congruence].
  - intros (l & Hl & ->). by apply normalizePath_join.
Qed.

(** X2: [normalizePath] adds at most the leading separator: the result
    is at most one code unit longer than the input, no longer than it
    when the input starts with a separator, and every code unit of the
    result is the separator or a code unit of the input. *)
Theorem normalizePath_bounds x :
  String.length (normalizePath x) ≤ String.length x + 1 ∧
  (startsWith x "/" = true → String.length (normalizePath x) ≤ String.length x) ∧
  (∀ P, any_char P (normalizePath x) = true → P "/"%char = true ∨ any_char P x = true).
Proof.
  destruct (normalizePath_length x). split_and!; [done..|].
  intros P. apply normalizePath_chars.
Qed.

(** X3: the path that [validatePath] returns has no control character
    and at most 4097 code units, at most 4096 when the input starts
    with a separator; and if it is within the 4096, [validatePath]
    accepts it again and returns it as it is. *)
Theorem validatePath_again s p :
  validatePath (JsString s) = inr p →
  has_control p = false ∧
  String.length p ≤ MAX_PATH_LENGTH + 1 ∧
  (startsWith s "/" = true → String.length p ≤ MAX_PATH_LENGTH) ∧
  (String.length p ≤ MAX_PATH_LENGTH → validatePath (JsString p) = inr p).
Proof.
  intros (-> & Hlen & Hc)%validatePath_inr.
  destruct (normalizePath_length s) as [H1 H2].
  pose proof (normalizePath_no_control _ Hc) as Hc'.
  split_and!; [done|lia| |].
  - intros H. specialize (H2 H). lia.
  - intros H. rewrite validatePath_accepts by done. by rewrite normalizePath_idem.
Qed.

Lemma validatePath_again_witness :
  validatePath (JsString "a/./b/") = inr "/a/b" ∧
  validatePath (JsString "/a/b") = inr "/a/b".
Proof.
  split; [reflexivity|].
  apply (validatePath_again "a/./b/" "/a/b"); [reflexivity|]. vm_compute. lia.
Defined.

(** X4: for a path whose normal form is not the root, the normal form
    is [parentPath], a separator (unless the parent is the root) and
    [basename]; the basename is one segment; the parent is in normal
    form and shorter. *)
Theorem parent_and_basename q :
  normalizePath q ≠ "/" →
  normalizePath q
  = (if String.eqb (parentPath q) "/" then "/" else parentPath q +:+ "/") +:+ basename q ∧
  Seg (basename q) ∧
  normalizePath (parentPath q) = parentPath q ∧
  String.length (parentPath q) < String.length (normalizePath q).
Proof.
  intros (l & x & Hl & Hx & E)%normal_form_cut.
  rewrite (parentPath_canonical q l x Hl Hx E), (basename_canonical q l x Hl Hx E).
  split_and!; [|done|by apply normalizePath_join|].
  - rewrite E, canonical_cut. destruct l as [|y l]; [done|].
    assert (String.eqb ("/" +:+ join "/" (y :: l)) "/" = false) as ->.
    { apply String.eqb_neq. by apply canonical_nonroot_list. }
    symmetry. apply (string_app_assoc _ "/" x).
  - rewrite E, canonical_cut, !string_length_app.
    pose proof (Seg_nonempty_length _ Hx).
    change (String.length (String "/" x)) with (S (String.length x)).
    destruct l; [simpl; lia|]. cbv iota. rewrite !string_length_app. lia.
Qed.

Lemma parent_and_basename_witness :
  normalizePath "/a/b/../c/d.txt" ≠ "/" ∧
  normalizePath "/a/b/../c/d.txt" = "/a/c" +:+ "/" +:+ "d.txt".
Proof.
  assert (normalizePath "/a/b/../c/d.txt" ≠ "/") as H by (vm_compute; discriminate).
  split; [done|].
  exact (proj1 (parent_and_basename "/a/b/../c/d.txt" H)).
Defined.

(** X5: [ancestorPaths] has as many elements as the path has
    segments, none exactly for the root, and otherwise is the ancestors
    of the parent followed by the parent: the list runs from the root
    down to [parentPath]. *)
Theorem ancestorPaths_chain q :
  length (ancestorPaths q) = depth q ∧
  (ancestorPaths q = [] ↔ normalizePath q = "/") ∧
  (normalizePath q ≠ "/" →
   ancestorPaths q = ancestorPaths (parentPath q) ++ [parentPath q]).
Proof.
  destruct (String.eqb_spec (normalizePath q) "/") as [E|Hq].
  - unfold ancestorPaths, depth. rewrite E. split_and!; done.
  - pose proof Hq as (l & x & Hl & Hx & E)%normal_form_cut.
    assert (Forall Seg (l ++ [x])) as Hlx by (apply Forall_app; split; [done|by constructor]).
    split_and!.
    + unfold ancestorPaths, depth. rewrite (proj2 (String.eqb_neq _ _) Hq).
      rewrite E, segments_canonical by done. rewrite length_app. simpl.
      rewrite length_map, length_seq. lia.
    + split; [|done]. rewrite ancestorPaths_normalized, E, ancestorPaths_snoc by done.
      by intros ?%app_eq_nil%proj2.
    + intros _. rewrite (parentPath_canonical q l x Hl Hx E).
      by rewrite ancestorPaths_normalized, E, ancestorPaths_snoc.
Qed.

(** X6: a successful [write] leaves the file with the content at the
    path and a node at every ancestor; every other row that was there
    is as it was, and every other row that is new is a directory at an
    ancestor of the path, in the namespace of the call. *)
Theorem write_footprint b sid store input c p created b' :
  wf b → validatePath (JsString input) = inr p →
  write sid input c store b = (inr created, b') →
  vfs_nodes b' !! (nsOf sid store, p) = Some (mkRow file (Some c)) ∧
  (∀ a, a ∈ ancestorPaths p → is_Some (vfs_nodes b' !! (nsOf sid store, a))) ∧
  (∀ k r, k ≠ (nsOf sid store, p) → vfs_nodes b !! k = Some r →
          vfs_nodes b' !! k = Some r) ∧
  (∀ k r, k ≠ (nsOf sid store, p) → vfs_nodes b' !! k = Some r →
          vfs_nodes b !! k = None →
          r = dirRow ∧ k.1 = nsOf sid store ∧ k.2 ∈ ancestorPaths p).
Proof.
  intros Hwf Hv Hw. destruct (write_rows _ _ _ _ _ _ _ _ Hwf Hv Hw) as (Hp & Hfile & ->).
  set (A := nsOf sid store) in *. split_and!.
  - apply (write_state_target input); [done|]. intros r.
    rewrite provision_lookup_nonroot by done. apply Hfile.
  - intros a Ha. unfold write_state, upsert. simpl.
    rewrite lookup_insert_ne by (intros [= <-]; by apply (ancestor_proper _ _ _ Hv Ha)).
    by apply base_ancestors.
  - intros k r Hk H. unfold write_state, upsert. simpl.
    rewrite lookup_insert_ne by done. by apply base_keeps.
  - intros k r Hk H Hn. unfold write_state, upsert in H. simpl in H.
    rewrite lookup_insert_ne in H by done.
    destruct (base_new _ _ _ _ _ _ H Hn) as (-> & HA & [Hin|Hroot]); split_and!; try done.
    rewrite Hroot. by apply (root_is_ancestor input).
Qed.

Lemma write_footprint_witness :
  wf empty_backend ∧
  validatePath (JsString "/a/b.txt") = inr "/a/b.txt" ∧
  write "s" "/a/b.txt" "x" None empty_backend
  = (inr true, snd (write "s" "/a/b.txt" "x" None empty_backend)) ∧
  vfs_nodes (snd (write "s" "/a/b.txt" "x" None empty_backend)) !! ("s", "/a/b.txt")
  = Some (mkRow file (Some "x")).
Proof.
  assert (write "s" "/a/b.txt" "x" None empty_backend
          = (inr true, snd (write "s" "/a/b.txt" "x" None empty_backend))) as H
    by (vm_compute; reflexivity).
  split; [apply wf_empty|]. split; [reflexivity|]. split; [done|].
  by destruct (write_footprint empty_backend "s" None "/a/b.txt" "x" "/a/b.txt" true _
                 wf_empty eq_refl H) as [? _].
Defined.



(** X8: [append] fails with [EINVAL] on the root, before the backend
    is touched, and with [EISDIR] on a directory; otherwise, for a
    content without a NUL code unit in a namespace whose id has none
    either, it succeeds and [read] then returns the former content,
    empty where there was no file or no content, followed by what was
    appended; and for a content with a NUL code unit it is refused by
    the database and leaves under the path what was there. *)
Theorem append_then_read b sid store input c p :
  wf b → validatePath (JsString input) = inr p →
  (p = "/" → append sid input c store b = (inl (EVfs EINVAL), b)) ∧
  (p ≠ "/" → (∃ c0, vfs_nodes b !! (nsOf sid store, p) = Some (mkRow directory c0)) →
   fst (append sid input c store b) = inl (EVfs EISDIR)) ∧
  (p ≠ "/" → (∀ r, vfs_nodes b !! (nsOf sid store, p) = Some r → node_type r = file) →
   is_text (nsOf sid store) = true → is_text c = true →
   ∃ b', append sid input c store b = (inr tt, b') ∧
         read sid input store b' = (inr (content_at (nsOf sid store) p b +:+ c), b')) ∧
  (p ≠ "/" → (∀ r, vfs_nodes b !! (nsOf sid store, p) = Some r → node_type r = file) →
   is_text c = false →
   fst (append sid input c store b) = inl (EDb character_not_in_repertoire) ∧
   vfs_nodes (snd (append sid input c store b)) !! (nsOf sid store, p)
   = vfs_nodes b !! (nsOf sid store, p)).
Proof.
  intros Hwf Hv. set (A := nsOf sid store). split_and!.
  - intros ->. by rewrite (append_eq _ _ _ _ _ _ Hwf Hv).
  - intros Hp [c0 Hd]. rewrite (append_eq _ _ _ _ _ _ Hwf Hv).
    rewrite (proj2 (String.eqb_neq _ _) Hp). cbv zeta. fold A.
    by rewrite provision_lookup_nonroot, Hd.
  - intros Hp Hfile _ Hc. eexists. split; [by apply (append_ok _ _ _ _ _ p)|].
    rewrite (read_eq _ _ _ _ _ Hv). cbv zeta. fold A.
    rewrite provision_id by apply append_state_known.
    rewrite (append_state_target input) by done.
    destruct (vfs_nodes b !! (A, p)) as [r|] eqn:E; [|done].
    by rewrite (Hfile r eq_refl).
  - intros Hp Hfile Hc. rewrite (append_eq _ _ _ _ _ _ Hwf Hv).
    rewrite (proj2 (String.eqb_neq _ _) Hp), Hc. cbv zeta. fold A.
    rewrite provision_lookup_nonroot by done.
    destruct (vfs_nodes b !! (A, p)) as [[[] c0]|] eqn:E;
      try (by specialize (Hfile _ eq_refl));
      (split; [done|]); simpl; by rewrite (base_target _ _ _ _ _ Hv Hp).
Qed.

Lemma append_then_read_witness :
  wf empty_backend ∧ validatePath (JsString "/log.txt") = inr "/log.txt" ∧
  is_text (nsOf "s" None) = true ∧ is_text "line1" = true ∧
  ∃ b', append "s" "/log.txt" "line1" None empty_backend = (inr tt, b') ∧
        read "s" "/log.txt" None b' = (inr "line1", b').
Proof.
  split; [apply wf_empty|]. split; [reflexivity|]. split; [reflexivity|].
  split; [reflexivity|].
  apply (append_then_read empty_backend "s" None "/log.txt" "line1" "/log.txt" wf_empty
           eq_refl); [discriminate| |reflexivity..]. intros r. vm_compute. discriminate.
Defined.

(** X9: two [append]s to one path, the second of a content without a
    NUL code unit, are one [append] of the two contents in a row, as to
    the result and as to the backend. *)
Theorem append_append b sid store input c1 c2 :
  wf b → is_text c2 = true →
  (append sid input c1 store ;; append sid input c2 store) b
  = append sid input (c1 +:+ c2) store b.
Proof. apply append_twice. Qed.

Lemma append_append_witness :
  wf empty_backend ∧ is_text "line2" = true ∧
  (append "s" "/log.txt" "line1" None ;; append "s" "/log.txt" "line2" None) empty_backend
  = append "s" "/log.txt" "line1line2" None empty_backend.
Proof.
  split; [apply wf_empty|]. split; [reflexivity|].
  apply (append_append empty_backend "s" None "/log.txt" "line1" "line2");
    [apply wf_empty|reflexivity].
Defined.



(** X11: after a [mkdir] that succeeded, the same [mkdir] returns
    [already_existed] and leaves the backend as it is. *)
Theorem mkdir_idempotent b sid store input e b' :
  wf b → mkdir sid input store b = (inr e, b') →
  mkdir sid input store b' = (inr true, b').
Proof.
  intros Hwf Hm.
  destruct (validatePath (JsString input)) as [pe|p] eqn:Hv.
  { unfold mkdir, bind in Hm. by rewrite (validated_fail _ _ _ Hv) in Hm. }
  destruct (mkdir_rows _ _ _ _ _ _ _ Hwf Hv Hm) as [(-> & -> & ->)|(Hp & Hdir & -> & ->)].
  { by rewrite (mkdir_eq _ _ _ _ _ Hwf Hv). }
  set (A := nsOf sid store) in *.
  rewrite (mkdir_eq _ _ _ _ _ (mkdir_state_wf _ _ _ _ Hwf) Hv).
  rewrite (proj2 (String.eqb_neq _ _) Hp). cbv zeta. fold A.
  rewrite provision_id by apply mkdir_state_known.
  rewrite mkdir_state_again.
  rewrite mkdir_state_lookup, (base_target _ _ _ _ _ Hv Hp).
  destruct (vfs_nodes b !! (A, p)) as [[[] c0]|] eqn:E.
  - by specialize (Hdir _ eq_refl).
  - done.
  - by rewrite bool_decide_eq_true_2.
Qed.

Lemma mkdir_idempotent_witness :
  wf empty_backend ∧
  mkdir "s" "/a/b" None (snd (mkdir "s" "/a/b" None empty_backend))
  = (inr true, snd (mkdir "s" "/a/b" None empty_backend)).
Proof.
  split; [apply wf_empty|].
  apply (mkdir_idempotent empty_backend "s" None "/a/b" false _ wf_empty).
  vm_compute. reflexivity.
Defined.

(** X12: a successful [rm] deletes at least the node, and the count it
    returns is the number of rows that are gone; it adds or changes no
    row; after it [stat] finds nothing at the path, and [read] and a
    second [rm] fail with [ENOENT].  This holds whatever the path. *)
Theorem rm_then_absent b sid store input p n b' :
  validatePath (JsString input) = inr p →
  rm sid input store b = (inr n, b') →
  1 ≤ n ∧
  size (vfs_nodes (provision (nsOf sid store) (flagOf store) b)) = size (vfs_nodes b') + n ∧
  vfs_nodes b' ⊆ vfs_nodes (provision (nsOf sid store) (flagOf store) b) ∧
  vfs_nodes b' !! (nsOf sid store, p) = None ∧
  fst (stat sid input store b') = inr (mkStat false None None None) ∧
  fst (read sid input store b') = inl (EVfs ENOENT) ∧
  fst (rm sid input store b') = inl (EVfs ENOENT).
Proof.
  intros Hv. rewrite (rm_eq _ _ _ _ _ Hv).
  destruct (String.eqb_spec p "/") as [->|Hp]; [done|]. cbv zeta.
  set (A := nsOf sid store). set (b1 := provision A (flagOf store) b).
  destruct (vfs_nodes b1 !! (A, p)) as [r|] eqn:E; [|done].
  unfold deleteNode. intros [= <- <-].
  set (hit := filter (fun kr : (string * string) * Row => subtree_row A p kr.1)
                     (vfs_nodes b1)).
  assert (vfs_nodes (set_nodes (filter (fun kr : (string * string) * Row =>
            ¬ subtree_row A p kr.1)) b1) !! (A, p) = None) as Hgone.
  { simpl. apply map_lookup_filter_None. right. intros r' _ Hn. apply Hn. simpl.
    by rewrite subtree_row_self. }
  assert (provision A (flagOf store) (set_nodes (filter (fun kr : (string * string) * Row =>
            ¬ subtree_row A p kr.1)) b1)
          = set_nodes (filter (fun kr : (string * string) * Row =>
            ¬ subtree_row A p kr.1)) b1) as Hprov.
  { apply provision_id. simpl. apply provision_known. }
  split_and!.
  - assert (size hit ≠ 0); [|lia]. apply (map_size_ne_0_lookup_2 _ (A, p)).
    exists r. apply map_lookup_filter_Some. split; [done|]. simpl.
    by rewrite subtree_row_self.
  - simpl. rewrite <- (map_filter_union_complement
                         (fun kr : (string * string) * Row => subtree_row A p kr.1)
                         (vfs_nodes b1)) at 1.
    rewrite map_size_disj_union by apply map_disjoint_filter_complement. unfold hit. lia.
  - simpl. apply map_filter_subseteq.
  - done.
  - rewrite (stat_eq _ _ _ _ _ Hv). cbv zeta. fold A. simpl fst. by rewrite Hprov, Hgone.
  - rewrite (read_eq _ _ _ _ _ Hv). cbv zeta. fold A. by rewrite Hprov, Hgone.
  - rewrite (rm_eq _ _ _ _ _ Hv). rewrite (proj2 (String.eqb_neq _ _) Hp).
    cbv zeta. fold A. by rewrite Hprov, Hgone.
Qed.

Lemma rm_then_absent_witness :
  validatePath (JsString "/my_dir") = inr "/my_dir" ∧
  rm "s" "/my_dir" None two_dirs = (inr 3, snd (rm "s" "/my_dir" None two_dirs)) ∧
  fst (stat "s" "/my_dir" None (snd (rm "s" "/my_dir" None two_dirs)))
  = inr (mkStat false None None None).
Proof.
  split; [reflexivity|].
  assert (rm "s" "/my_dir" None two_dirs = (inr 3, snd (rm "s" "/my_dir" None two_dirs)))
    as H by (vm_compute; reflexivity).
  split; [done|].
  by destruct (rm_then_absent two_dirs "s" None "/my_dir" "/my_dir" 3 _ eq_refl H)
    as (_ & _ & _ & _ & ? & _).
Defined.

(** X13: [move] of a node whose path holds no [LIKE] metacharacter to
    a destination with nothing at or under it: the call succeeds, what
    was at the source or under it is at the same place under the
    destination, nothing is left at or under the source, and every
    other row that was there is as it was, in whatever order the rows
    are rewritten. *)
Theorem move_renames row_order b sid store source destination src dest :
  wf b →
  validatePath (JsString source) = inr src →
  validatePath (JsString destination) = inr dest →
  src ≠ "/" → dest ≠ "/" → startsWith dest (src +:+ "/") = false →
  like_safe src →
  is_Some (vfs_nodes b !! (nsOf sid store, src)) →
  (∀ k, in_subtree (nsOf sid store) dest k → vfs_nodes b !! k = None) →
  ∃ b', move row_order sid source destination store b = (inr tt, b') ∧
    (∀ rest, tail_of_path rest →
       vfs_nodes b' !! (nsOf sid store, dest +:+ rest)
       = vfs_nodes b !! (nsOf sid store, src +:+ rest)) ∧
    (∀ k, in_subtree (nsOf sid store) src k → vfs_nodes b' !! k = None) ∧
    (∀ k r, ¬ in_subtree (nsOf sid store) src k → vfs_nodes b !! k = Some r →
            vfs_nodes b' !! k = Some r).
Proof.
  intros Hwf Hs Hd Hsn Hdn Hin Hsafe Hthere Hfree.
  rewrite (move_eq _ _ _ _ _ _ _ _ Hwf Hs Hd).
  rewrite (proj2 (String.eqb_neq _ _) Hsn), (proj2 (String.eqb_neq _ _) Hdn), Hin.
  cbv zeta. simpl orb. cbv iota.
  set (A := nsOf sid store) in *. rewrite !provision_lookup_nonroot by done.
  destruct Hthere as [r Hr]. rewrite Hr.
  rewrite (Hfree (A, dest)) by (split; [done|by left]).
  by apply (moveNode_rows b A source destination src dest (flagOf store)).
Qed.

Lemma move_renames_witness :
  ∃ b', move by_key "s" "/deep" "/far/away" None after_first_write = (inr tt, b') ∧
        vfs_nodes b' !! ("s", "/far/away/nested/file.txt") = Some (mkRow file (Some "c")) ∧
        vfs_nodes b' !! ("s", "/deep/nested/file.txt") = None.
Proof.
  assert (wf after_first_write) as Hwf by (apply (bool_decide_unpack _); vm_compute; exact I).
  assert (like_safe "/deep") as Hsafe by reflexivity.
  assert (is_Some (vfs_nodes after_first_write !! (nsOf "s" None, "/deep"))) as Hthere
    by (vm_compute; eauto).
  assert (∀ k, in_subtree (nsOf "s" None) "/far/away" k →
               vfs_nodes after_first_write !! k = None) as Hfree.
  { intros k Hk. destruct (vfs_nodes after_first_write !! k) as [r|] eqn:E; [|done].
    apply elem_of_map_to_list in E.
    assert (map_to_list (vfs_nodes after_first_write)
            = [("s", "/deep/nested/file.txt", mkRow file (Some "c"));
               ("s", "/deep/nested", dirRow); ("s", "/deep", dirRow); ("s", "/", dirRow)])
      as Hrows by (vm_compute; reflexivity).
    rewrite Hrows in E. clear Hrows.
    rewrite !elem_of_cons, elem_of_nil in E. destruct Hk as [_ Hk].
    destruct E as [E|[E|[E|[E|[]]]]]; injection E as -> _;
      (destruct Hk as [Hk|Hk]; [discriminate Hk|vm_compute in Hk; discriminate Hk]). }
  destruct (move_renames by_key after_first_write "s" None "/deep" "/far/away" "/deep"
              "/far/away" Hwf eq_refl eq_refl ltac:(discriminate) ltac:(discriminate)
              eq_refl Hsafe Hthere Hfree) as (b' & Hm & Hmoved & Hgone & _).
  exists b'. split_and!; [done| |].
  - change ("s", "/far/away/nested/file.txt")
      with (nsOf "s" None, "/far/away" +:+ "/nested/file.txt").
    rewrite (Hmoved "/nested/file.txt") by (right; by eexists). vm_compute. reflexivity.
  - apply Hgone. split; [done|]. by right.
Defined.



(** X15: [listStores] does not fail and leaves the backend; it returns
    the ids of the sessions marked persistent, each once, in the order
    of the collation of the database when that is a total preorder. *)
Theorem listStores_lists_stores collate b :
  ∃ l, Vfs.listStores collate b = (inr l, b) ∧
       (∀ s, s ∈ l ↔ vfs_sessions b !! s = Some true) ∧
       NoDup l ∧
       (total_preorder collate → StronglySorted (cmp_le collate) l).
Proof.
  eexists. split; [reflexivity|]. split_and!.
  - intros s. rewrite ordered_perm, list_elem_of_fmap. split.
    + intros ([s' f] & -> & Hin).
      apply elem_of_map_to_list, map_lookup_filter_Some in Hin as [Hl Hf].
      simpl in *. by subst.
    + intros Hl. exists (s, true). split; [done|].
      by apply elem_of_map_to_list, map_lookup_filter_Some.
  - rewrite ordered_perm. apply NoDup_fst_map_to_list.
  - apply ordered_sorted.
Qed.

(** X16: no call deletes a session row, changes its flag or drops a
    namespace from the cache; a store once listed stays listed; a call
    adds to the list at most the store it names; and a call that names
    no store leaves the list as it is. *)
Theorem stores_only_grow
    (localeCompare : string → string → Z)
    (picomatch : string → option (string → bool))
    (regexp_compiles : string → bool)
    (regex_match : string → option (string → bool))
    (collate : string → string → Z)
    (row_order : string * string → string * string → Z)
    call sid store b :
  wf b →
  let b' := snd (run localeCompare picomatch regexp_compiles regex_match collate row_order
                   call sid store b) in
  vfs_sessions b ⊆ vfs_sessions b' ∧
  knownNamespaces b ⊆ knownNamespaces b' ∧
  (∀ s, s ∈ store_names b → s ∈ store_names b') ∧
  (∀ s, s ∈ store_names b' → s ∈ store_names b ∨ truthy store = Some s) ∧
  (truthy store = None → store_names b' = store_names b).
Proof.
  intros Hwf b'.
  destruct (sessions_after localeCompare picomatch regexp_compiles regex_match collate
              row_order call sid store b Hwf) as [E|[Hs Hk]];
    fold b' in E || fold b' in Hs, Hk.
  { rewrite E. split_and!; try done. by left. }
  pose proof (fun s => provision_store_names b sid store s Hwf) as Hst.
  set (A := nsOf sid store) in *.
  assert (∀ s, s ∈ store_names b' ↔ s ∈ store_names (provision A (flagOf store) b)) as Hb'.
  { intros s. by rewrite !elem_of_store_names, Hs. }
  split_and!.
  - rewrite Hs. apply map_subseteq_spec. intros s f. apply provision_sessions_lookup.
  - rewrite Hk. intros s. apply provision_known_sub.
  - intros s Hin. apply Hb', Hst. by left.
  - intros s [?|[? _]]%Hb'%Hst; [by left|by right].
  - intros Hnone. unfold store_names. rewrite Hs. do 3 f_equal.
    unfold provision. destruct (decide (A ∈ knownNamespaces b)); [done|]. simpl.
    destruct (vfs_sessions b !! A) eqn:E; [done|].
    apply map_filter_insert_not'.
    + simpl. unfold flagOf. rewrite Hnone. rewrite bool_decide_eq_false_2; [done|].
      by intros [? ?].
    + intros y. by rewrite E.
Qed.

Lemma stores_only_grow_witness :
  wf empty_backend ∧
  store_names (snd (run by_code_unit by_prefix (fun _ => true) by_occurrence
                      by_code_unit by_key (Write "/a" "x") "s" None empty_backend))
  = store_names empty_backend.
Proof.
  split; [apply wf_empty|].
  by apply (stores_only_grow by_code_unit by_prefix (fun _ => true) by_occurrence
              by_code_unit by_key (Write "/a" "x") "s" None empty_backend wf_empty).
Defined.

(** X17: which of the errors of [Error] a call raises, in a namespace
    whose id has no NUL code unit: a [PathError] only from the calls
    that take a path, a [VfsError] only with the codes that the
    operation itself throws ([stat] throws none), a violation of the
    unique constraint only from [move], the refusal of a NUL code unit
    only from [write], [append] and [grep], the refusal of a regular
    expression or of an escape by the database only from [grep], what
    [picomatch] throws only from [glob]; and never a violation of the
    foreign key, the namespace being provisioned before any row is
    written. *)
Theorem call_errors
    (localeCompare : string → string → Z)
    (picomatch : string → option (string → bool))
    (regexp_compiles : string → bool)
    (regex_match : string → option (string → bool))
    (collate : string → string → Z)
    (row_order : string * string → string * string → Z)
    call sid store b e :
  wf b → is_text (nsOf sid store) = true →
  fst (run localeCompare picomatch regexp_compiles regex_match collate row_order
         call sid store b) = inl e →
  may_raise call e.
Proof.
  intros Hwf _.
  destruct (Whole_run localeCompare picomatch regexp_compiles regex_match collate
              row_order call sid store b Hwf) as [He _]. apply He.
Qed.

Lemma call_errors_witness :
  wf empty_backend ∧ is_text (nsOf "s" None) = true ∧
  fst (run by_code_unit by_prefix (fun _ => true) by_occurrence by_code_unit by_key
         (Grep "(" None) "s" None empty_backend) = inl (EDb invalid_regular_expression) ∧
  may_raise (Grep "(" None) (EDb invalid_regular_expression).
Proof.
  split; [apply wf_empty|]. split; [reflexivity|]. split; [reflexivity|].
  apply (call_errors by_code_unit by_prefix (fun _ => true) by_occurrence by_code_unit
           by_key (Grep "(" None) "s" None empty_backend
           (EDb invalid_regular_expression) wf_empty); reflexivity.
Defined.

(** X18: [stat], [read], [ls], [glob] and [grep] leave the backend as
    it is, or with the namespace provisioned and nothing else: as it is
    when the namespace is in the cache; every row stays, and the one
    row that can be new is the root directory of the namespace.
    [listStores] leaves the backend as it is. *)
Theorem read_only_calls
    (localeCompare : string → string → Z)
    (picomatch : string → option (string → bool))
    (regexp_compiles : string → bool)
    (regex_match : string → option (string → bool))
    (collate : string → string → Z)
    (row_order : string * string → string * string → Z)
    call sid store b :
  reads_only call = true →
  let b' := snd (run localeCompare picomatch regexp_compiles regex_match collate row_order
                   call sid store b) in
  (b' = b ∨ b' = provision (nsOf sid store) (flagOf store) b) ∧
  (nsOf sid store ∈ knownNamespaces b → b' = b) ∧
  (∀ k r, vfs_nodes b !! k = Some r → vfs_nodes b' !! k = Some r) ∧
  (∀ k r, vfs_nodes b' !! k = Some r →
          vfs_nodes b !! k = Some r ∨ (k = (nsOf sid store, "/") ∧ r = dirRow)) ∧
  snd (Vfs.listStores collate b) = b.
Proof.
  intros Hro b'. set (A := nsOf sid store).
  assert (b' = b ∨ b' = provision A (flagOf store) b) as Hb'.
  { destruct call as [input|input| | |input| | | |pattern|pattern pf];
      try discriminate; unfold b', run.
    - destruct (validatePath (JsString input)) as [e|p] eqn:Hv.
      + left. unfold stat, bind. by rewrite (validated_fail _ _ _ Hv).
      + right. unfold bind at 1. by rewrite (stat_eq _ _ _ _ _ Hv).
    - destruct (validatePath (JsString input)) as [e|p] eqn:Hv.
      + left. unfold read, bind. by rewrite (validated_fail _ _ _ Hv).
      + right. unfold bind at 1. rewrite (read_eq _ _ _ _ _ Hv). cbv zeta.
        by destruct (vfs_nodes _ !! _) as [[[] ?]|].
    - destruct (validatePath (JsString input)) as [e|p] eqn:Hv.
      + left. unfold ls, bind. by rewrite (validated_fail _ _ _ Hv).
      + right. unfold bind at 1. rewrite (ls_eq _ _ _ _ _ _ _ Hv). cbv zeta.
        by destruct (vfs_nodes _ !! _) as [[[] ?]|].
    - right. unfold bind at 1. rewrite glob_eq. cbv zeta.
      destruct (MAX_GLOB_PATHS <? _)%Z; [done|]. by destruct (picomatch pattern).
    - destruct (regexp_compiles pattern) eqn:Hc.
      + right. unfold bind at 1. rewrite grep_eq, Hc.
        by destruct (fst (grepContent collate regex_match _ _ _ _)).
      + left. unfold bind at 1. by rewrite grep_eq, Hc. }
  split_and!; [done| | | |done].
  - intros Hk. destruct Hb' as [->| ->]; [done|]. by apply provision_id.
  - intros k r H. destruct Hb' as [->| ->]; [done|]. by apply provision_other.
  - intros k r. destruct Hb' as [->| ->]; [by left|]. rewrite provision_lookup.
    destruct (vfs_nodes b !! k); [by left|].
    case_bool_decide as Hk; [|done]. destruct Hk as [-> _]. intros [= <-]. by right.
Qed.

Lemma read_only_calls_witness :
  reads_only (Ls "/") = true ∧
  snd (run by_code_unit by_prefix (fun _ => true) by_occurrence by_code_unit by_key
         (Ls "/") "s" None file_at_a) = file_at_a.
Proof.
  split; [reflexivity|].
  destruct (read_only_calls by_code_unit by_prefix (fun _ => true) by_occurrence
              by_code_unit by_key (Ls "/") "s" None file_at_a eq_refl) as (_ & H & _).
  apply H. apply (bool_decide_unpack _). vm_compute. exact I.
Defined.

(** X19: no call deletes, moves or rewrites the root of a namespace,
    whatever the paths it is given. *)
Theorem root_permanent
    (localeCompare : string → string → Z)
    (picomatch : string → option (string → bool))
    (regexp_compiles : string → bool)
    (regex_match : string → option (string → bool))
    (collate : string → string → Z)
    (row_order : string * string → string * string → Z)
    call sid store b A r :
  vfs_nodes b !! (A, "/") = Some r →
  vfs_nodes (snd (run localeCompare picomatch regexp_compiles regex_match collate
                    row_order call sid store b))
    !! (A, "/") = Some r.
Proof. apply Keeps_root_run. Qed.

Lemma root_permanent_witness :
  vfs_nodes two_dirs !! ("s", "/") = Some dirRow ∧
  vfs_nodes (snd (run by_code_unit by_prefix (fun _ => true) by_occurrence by_code_unit
                    by_key (Rm "/%") "s" None two_dirs)) !! ("s", "/") = Some dirRow.
Proof.
  assert (vfs_nodes two_dirs !! ("s", "/") = Some dirRow) as H by (vm_compute; reflexivity).
  split; [done|].
  by apply (root_permanent by_code_unit by_prefix (fun _ => true) by_occurrence
              by_code_unit by_key (Rm "/%") "s" None two_dirs "s" dirRow).
Defined.



(** X21: the paths that [glob] returns come each once, and in the
    order of the collation of the database when that is a total
    preorder. *)
Theorem glob_sorted picomatch collate sid pattern store b l :
  fst (glob picomatch collate sid pattern store b) = inr l →
  NoDup l ∧ (total_preorder collate → StronglySorted (cmp_le collate) l).
Proof.
  rewrite glob_eq. cbv zeta. destruct (MAX_GLOB_PATHS <? _)%Z; [done|].
  destruct (picomatch pattern) as [isMatch|]; [|done]. intros [= <-]. split.
  - apply NoDup_list_filter, file_paths_NoDup.
  - intros Hpre. by apply StronglySorted_list_filter, file_paths_sorted.
Qed.

Lemma glob_sorted_witness :
  fst (glob by_prefix by_code_unit "s" "/my" None two_dirs)
  = inr ["/my-dir/g.txt"; "/my_dir/f.txt"] ∧
  total_preorder by_code_unit ∧
  StronglySorted (cmp_le by_code_unit) ["/my-dir/g.txt"; "/my_dir/f.txt"].
Proof.
  assert (fst (glob by_prefix by_code_unit "s" "/my" None two_dirs)
          = inr ["/my-dir/g.txt"; "/my_dir/f.txt"]) as H by (vm_compute; reflexivity).
  split; [done|]. split; [apply by_code_unit_preorder|].
  destruct (glob_sorted by_prefix by_code_unit "s" "/my" None two_dirs _ H) as [_ Hs].
  apply Hs, by_code_unit_preorder.
Defined.

(** X22: the [LIKE] pattern that [grep] makes of a path filter without
    backslash matches as the filter read as a wildcard pattern: [*]
    and [**] stand for any run of code units, [%] and [_] for
    themselves. *)
Theorem grep_path_filter f :
  free_of "\" f → ∀ q, like q (sql_path_filter f) = star_match f q.
Proof. intros Hf q. unfold like. by apply (grep_filter_sound (String.length f)). Qed.

Lemma grep_path_filter_witness :
  free_of "\" "/src/**/a_b*.ts" ∧
  like "/src/x/y/a_b1.ts" (sql_path_filter "/src/**/a_b*.ts") = true ∧
  like "/src/x/y/a-b1.ts" (sql_path_filter "/src/**/a_b*.ts") = false.
Proof.
  assert (free_of "\" "/src/**/a_b*.ts") as H by reflexivity.
  split; [done|]. rewrite !(grep_path_filter "/src/**/a_b*.ts" H). by split.
Defined.

(** X23: [grep] fails with [EINVAL], before the backend is touched, on
    a pattern that [RegExp] refuses.  Otherwise, in a namespace whose
    id has no NUL code unit, it provisions the namespace; it is refused
    by the database for a NUL code unit in the pattern or in the path
    filter, and then for a pattern that is not a regular expression of
    PostgreSQL; and for a pattern that is one and a path filter that
    leaves no escape open in the [LIKE] pattern made of it, as any
    filter without a backslash does, it returns exactly the lines,
    numbered from 1, that match the pattern in the files of the
    namespace whose content as a whole matches it and whose path the
    filter, if any, admits. *)
Theorem grep_matches regexp_compiles regex_match collate sid pattern pathFilter store b :
  let A := nsOf sid store in
  let b1 := provision A (flagOf store) b in
  let res := grep regexp_compiles regex_match collate sid pattern pathFilter store b in
  (regexp_compiles pattern = false → res = (inl (EVfs EINVAL), b)) ∧
  (regexp_compiles pattern = true → is_text A = true →
   snd res = b1 ∧
   (is_text pattern = false → fst res = inl (EDb character_not_in_repertoire)) ∧
   (∀ f, truthy pathFilter = Some f → is_text f = false →
         fst res = inl (EDb character_not_in_repertoire)) ∧
   (is_text pattern = true → (∀ f, truthy pathFilter = Some f → is_text f = true) →
    regex_match pattern = None → fst res = inl (EDb invalid_regular_expression)) ∧
   (∀ matches,
      is_text pattern = true → regex_match pattern = Some matches →
      (∀ f, truthy pathFilter = Some f →
            is_text f = true ∧ escapes_closed (sql_path_filter f) = true) →
      ∃ l, fst res = inr l ∧
           ∀ m, m ∈ l ↔
                ∃ r c, vfs_nodes b !! (A, match_path m) = Some r ∧
                       node_type r = file ∧ content r = Some c ∧
                       matches c = true ∧
                       (∀ f, truthy pathFilter = Some f →
                             like (match_path m) (sql_path_filter f) = true) ∧
                       1 ≤ lineNumber m ∧
                       split "010" c !! (lineNumber m - 1) = Some (line m) ∧
                       matches (line m) = true)) ∧
  (∀ f, free_of "\" f → escapes_closed (sql_path_filter f) = true).
Proof.
  intros A b1 res. unfold res. rewrite grep_eq. fold A b1.
  split_and!; [by intros ->| |intros f; apply (sql_path_filter_closed (String.length f)); lia].
  intros -> _. set (pf := option_map sql_path_filter (truthy pathFilter)).
  assert (∀ g, truthy pf = Some g → ∃ f, truthy pathFilter = Some f ∧ g = sql_path_filter f)
    as Hpf.
  { intros g. unfold pf. rewrite truthy_filter.
    destruct (truthy pathFilter) as [f|]; [|done]. intros [= <-]. by exists f. }
  assert (∀ f, is_text (sql_path_filter f) = is_text f) as Htext
    by (intros f; by apply (sql_path_filter_text (String.length f))).
  destruct (grepContent_refused collate regex_match A pattern pf b1) as (H1 & H2 & H3).
  simpl fst. simpl snd. split_and!; [done|done| | |].
  - intros f Hf Hnul. apply (H2 (sql_path_filter f)); [|by rewrite Htext].
    unfold pf. by rewrite truthy_filter, Hf.
  - intros Hp Hf. apply H3; [done|]. intros g (f & Hf' & ->)%Hpf.
    rewrite Htext. by apply Hf.
  - intros matches Hp Hrx Hf.
    rewrite (grepContent_ok collate regex_match A pattern pf b1 matches Hp); [|
      intros g (f & Hf' & ->)%Hpf; rewrite Htext; by apply Hf|done].
    eexists. split; [done|]. intros m. rewrite elem_of_matched_lines.
    unfold pf. rewrite truthy_filter.
    split; intros (r & c & Hl & Hfile & Hc & Hm & Hfilter & Hn & Hline & Hml);
      exists r, c.
    + apply (provision_file_lookup A (flagOf store) b _ _ Hfile) in Hl.
      split_and!; try done. intros f Ht. apply Hfilter. by rewrite Ht.
    + apply (provision_file_lookup A (flagOf store) b _ _ Hfile) in Hl.
      split_and!; try done. intros f Ht. destruct (truthy pathFilter) as [f0|]; [|done].
      injection Ht as <-. by apply Hfilter.
Qed.

Lemma grep_matches_witness :
  ∃ l, fst (grep (fun _ => true) by_occurrence by_code_unit "s" "" (Some "/my_*") None
              two_dirs) = inr l ∧
       mkMatch "/my_dir/f.txt" 1 "f" ∈ l ∧
       (∀ m, m ∈ l → match_path m ≠ "/my-dir/g.txt").
Proof.
  destruct (grep_matches (fun _ => true) by_occurrence by_code_unit "s" "" (Some "/my_*")
              None two_dirs) as (_ & H & _).
  destruct (H eq_refl eq_refl) as (_ & _ & _ & _ & Hok).
  destruct (Hok (occurs "") eq_refl eq_refl) as (l & Hl & Hm).
  { intros f [= <-]. split; reflexivity. }
  exists l. split; [done|]. split.
  - apply Hm. exists (mkRow file (Some "f")), "f".
    split_and!; [vm_compute; reflexivity|reflexivity|reflexivity|reflexivity|
                 |simpl; lia|reflexivity|reflexivity].
    intros f [= <-]. vm_compute. reflexivity.
  - intros m (r & c & _ & _ & _ & _ & Hfilter & _)%Hm Hp.
    specialize (Hfilter "/my_*" eq_refl). rewrite Hp in Hfilter.
    vm_compute in Hfilter. discriminate Hfilter.
Defined.

(** X24: the matches of [grep] come by path, in the order of the
    collation of the database when that is a total preorder, and by
    line number within a file. *)
Theorem grep_ordered regexp_compiles regex_match collate sid pattern pathFilter store b l :
  total_preorder collate →
  fst (grep regexp_compiles regex_match collate sid pattern pathFilter store b) = inr l →
  StronglySorted (match_before collate) l.
Proof.
  intros Hpre. rewrite grep_eq. destruct (regexp_compiles pattern); [|done]. simpl fst.
  by apply grepContent_sorted.
Qed.

Lemma grep_ordered_witness :
  total_preorder by_code_unit ∧
  fst (grep (fun _ => true) by_occurrence by_code_unit "s" "" None None two_dirs)
  = inr [mkMatch "/my-dir/g.txt" 1 "g"; mkMatch "/my_dir/f.txt" 1 "f"] ∧
  StronglySorted (match_before by_code_unit)
    [mkMatch "/my-dir/g.txt" 1 "g"; mkMatch "/my_dir/f.txt" 1 "f"].
Proof.
  assert (fst (grep (fun _ => true) by_occurrence by_code_unit "s" "" None None two_dirs)
          = inr [mkMatch "/my-dir/g.txt" 1 "g"; mkMatch "/my_dir/f.txt" 1 "f"]) as H
    by (vm_compute; reflexivity).
  split; [apply by_code_unit_preorder|]. split; [done|].
  exact (grep_ordered (fun _ => true) by_occurrence by_code_unit "s" "" None None two_dirs
           _ by_code_unit_preorder H).
Defined.





(** X27: [rm] of a node whose path holds no [LIKE] metacharacter
    returns the number of rows at or under the path, leaves none of
    them, keeps every other row, and adds at most the root of the
    namespace. *)
Theorem rm_removes_subtree sid store input p b :
  validatePath (JsString input) = inr p → p ≠ "/" → like_safe p →
  is_Some (vfs_nodes b !! (nsOf sid store, p)) →
  ∃ b', rm sid input store b
        = (inr (size (filter (fun kr : (string * string) * Row =>
                                in_subtree (nsOf sid store) p kr.1) (vfs_nodes b))), b') ∧
    (∀ k, in_subtree (nsOf sid store) p k → vfs_nodes b' !! k = None) ∧
    (∀ k r, ¬ in_subtree (nsOf sid store) p k → vfs_nodes b !! k = Some r →
            vfs_nodes b' !! k = Some r) ∧
    (∀ k r, vfs_nodes b' !! k = Some r →
            vfs_nodes b !! k = Some r ∨ (k = (nsOf sid store, "/") ∧ r = dirRow)).
Proof.
  intros Hv Hp Hsafe Hthere.
  destruct (rm_safe sid store input p b Hv Hp Hsafe Hthere) as (b' & Hrm & Hlk).
  set (A := nsOf sid store) in *. exists b'. split_and!.
  - rewrite Hrm. do 3 f_equal. apply map_eq. intros k.
    rewrite !map_lookup_filter, provision_lookup.
    destruct (vfs_nodes b !! k) as [r|] eqn:E; [done|].
    case_bool_decide as Hroot; [|done]. destruct Hroot as [-> _]. simpl.
    rewrite option_guard_False; [done|]. simpl. intros Hin%subtree_row_in_subtree; [|done].
    by rewrite (root_not_in_subtree A A input p Hv Hp) in Hin.
  - intros k Hin. by rewrite Hlk, decide_True.
  - intros k r Hout H. rewrite Hlk, decide_False by done. by rewrite provision_lookup, H.
  - intros k r. rewrite Hlk. case_decide; [done|]. rewrite provision_lookup.
    destruct (vfs_nodes b !! k); [by left|].
    case_bool_decide as Hroot; [|done]. destruct Hroot as [-> _]. intros [= <-]. by right.
Qed.

Lemma rm_removes_subtree_witness :
  ∃ b', rm "s" "/my-dir" None two_dirs = (inr 2, b') ∧
        vfs_nodes b' !! ("s", "/my-dir/g.txt") = None ∧
        vfs_nodes b' !! ("s", "/my_dir/f.txt") = Some (mkRow file (Some "f")).
Proof.
  assert (like_safe "/my-dir") as Hsafe by reflexivity.
  assert (is_Some (vfs_nodes two_dirs !! (nsOf "s" None, "/my-dir"))) as Hthere
    by (vm_compute; eauto).
  destruct (rm_removes_subtree "s" None "/my-dir" "/my-dir" two_dirs eq_refl
              ltac:(discriminate) Hsafe Hthere) as (b' & Hrm & Hgone & Hkeep & _).
  exists b'. split_and!.
  - rewrite Hrm. by do 2 f_equal.
  - apply Hgone. split; [done|]. by right.
  - apply Hkeep; [|vm_compute; reflexivity].
    intros [_ [H|H]]; [discriminate H|vm_compute in H; discriminate H].
Defined.



End Further.
